(** * Task hierarchy of the MERN todo backend

    A shallow embedding of [backend/src/controllers/todoController.js]
    (createTask, getTasks, getTaskById, updateTask, deleteTask) and of the
    Todo model with its [pre('findOneAndDelete')] cascade hook
    ([backend/models/Todo.js]).

    Conventions of the embedding.
    - An ObjectId is a natural number; MongoDB orders ObjectIds bytewise,
      which is the order of [nat] here.
    - The collection is the list of its documents in natural (insertion)
      order; [find], [findOne] and [findById] scan it front to back.
    - Each handler is a function from the store to a response and a new
      store.  The two unbounded loops of the source (the [while(current)]
      walk of updateTask and the recursion of the delete hook) take a fuel
      argument and answer [None] when it runs out.
    - A text is held as the bytes of its UTF-8 encoding.
    - An id a request submits is a text: it is cast to an ObjectId
      wherever the source uses it as one, and compared letter by letter
      where the source compares strings.
    - A handler answers with the document it re-reads from the store;
      the body it sends is that document after [populate], given by
      [populatedTask]. *)

From Stdlib Require Import List String Ascii Bool Arith NArith Lia.
From Stdlib Require Import Permutation Sorted Relations.
Import ListNotations.

(** ** Data model *)

Definition ObjectId := nat.

(** [role: { type: String, enum: ['User', 'Admin'], default: 'User' }] *)
Inductive Role := User | Admin.

(** The authenticated user attached to the request by [protect]. *)
Record Principal := mkPrincipal {
  user_id : ObjectId;
  role : Role
}.

(** [const isAdmin = (user) => user && user.role === 'Admin';] *)
Definition isAdmin (user : Principal) : bool :=
  match role user with Admin => true | User => false end.

(** A document of the [todoSchema], with the two timestamps. *)
Record Todo := mkTodo {
  _id : ObjectId;
  text : string;
  completed : bool;
  owner : ObjectId;
  dueDate : option nat;
  tag : option string;
  team : option ObjectId;
  parentTask : option ObjectId;
  createdAt : nat;
  updatedAt : nat
}.

Definition Store := list Todo.

Lemma option_eq_dec (A : Type) (dec : forall a b : A, {a = b} + {a <> b})
  (x y : option A) : {x = y} + {x <> y}.
Proof. decide equality. Defined.

Lemma Todo_eq_dec (a b : Todo) : {a = b} + {a <> b}.
Proof.
  decide equality;
    try apply Nat.eq_dec; try apply bool_dec; try apply string_dec;
    apply option_eq_dec; try apply Nat.eq_dec; apply string_dec.
Defined.

(** The outcomes a handler reports.  In the source they are HTTP answers:
    - [NotFound]        404
    - [InvalidUpdate]   400 'Invalid updates!'
    - [SelfParentError] 400 'A task/todo cannot be its own parent.'
    - [CycleError]      400 'Cannot set a descendant task/todo as a parent
                             (creates a cycle).'
    - [InvalidOwner]    400 'Assigned user not found.'
    - [ValidationError] 400 with the validator's message
    - [CastError]       400 with the error thrown by a query caster
    - [DuplicateKey]    400 with the error of the unique [_id] index *)
Inductive Error :=
| NotFound | InvalidUpdate | SelfParentError | CycleError
| InvalidOwner | ValidationError | CastError | DuplicateKey.

Inductive Response (A : Type) :=
| Ok (a : A)
| Err (e : Error).
Arguments Ok {A} a.
Arguments Err {A} e.

(** ** Strings: the [trim: true] setter *)

(** The setter is [String.prototype.trim]: it strips the white space and
    the line terminators of ECMAScript from both ends.  Those of one
    byte: space, tab, line feed, vertical tab, form feed, carriage
    return. *)
Definition isSpace (c : ascii) : bool :=
  let n := nat_of_ascii c in (n =? 32) || ((9 <=? n) && (n <=? 13)).

(** Of two bytes: the no-break space U+00A0 (C2 A0). *)
Definition isSpace2 (a b : ascii) : bool :=
  (nat_of_ascii a =? 194) && (nat_of_ascii b =? 160).

(** Of three bytes: U+1680 (E1 9A 80), U+2000 to U+200A (E2 80 80 to
    E2 80 8A), the separators U+2028 and U+2029 (E2 80 A8, E2 80 A9),
    U+202F (E2 80 AF), U+205F (E2 81 9F), U+3000 (E3 80 80) and the byte
    order mark U+FEFF (EF BB BF). *)
Definition isSpace3 (a b c : ascii) : bool :=
  let x := nat_of_ascii a in
  let y := nat_of_ascii b in
  let z := nat_of_ascii c in
  ((x =? 225) && (y =? 154) && (z =? 128))
  || ((x =? 226) && (y =? 128)
      && (((128 <=? z) && (z <=? 138)) || (z =? 168) || (z =? 169)
          || (z =? 175)))
  || ((x =? 226) && (y =? 129) && (z =? 159))
  || ((x =? 227) && (y =? 128) && (z =? 128))
  || ((x =? 239) && (y =? 187) && (z =? 191)).

Fixpoint trimStart (s : string) : string :=
  match s with
  | EmptyString => EmptyString
  | String a r =>
      if isSpace a then trimStart r
      else
        match r with
        | EmptyString => s
        | String b r2 =>
            if isSpace2 a b then trimStart r2
            else
              match r2 with
              | EmptyString => s
              | String c r3 => if isSpace3 a b c then trimStart r3 else s
              end
        end
  end.

Definition reverse (s : string) : string :=
  string_of_list_ascii (rev (list_ascii_of_string s)).

(** [trimStart] on a text read backwards: the bytes of a character come
    last byte first. *)
Fixpoint trimStartReversed (s : string) : string :=
  match s with
  | EmptyString => EmptyString
  | String a r =>
      if isSpace a then trimStartReversed r
      else
        match r with
        | EmptyString => s
        | String b r2 =>
            if isSpace2 b a then trimStartReversed r2
            else
              match r2 with
              | EmptyString => s
              | String c r3 =>
                  if isSpace3 c b a then trimStartReversed r3 else s
              end
        end
  end.

Definition trimEnd (s : string) : string :=
  reverse (trimStartReversed (reverse s)).

Definition trim (s : string) : string := trimEnd (trimStart s).

(** ** Dates: the caster of a [Date] path *)

(** A number is cast by [new Date(n)], which is a valid date only up to
    8640000000000000 milliseconds from the epoch; beyond, the cast fails
    and with it the save. *)
Definition maxTime : N := 8640000000000000%N.

Definition isDate (n : nat) : bool := (N.of_nat n <=? maxTime)%N.

(** ** Queries of the store *)

(** [Todo.findById(id)] *)
Definition findById (s : Store) (id : ObjectId) : option Todo :=
  find (fun t => _id t =? id) s.

(** [Todo.findOne({ _id, owner })] *)
Definition findOneOwned (s : Store) (id o : ObjectId) : option Todo :=
  find (fun t => (_id t =? id) && (owner t =? o)) s.

(** The role-dependent fetch shared by getTaskById and updateTask:
    [findById(_id)] for an administrator, [findOne({_id, owner})] otherwise. *)
Definition fetch (requester : Principal) (s : Store) (id : ObjectId)
  : option Todo :=
  if isAdmin requester then findById s id
  else findOneOwned s id (user_id requester).

(** ** createTask *)

(** The fields of a creation request. *)
Record CreateBody := mkCreateBody {
  b_text : option string;
  b_completed : option bool;
  b_dueDate : option nat;
  b_tag : option string;
  b_team : option ObjectId;
  b_parentTask : option ObjectId;
  b_owner : option ObjectId
}.

(** [new Todo({...req.body, owner: ownerId})] followed by the validation
    [save()] runs: [text] is required and trimmed, [completed] defaults to
    false, [dueDate] has to be a date, [tag] is trimmed. *)
Definition newTodo (newId now : nat) (body : CreateBody) (ownerId : ObjectId)
  : option Todo :=
  match b_text body with
  | None => None
  | Some txt =>
      if String.eqb (trim txt) EmptyString then None
      else if negb (match b_dueDate body with
                    | Some d => isDate d
                    | None => true
                    end) then None
      else Some {| _id := newId;
                   text := trim txt;
                   completed := match b_completed body with
                                | Some b => b | None => false end;
                   owner := ownerId;
                   dueDate := b_dueDate body;
                   tag := option_map trim (b_tag body);
                   team := b_team body;
                   parentTask := b_parentTask body;
                   createdAt := now;
                   updatedAt := now |}
  end.

(** [createTask]: [users] are the ids [User.findById] finds, [newId] the
    ObjectId the driver generates, [now] the clock.  The answer is the
    document as stored; the body of the 201 is
    [populatedTask users s' newId]. *)
Definition createTask (users : list ObjectId) (newId now : nat)
  (creator : Principal) (body : CreateBody) (s : Store)
  : Response Todo * Store :=
  let resolved :=
    match (if isAdmin creator then b_owner body else None) with
    | Some o =>
        (* [User.findById(req.body.owner)] *)
        if existsb (Nat.eqb o) users then Ok o else Err InvalidOwner
    | None => Ok (user_id creator)
    end in
  match resolved with
  | Err e => (Err e, s)
  | Ok ownerId =>
      match newTodo newId now body ownerId with
      | None => (Err ValidationError, s)
      | Some task =>
          if existsb (fun t => _id t =? newId) s then (Err DuplicateKey, s)
          else (Ok task, s ++ [task])
      end
  end.

(** ** getTasks *)

(** [.sort({ parentTask: 1, createdAt: 1 })]: missing parents first. *)
Definition parentLeb (a b : option ObjectId) : bool :=
  match a, b with
  | None, _ => true
  | Some _, None => false
  | Some x, Some y => x <=? y
  end.

Definition parentEqb (a b : option ObjectId) : bool :=
  match a, b with
  | None, None => true
  | Some x, Some y => x =? y
  | _, _ => false
  end.

Definition sortLeb (a b : Todo) : bool :=
  if parentEqb (parentTask a) (parentTask b)
  then createdAt a <=? createdAt b
  else parentLeb (parentTask a) (parentTask b).

Fixpoint insertTask (t : Todo) (l : list Todo) : list Todo :=
  match l with
  | [] => [t]
  | h :: r => if sortLeb t h then t :: l else h :: insertTask t r
  end.

Definition sortTasks (l : list Todo) : list Todo :=
  fold_right insertTask [] l.

(** [Todo.find({})] for an administrator, [Todo.find({ owner })] otherwise,
    both sorted. *)
Definition getTasks (requester : Principal) (s : Store) : list Todo :=
  if isAdmin requester then sortTasks s
  else sortTasks (filter (fun t => owner t =? user_id requester) s).

(** ** getTaskById *)

Definition getTaskById (requester : Principal) (id : ObjectId) (s : Store)
  : Response Todo :=
  match fetch requester s id with
  | Some task => Ok task
  | None => Err NotFound
  end.

(** ** populate *)

(** A task as createTask and updateTask send it.
    [populate('owner', 'name email')] puts the user's document in the
    place of the owner's id and [populate('parentTask', 'text')] the
    parent's; a reference to a document that is not stored becomes null.
    Of the two documents the [_id] and, for the parent, the [text] are
    kept here; the other paths are sent as stored. *)
Record PopulatedTask := mkPopulatedTask {
  stored : Todo;
  populatedOwner : option ObjectId;
  populatedParent : option (ObjectId * string)
}.

Definition populate (users : list ObjectId) (s : Store) (t : Todo)
  : PopulatedTask :=
  mkPopulatedTask t
    (if existsb (Nat.eqb (owner t)) users then Some (owner t) else None)
    (match parentTask t with
     | Some p => option_map (fun d => (_id d, text d)) (findById s p)
     | None => None
     end).

(** [const populatedTask = await Todo.findById(task._id)
       .populate('owner', 'name email').populate('parentTask', 'text')
       .exec()], on the store the save has left; [users] are the stored
    users. *)
Definition populatedTask (users : list ObjectId) (s : Store)
  (id : ObjectId) : option PopulatedTask :=
  option_map (populate users s) (findById s id).

(** ** updateTask *)

(** The values of a request body.  [VId i] is the string [i.toString()]
    of the ObjectId [i], 24 hexadecimal digits in lower case;
    [VIdCased i] is another string the casters read as [i], such as the
    same digits in upper case; [VStr] is any other string. *)
Inductive Value :=
| VNull
| VBool (b : bool)
| VNum (n : nat)
| VStr (s : string)
| VId (i : ObjectId)
| VIdCased (i : ObjectId).

(** [req.body]: the keys in insertion order with their values. *)
Definition Body := list (string * Value).

(** [Object.keys(req.body)] *)
Definition keys (body : Body) : list string := map fst body.

(** [req.body[key]]; [None] is [undefined]. *)
Fixpoint lookup (body : Body) (key : string) : option Value :=
  match body with
  | [] => None
  | (k, v) :: r => if String.eqb k key then Some v else lookup r key
  end.

Definition allowedUpdates : list string :=
  ["text"; "completed"; "dueDate"; "tag"; "parentTask"; "owner"]%string.

(** [allowedUpdates.includes(update)] *)
Definition includes (l : list string) (x : string) : bool :=
  existsb (String.eqb x) l.

(** [updates.every((update) => allowedUpdates.includes(update))] *)
Definition isValidOperation (body : Body) : bool :=
  forallb (includes allowedUpdates) (keys body).

(** JavaScript truthiness of [req.body.parentTask]. *)
Definition truthy (v : option Value) : bool :=
  match v with
  | None | Some VNull => false
  | Some (VBool b) => b
  | Some (VNum n) => negb (n =? 0)
  | Some (VStr s) => negb (String.eqb s EmptyString)
  | Some (VId _) | Some (VIdCased _) => true
  end.

(** [req.body.parentTask.toString() === task._id.toString()]: a
    comparison of strings, which only the spelling of [toString()]
    passes. *)
Definition sameIdString (v : option Value) (id : ObjectId) : bool :=
  match v with
  | Some (VId i) => i =? id
  | _ => false
  end.

(** The ObjectId a caster reads from a submitted value. *)
Definition castId (v : option Value) : option ObjectId :=
  match v with
  | Some (VId i) | Some (VIdCased i) => Some i
  | _ => None
  end.

(** [current.parentTask ? await Todo.findById(current.parentTask) : null] *)
Definition parentDoc (s : Store) (current : Todo) : option Todo :=
  match parentTask current with
  | Some p => findById s p
  | None => None
  end.

(** The [while(current)] loop: [Some true] when it returns the cycle
    answer, [Some false] when it falls through, [None] when [fuel]
    iterations did not end it. *)
Fixpoint cycleWalk (fuel : nat) (s : Store) (taskId : ObjectId)
  (current : option Todo) : option bool :=
  match current with
  | None => Some false
  | Some c =>
      if _id c =? taskId then Some true
      else match fuel with
           | 0 => None
           | S fuel' => cycleWalk fuel' s taskId (parentDoc s c)
           end
  end.

(** The two parent validations of updateTask.  [Some None]: both passed. *)
Definition parentChecks (fuel : nat) (s : Store) (task : Todo)
  (pt : option Value) : option (option Error) :=
  if truthy pt && sameIdString pt (_id task) then Some (Some SelfParentError)
  else if truthy pt then
    match castId pt with
    | Some potentialParentId =>
        match cycleWalk fuel s (_id task) (findById s potentialParentId) with
        | None => None
        | Some true => Some (Some CycleError)
        | Some false => Some None
        end
    | None => Some (Some CastError)
    end
  else Some None.

(** [task[update] = value] through the schema's casters and setters;
    [None] when the value is rejected, which [save()] reports as a
    validation error.  Each path takes the values of its own type (and
    null where the path is optional); the coercions of the casters, such
    as a number given for a string, are not modelled and count as
    rejected.  A key outside the schema paths leaves the document as it
    is. *)
Definition setField (task : Todo) (update : string) (v : option Value)
  : option Todo :=
  let upd tx co ow du tg pa :=
    Some (mkTodo (_id task) tx co ow du tg (team task) pa
                 (createdAt task) (updatedAt task)) in
  let keep := upd (text task) (completed task) (owner task) (dueDate task)
                  (tag task) (parentTask task) in
  if String.eqb update "text" then
    match v with
    | Some (VStr x) =>
        if String.eqb (trim x) EmptyString then None
        else upd (trim x) (completed task) (owner task) (dueDate task)
                 (tag task) (parentTask task)
    | _ => None
    end
  else if String.eqb update "completed" then
    match v with
    | Some (VBool b) =>
        upd (text task) b (owner task) (dueDate task) (tag task)
            (parentTask task)
    | _ => None
    end
  else if String.eqb update "dueDate" then
    match v with
    | Some (VNum d) =>
        if isDate d
        then upd (text task) (completed task) (owner task) (Some d)
                 (tag task) (parentTask task)
        else None
    | Some VNull =>
        upd (text task) (completed task) (owner task) None (tag task)
            (parentTask task)
    | _ => None
    end
  else if String.eqb update "tag" then
    match v with
    | Some (VStr x) =>
        upd (text task) (completed task) (owner task) (dueDate task)
            (Some (trim x)) (parentTask task)
    | Some VNull =>
        upd (text task) (completed task) (owner task) (dueDate task) None
            (parentTask task)
    | _ => None
    end
  else if String.eqb update "parentTask" then
    match v with
    | Some (VId p) | Some (VIdCased p) =>
        upd (text task) (completed task) (owner task) (dueDate task)
            (tag task) (Some p)
    | Some VNull =>
        upd (text task) (completed task) (owner task) (dueDate task)
            (tag task) None
    | _ => None
    end
  else if String.eqb update "owner" then
    match v with
    | Some (VId o) | Some (VIdCased o) =>
        upd (text task) (completed task) o (dueDate task) (tag task)
            (parentTask task)
    | _ => None
    end
  else keep.

(** [updates.forEach(...)]: the owner key is skipped for a requester who
    is not an administrator. *)
Fixpoint applyUpdates (requester : Principal) (body : Body)
  (updates : list string) (task : Todo) : option Todo :=
  match updates with
  | [] => Some task
  | update :: rest =>
      if String.eqb update "owner" && negb (isAdmin requester)
      then applyUpdates requester body rest task
      else match setField task update (lookup body update) with
           | None => None
           | Some task' => applyUpdates requester body rest task'
           end
  end.

(** The write of [task.save()]: the first document with that [_id]. *)
Fixpoint replaceDoc (t : Todo) (s : Store) : Store :=
  match s with
  | [] => []
  | h :: r => if _id h =? _id t then t :: r else h :: replaceDoc t r
  end.

(** [task.save()]: nothing is written for an unmodified document; a
    modified one gets a new [updatedAt]. *)
Definition save (now : nat) (old new : Todo) (s : Store) : Todo * Store :=
  if Todo_eq_dec old new then (old, s)
  else
    let saved := mkTodo (_id new) (text new) (completed new) (owner new)
                        (dueDate new) (tag new) (team new) (parentTask new)
                        (createdAt new) now in
    (saved, replaceDoc saved s).

(** The part of updateTask after the parent validations.  The answer is
    the document as stored; the body sent is
    [populatedTask users s' (_id task)]. *)
Definition applyAndSave (now : nat) (requester : Principal) (body : Body)
  (task : Todo) (s : Store) : Response Todo * Store :=
  match applyUpdates requester body (keys body) task with
  | None => (Err ValidationError, s)
  | Some task' => let (saved, s') := save now task task' s in (Ok saved, s')
  end.

Definition updateTask (fuel now : nat) (requester : Principal)
  (id : ObjectId) (body : Body) (s : Store)
  : option (Response Todo * Store) :=
  if negb (isValidOperation body) then Some (Err InvalidUpdate, s)
  else
    match fetch requester s id with
    | None => Some (Err NotFound, s)
    | Some task =>
        match parentChecks fuel s task (lookup body "parentTask") with
        | None => None
        | Some (Some e) => Some (Err e, s)
        | Some None => Some (applyAndSave now requester body task s)
        end
    end.

(** ** deleteTask and the cascade hook *)

(** The [owner] entry of a query filter: no such key, the key with the
    value [undefined], or the key with a user id. *)
Inductive OwnerCond :=
| NoOwnerKey
| OwnerUndefined
| OwnerIs (u : ObjectId).

(** [{ ..., owner: query.owner }]: the filter the hook builds from the
    filter [query] of the delete that triggered it. *)
Definition hookOwner (c : OwnerCond) : OwnerCond :=
  match c with
  | OwnerIs u => OwnerIs u
  | NoOwnerKey | OwnerUndefined => OwnerUndefined
  end.

Section Cascade.

(** What the database driver makes of the condition [owner: undefined]
    on a document.  The driver is not part of the repository. *)
Variable undefinedOwnerMatches : Todo -> bool.

Definition ownerMatches (c : OwnerCond) (t : Todo) : bool :=
  match c with
  | NoOwnerKey => true
  | OwnerUndefined => undefinedOwnerMatches t
  | OwnerIs u => owner t =? u
  end.

(** [{ _id: id, owner: ... }] *)
Definition matchesQuery (id : ObjectId) (c : OwnerCond) (t : Todo) : bool :=
  (_id t =? id) && ownerMatches c t.

(** [{ parentTask: id, owner: query.owner }] *)
Definition isChildOf (id : ObjectId) (c : OwnerCond) (t : Todo) : bool :=
  parentEqb (parentTask t) (Some id) && ownerMatches (hookOwner c) t.

(** The store operation under [findOneAndDelete]: the first matching
    document is removed and returned. *)
Fixpoint removeFirst (p : Todo -> bool) (s : Store) : option Todo * Store :=
  match s with
  | [] => (None, [])
  | h :: r =>
      if p h then (Some h, r)
      else let (d, r') := removeFirst p r in (d, h :: r')
  end.

(** [for (const child of childTasks) await ...findOneAndDelete(...)];
    [del] is the recursive delete, the list is the result of the [find]
    made before the loop. *)
Fixpoint forEachChild
  (del : ObjectId -> Store -> option (Store * list ObjectId))
  (childTasks : list Todo) (s : Store)
  : option (Store * list ObjectId) :=
  match childTasks with
  | [] => Some (s, [])
  | child :: rest =>
      match del (_id child) s with
      | None => None
      | Some (s1, log1) =>
          match forEachChild del rest s1 with
          | None => None
          | Some (s2, log2) => Some (s2, log1 ++ log2)
          end
      end
  end.

(** [Todo.findOneAndDelete({ _id: id, owner: c })] with its [pre] hook:
    the hook deletes the children it finds, then the delete itself runs.
    The answer holds the deleted document (if one matched), the store and
    the ids in the order in which they were removed. *)
Fixpoint findOneAndDelete (fuel : nat) (id : ObjectId) (c : OwnerCond)
  (s : Store) : option (option Todo * Store * list ObjectId) :=
  match fuel with
  | 0 => None
  | S fuel' =>
      let childTasks := filter (isChildOf id c) s in
      let del := fun cid s0 =>
        match findOneAndDelete fuel' cid (hookOwner c) s0 with
        | None => None
        | Some (_, s1, log) => Some (s1, log)
        end in
      match forEachChild del childTasks s with
      | None => None
      | Some (s1, log) =>
          match removeFirst (matchesQuery id c) s1 with
          | (Some d, s2) => Some (Some d, s2, log ++ [_id d])
          | (None, s2) => Some (None, s2, log)
          end
      end
  end.

(** [deleteTask]: [findByIdAndDelete(_id)] for an administrator,
    [findOneAndDelete({ _id, owner: requester._id })] otherwise. *)
Definition deleteFilter (requester : Principal) : OwnerCond :=
  if isAdmin requester then NoOwnerKey else OwnerIs (user_id requester).

Definition deleteTask (fuel : nat) (requester : Principal) (id : ObjectId)
  (s : Store) : option (Response Todo * Store * list ObjectId) :=
  match findOneAndDelete fuel id (deleteFilter requester) s with
  | None => None
  | Some (Some task, s', log) => Some (Ok task, s', log)
  | Some (None, s', log) => Some (Err NotFound, s', log)
  end.

End Cascade.

(** ** Teams: the Team model, getTasksForTeam and the team controller *)

(** A document of the [teamSchema], with the two timestamps. *)
Record Team := mkTeam {
  team_id : ObjectId;
  team_name : string;
  team_description : option string;
  members : list ObjectId;
  team_admin : option ObjectId;
  team_createdAt : nat;
  team_updatedAt : nat
}.

Definition Teams := list Team.

(** The refusals of the team handlers:
    - [AdminRequired]      403 'Admin access required ...'
    - [InvalidUserId]      400 'Invalid user ID provided.'
    - [TeamNotFound]       404 (with 'Team not found.' where the source
                               sends a body)
    - [UserNotFound]       404 'User to add not found.'
    - [AlreadyMember]      400 'User is already a member of this team.'
    - [UserNotInTeam]      404 'User is not a member of this team.'
    - [RequesterNotInTeam] 403 'You are not a member of this team.'
    - [TeamNameTaken]      400 'Team name is already in use.'
    - [TeamInvalid]        400 with the validator's message *)
Inductive TeamError :=
| AdminRequired | InvalidUserId | TeamNotFound | UserNotFound
| AlreadyMember | UserNotInTeam | RequesterNotInTeam
| TeamNameTaken | TeamInvalid.

Inductive Reply (A : Type) :=
| Sent (a : A)
| Refused (e : TeamError).
Arguments Sent {A} a.
Arguments Refused {A} e.

(** [Team.findById(id)] *)
Definition findTeamById (teams : Teams) (id : ObjectId) : option Team :=
  find (fun t => team_id t =? id) teams.

(** [team.members.map(id => id.toString()).includes(userId.toString())] *)
Definition isMember (userId : ObjectId) (team : Team) : bool :=
  existsb (Nat.eqb userId) (members team).

(** [{ $or: [{ team: teamId }, { owner: { $in: team.members } }] }] *)
Definition teamTask (teamId : ObjectId) (tm : Team) (t : Todo) : bool :=
  match team t with
  | Some x => x =? teamId
  | None => false
  end
  || isMember (owner t) tm.

(** [getTasksForTeam] *)
Definition getTasksForTeam (teams : Teams) (requester : Principal)
  (teamId : ObjectId) (s : Store) : Reply (list Todo) :=
  match findTeamById teams teamId with
  | None => Refused TeamNotFound
  | Some tm =>
      if negb (isAdmin requester) && negb (isMember (user_id requester) tm)
      then Refused RequesterNotInTeam
      else Sent (sortTasks (filter (teamTask teamId tm) s))
  end.

(** The write of [team.save()]: the first document with that id. *)
Fixpoint replaceTeam (t : Team) (teams : Teams) : Teams :=
  match teams with
  | [] => []
  | h :: r => if team_id h =? team_id t then t :: r else h :: replaceTeam t r
  end.

(** An id as [req.body.userId] submits it, a text: [Hex i] is
    [i.toString()], the 24 hexadecimal digits of the ObjectId [i] in lower
    case; [Cased i] is another text the casters read as [i], such as the
    same digits in upper case. *)
Inductive IdText :=
| Hex (i : ObjectId)
| Cased (i : ObjectId).

(** The ObjectId a caster reads from the text. *)
Definition idOf (u : IdText) : ObjectId :=
  match u with Hex i | Cased i => i end.

(** The text is the string of the stored id [m]: the comparison [==] or
    [===] of the text with [m.toString()]. *)
Definition spells (u : IdText) (m : ObjectId) : bool :=
  match u with
  | Hex i => i =? m
  | Cased _ => false
  end.

(** [team.members.map(id => id.toString()).includes(userId.toString())],
    a comparison of strings. *)
Definition includesText (ms : list ObjectId) (u : IdText) : bool :=
  existsb (spells u) ms.

(** [team.members = ...; await team.save()] *)
Definition withMembers (now : nat) (team : Team) (ms : list ObjectId) : Team :=
  mkTeam (team_id team) (team_name team) (team_description team) ms
         (team_admin team) (team_createdAt team) now.

(** [addTeamMember]; [userId] is [req.body.userId], [None] when it is
    missing or no id at all; [users] are the ids [User.findById] finds.
    [team.members.push(userId)] casts the text. *)
Definition addTeamMember (users : list ObjectId) (now : nat)
  (requester : Principal) (id : ObjectId) (userId : option IdText)
  (teams : Teams) : Reply Team * Teams :=
  if negb (isAdmin requester) then (Refused AdminRequired, teams)
  else
    match userId with
    | None => (Refused InvalidUserId, teams)
    | Some u =>
        match findTeamById teams id with
        | None => (Refused TeamNotFound, teams)
        | Some team =>
            if negb (existsb (Nat.eqb (idOf u)) users)
            then (Refused UserNotFound, teams)
            else if includesText (members team) u
            then (Refused AlreadyMember, teams)
            else
              let team' :=
                withMembers now team (members team ++ [idOf u]) in
              (Sent team', replaceTeam team' teams)
        end
    end.

(** [team.members.indexOf(userId)]: the array compares the text with
    each member by [==], that is with the member's [toString()]. *)
Fixpoint indexOf (u : IdText) (l : list ObjectId) : option nat :=
  match l with
  | [] => None
  | h :: r => if spells u h then Some 0 else option_map S (indexOf u r)
  end.

(** [team.members.splice(memberIndex, 1)] *)
Fixpoint spliceOne (i : nat) (l : list ObjectId) : list ObjectId :=
  match l, i with
  | [], _ => []
  | _ :: r, 0 => r
  | h :: r, S i' => h :: spliceOne i' r
  end.

(** [removeTeamMember]; the user id is read from the body here too. *)
Definition removeTeamMember (now : nat) (requester : Principal)
  (id : ObjectId) (userId : option IdText) (teams : Teams)
  : Reply Team * Teams :=
  if negb (isAdmin requester) then (Refused AdminRequired, teams)
  else
    match userId with
    | None => (Refused InvalidUserId, teams)
    | Some u =>
        match findTeamById teams id with
        | None => (Refused TeamNotFound, teams)
        | Some team =>
            match indexOf u (members team) with
            | None => (Refused UserNotInTeam, teams)
            | Some memberIndex =>
                let team' :=
                  withMembers now team
                    (spliceOne memberIndex (members team)) in
                (Sent team', replaceTeam team' teams)
            end
        end
    end.

(** The store operation under [Team.findByIdAndDelete]. *)
Fixpoint removeTeam (id : ObjectId) (teams : Teams) : option Team * Teams :=
  match teams with
  | [] => (None, [])
  | h :: r =>
      if team_id h =? id then (Some h, r)
      else let (d, r') := removeTeam id r in (d, h :: r')
  end.

(** [deleteTeam] *)
Definition deleteTeam (requester : Principal) (id : ObjectId) (teams : Teams)
  : Reply Team * Teams :=
  if negb (isAdmin requester) then (Refused AdminRequired, teams)
  else
    match removeTeam id teams with
    | (Some team, teams') => (Sent team, teams')
    | (None, teams') => (Refused TeamNotFound, teams')
    end.

(** The fields of a team creation request. *)
Record TeamBody := mkTeamBody {
  tb_name : option string;
  tb_description : option string;
  tb_members : option (list ObjectId);
  tb_admin : option ObjectId
}.

(** [createTeam]: the admin of the new team is the creator, the members
    are the submitted ids for which [User.exists] answers; any duplicate
    key error of the insert is reported as a taken name. *)
Definition createTeam (users : list ObjectId) (newId now : nat)
  (creator : Principal) (body : TeamBody) (teams : Teams)
  : Reply Team * Teams :=
  if negb (isAdmin creator) then (Refused AdminRequired, teams)
  else
    let validMembers :=
      match tb_members body with
      | Some ms => filter (fun m => existsb (Nat.eqb m) users) ms
      | None => []
      end in
    match tb_name body with
    | None => (Refused TeamInvalid, teams)
    | Some n =>
        if String.eqb (trim n) EmptyString then (Refused TeamInvalid, teams)
        else if existsb (fun t => (team_id t =? newId)
                                  || String.eqb (team_name t) (trim n)) teams
        then (Refused TeamNameTaken, teams)
        else
          let team := mkTeam newId (trim n)
                             (option_map trim (tb_description body))
                             validMembers (Some (user_id creator)) now now in
          (Sent team, teams ++ [team])
    end.

(** ** Schedules: the Schedule model and the schedule controller *)

(** A stored block of the [ScheduleBlockSchema]; the [_id] Mongoose gives
    every block is left out. *)
Record ScheduleBlock := mkBlock {
  day : string;
  startTime : string;
  endTime : string;
  activity : string;
  location : option string;
  block_tag : option string
}.

(** A block as submitted: any field may be missing. *)
Record BlockInput := mkBlockInput {
  i_day : option string;
  i_startTime : option string;
  i_endTime : option string;
  i_activity : option string;
  i_location : option string;
  i_tag : option string
}.

Definition days : list string :=
  ["Monday"; "Tuesday"; "Wednesday"; "Thursday"; "Friday"; "Saturday";
   "Sunday"]%string.

(** A path that is [required] and trimmed. *)
Definition requiredText (v : option string) : option string :=
  match v with
  | Some x => if String.eqb (trim x) EmptyString then None else Some (trim x)
  | None => None
  end.

(** The validation of one block: the day is one of the [enum], the three
    required texts are present after trimming. *)
Definition castBlock (b : BlockInput) : option ScheduleBlock :=
  match i_day b, requiredText (i_startTime b), requiredText (i_endTime b),
        requiredText (i_activity b) with
  | Some d, Some st, Some en, Some ac =>
      if includes days d
      then Some (mkBlock d st en ac (option_map trim (i_location b))
                         (option_map trim (i_tag b)))
      else None
  | _, _, _, _ => None
  end.

Fixpoint castBlocks (l : list BlockInput) : option (list ScheduleBlock) :=
  match l with
  | [] => Some []
  | b :: r =>
      match castBlock b, castBlocks r with
      | Some b', Some r' => Some (b' :: r')
      | _, _ => None
      end
  end.

(** A document of the [ScheduleSchema]. *)
Record Schedule := mkSchedule {
  schedule_id : ObjectId;
  user : ObjectId;
  name : string;
  description : option string;
  uploadDate : nat;
  blocks : list ScheduleBlock
}.

Definition Schedules := list Schedule.

(** The refusals of the schedule handlers:
    - [NameRequired]     400 'Schedule name is required'
    - [ScheduleNotFound] 404 'Schedule not found'
    - [NotAuthorized]    401 'Not authorized to ... this schedule'
    - [ScheduleInvalid]  400 with the message of the failed save *)
Inductive ScheduleError :=
| NameRequired | ScheduleNotFound | NotAuthorized | ScheduleInvalid.

Inductive Outcome (A : Type) :=
| Answered (a : A)
| Rejected (e : ScheduleError).
Arguments Answered {A} a.
Arguments Rejected {A} e.

(** [Schedule.findById(id)] *)
Definition findScheduleById (store : Schedules) (id : ObjectId)
  : option Schedule :=
  find (fun x => schedule_id x =? id) store.

(** [.sort({ uploadDate: -1 })] *)
Fixpoint insertSchedule (x : Schedule) (l : Schedules) : Schedules :=
  match l with
  | [] => [x]
  | h :: r =>
      if uploadDate h <=? uploadDate x then x :: l
      else h :: insertSchedule x r
  end.

Definition sortSchedules (l : Schedules) : Schedules :=
  fold_right insertSchedule [] l.

(** [getSchedules] *)
Definition getSchedules (requester : Principal) (store : Schedules)
  : Schedules :=
  sortSchedules (filter (fun x => user x =? user_id requester) store).

(** The fields of a schedule creation request. *)
Record ScheduleBody := mkScheduleBody {
  sb_name : option string;
  sb_description : option string;
  sb_blocks : option (list BlockInput)
}.

(** [createSchedule]: [!name] refuses a missing and an empty name; the
    save validates the trimmed name and every block, and fails on an id
    already in use. *)
Definition createSchedule (newId now : nat) (requester : Principal)
  (body : ScheduleBody) (store : Schedules) : Outcome Schedule * Schedules :=
  match sb_name body with
  | None => (Rejected NameRequired, store)
  | Some n =>
      if String.eqb n EmptyString then (Rejected NameRequired, store)
      else
        match castBlocks (match sb_blocks body with
                          | Some l => l
                          | None => []
                          end) with
        | None => (Rejected ScheduleInvalid, store)
        | Some bs =>
            if String.eqb (trim n) EmptyString
               || existsb (fun x => schedule_id x =? newId) store
            then (Rejected ScheduleInvalid, store)
            else
              let schedule :=
                mkSchedule newId (user_id requester) (trim n)
                           (option_map trim (sb_description body)) now bs in
              (Answered schedule, store ++ [schedule])
        end
  end.

(** The ownership test shared by the handlers that take an id:
    [schedule.user.toString() !== req.user._id.toString()]. *)
Definition ownSchedule (requester : Principal) (store : Schedules)
  (id : ObjectId) : Outcome Schedule :=
  match findScheduleById store id with
  | None => Rejected ScheduleNotFound
  | Some schedule =>
      if user schedule =? user_id requester then Answered schedule
      else Rejected NotAuthorized
  end.

(** [getScheduleById] *)
Definition getScheduleById (requester : Principal) (id : ObjectId)
  (store : Schedules) : Outcome Schedule :=
  ownSchedule requester store id.

(** The write of [schedule.save()]. *)
Fixpoint replaceSchedule (x : Schedule) (store : Schedules) : Schedules :=
  match store with
  | [] => []
  | h :: r =>
      if schedule_id h =? schedule_id x then x :: r
      else h :: replaceSchedule x r
  end.

(** The fields of a schedule update: each is applied when it is not
    [undefined]. *)
Record ScheduleUpdate := mkScheduleUpdate {
  su_name : option string;
  su_description : option string;
  su_blocks : option (list BlockInput)
}.

(** [updateSchedule] *)
Definition updateSchedule (requester : Principal) (id : ObjectId)
  (body : ScheduleUpdate) (store : Schedules) : Outcome Schedule * Schedules :=
  match ownSchedule requester store id with
  | Rejected e => (Rejected e, store)
  | Answered schedule =>
      let newName :=
        match su_name body with
        | Some n => requiredText (Some n)
        | None => Some (name schedule)
        end in
      let newDescription :=
        match su_description body with
        | Some d => Some (trim d)
        | None => description schedule
        end in
      let newBlocks :=
        match su_blocks body with
        | Some l => castBlocks l
        | None => Some (blocks schedule)
        end in
      match newName, newBlocks with
      | Some n, Some bs =>
          let updated :=
            mkSchedule (schedule_id schedule) (user schedule) n
                       newDescription (uploadDate schedule) bs in
          (Answered updated, replaceSchedule updated store)
      | _, _ => (Rejected ScheduleInvalid, store)
      end
  end.

(** The store operation under [Schedule.findByIdAndDelete]. *)
Fixpoint removeSchedule (id : ObjectId) (store : Schedules) : Schedules :=
  match store with
  | [] => []
  | h :: r => if schedule_id h =? id then r else h :: removeSchedule id r
  end.

(** [deleteSchedule]; the answer is the message 'Schedule deleted
    successfully'. *)
Definition deleteSchedule (requester : Principal) (id : ObjectId)
  (store : Schedules) : Outcome unit * Schedules :=
  match ownSchedule requester store id with
  | Rejected e => (Rejected e, store)
  | Answered _ => (Answered tt, removeSchedule id store)
  end.

(** ** Vocabulary of the statements *)

(** The parent pointer of the document [findById] returns for [i]. *)
Definition parentOf (s : Store) (i : ObjectId) : option ObjectId :=
  match findById s i with
  | Some t => parentTask t
  | None => None
  end.

(** One step upward: the task [i] is stored and its parent is [j]. *)
Definition parentStep (s : Store) (i j : ObjectId) : Prop :=
  parentOf s i = Some j.

(** [Ancestor s i j]: following parent pointers from [i] arrives at [j]
    after zero or more steps. *)
Definition Ancestor (s : Store) : ObjectId -> ObjectId -> Prop :=
  clos_refl_trans ObjectId (parentStep s).

(** The parent relation is a forest: no task reaches itself by one or
    more steps upward. *)
Definition Acyclic (s : Store) : Prop :=
  forall i, ~ clos_trans ObjectId (parentStep s) i i.

(** No two documents share an [_id] (the unique index of the collection). *)
Definition UniqueIds (s : Store) : Prop := NoDup (map _id s).

(** The order of a listing: by parent, a missing parent first, then by
    creation time. *)
Definition listOrder (a b : Todo) : Prop :=
  match parentTask a, parentTask b with
  | None, None => createdAt a <= createdAt b
  | None, Some _ => True
  | Some _, None => False
  | Some x, Some y => x < y \/ (x = y /\ createdAt a <= createdAt b)
  end.

(** [Cascaded um h s root t]: the stored document [t] hangs below [root]
    by a chain of parent pointers in which every document, [t] included,
    satisfies the owner condition [h] of the hook. *)
Inductive Cascaded (um : Todo -> bool) (h : OwnerCond) (s : Store)
  (root : ObjectId) : Todo -> Prop :=
| cascaded_child t :
    In t s -> parentTask t = Some root ->
    ownerMatches um h t = true ->
    Cascaded um h s root t
| cascaded_below t u :
    Cascaded um h s root u ->
    In t s -> parentTask t = Some (_id u) ->
    ownerMatches um h t = true ->
    Cascaded um h s root t.

(** [OwnedBelow o s root t]: the stored document [t] hangs below [root]
    by a chain of parent pointers in which every document, [t] included,
    is owned by [o]. *)
Inductive OwnedBelow (o : ObjectId) (s : Store) (root : ObjectId)
  : Todo -> Prop :=
| owned_child t :
    In t s -> parentTask t = Some root -> owner t = o ->
    OwnedBelow o s root t
| owned_below t u :
    OwnedBelow o s root u ->
    In t s -> parentTask t = Some (_id u) -> owner t = o ->
    OwnedBelow o s root t.

(** What [findOneAndDelete({ _id: id, owner: c })] takes out of the store:
    the document matching the filter and what hangs below [id]. *)
Definition Removed (um : Todo -> bool) (c : OwnerCond) (s : Store)
  (id : ObjectId) (t : Todo) : Prop :=
  (_id t = id /\ ownerMatches um c t = true)
  \/ Cascaded um (hookOwner c) s id t.

(** [Before l i j]: in the list [l] an occurrence of [i] precedes an
    occurrence of [j]. *)
Definition Before (l : list ObjectId) (i j : ObjectId) : Prop :=
  exists l1 l2, l = l1 ++ l2 /\ In i l1 /\ In j l2.


(** The number of steps from [i] up to a task without stored parent, when
    at most [fuel] lookups find it. *)
Fixpoint depth (fuel : nat) (s : Store) (i : ObjectId) : option nat :=
  match fuel with
  | 0 => None
  | S fuel' =>
      match parentOf s i with
      | None => Some 0
      | Some p => option_map S (depth fuel' s p)
      end
  end.

Definition forestb (s : Store) : bool :=
  forallb (fun t => match depth (S (List.length s)) s (_id t) with
                    | Some _ => true
                    | None => false
                    end) s.

(** What one delete with its hook does to the store and the log. *)
Definition DelSpec (um : Todo -> bool) (c : OwnerCond) (id : ObjectId) (s s' : Store)
  (log : list ObjectId) : Prop :=
  (forall x, In x s' <-> In x s /\ ~ Removed um c s id x)
  /\ UniqueIds s'
  /\ (forall i, In i log <-> exists x, In x s /\ _id x = i /\ ~ In x s')
  /\ NoDup log.

(** The order of the log: a removed document that satisfies the hook's
    condition comes before its removed parent. *)
Definition OrderSpec (um : Todo -> bool) (h : OwnerCond) (s s' : Store) (log : list ObjectId)
  : Prop :=
  forall x y,
    In x s -> In y s -> ~ In x s' -> ~ In y s' ->
    parentTask x = Some (_id y) -> ownerMatches um h x = true ->
    Before log (_id x) (_id y).

(** [Below s id t]: the stored document [t] reaches [id] by one or more
    steps upward, whoever owns the documents on the way. *)
Definition Below (s : Store) (id : ObjectId) (t : Todo) : Prop :=
  In t s /\ clos_trans ObjectId (parentStep s) (_id t) id.

(** Every parent pointer of the store names a stored task. *)
Definition ParentsExist (s : Store) : Prop :=
  forall t p, In t s -> parentTask t = Some p ->
              exists u, findById s p = Some u.

(** A block as the schema wants it: a day of the week and non-empty
    times and activity. *)
Definition ValidBlock (b : ScheduleBlock) : Prop :=
  In (day b) days /\ startTime b <> EmptyString
  /\ endTime b <> EmptyString /\ activity b <> EmptyString.

(** Every stored schedule has a name and only valid blocks. *)
Definition ValidSchedules (store : Schedules) : Prop :=
  forall x, In x store ->
            name x <> EmptyString /\ forall b, In b (blocks x) -> ValidBlock b.



(** A document with the [updatedAt] a save gives it. *)
Definition stamped (now : nat) (t : Todo) : Todo :=
  mkTodo (_id t) (text t) (completed t) (owner t) (dueDate t) (tag t)
         (team t) (parentTask t) (createdAt t) now.

(** ** Sample data *)

Definition alice : Principal := mkPrincipal 1 User.
Definition root_admin : Principal := mkPrincipal 9 Admin.
Definition bob : Principal := mkPrincipal 2 User.

Definition release_team : Team :=
  mkTeam 50 "Release" None [2] (Some 9) 10 10.

Definition spring_term : Schedule :=
  mkSchedule 70 1 "Spring term" None 300
    [mkBlock "Monday" "09:00" "10:00" "Lecture" None None].

Definition bobs_week : Schedule :=
  mkSchedule 71 2 "Week" None 310 [].

Definition plan_release : Todo :=
  mkTodo 10 "Plan release" false 1 None None None None 100 100.

Definition write_tests : Todo :=
  mkTodo 11 "Write tests" false 1 None None None (Some 10) 110 110.

Definition design_review : Todo :=
  mkTodo 12 "Review the design" false 1 None None None (Some 11) 120 120.

Definition bobs_subtask : Todo :=
  mkTodo 11 "Collect feedback" false 2 None None None (Some 10) 110 110.

(** ** Elementary facts *)

Lemma findById_some s i t : findById s i = Some t -> In t s /\ _id t = i.
Proof.
  unfold findById. intros H. apply find_some in H.
  destruct H as [Hin Heq]. apply Nat.eqb_eq in Heq. auto.
Qed.

Lemma findOneOwned_some s i o t :
  findOneOwned s i o = Some t -> In t s /\ _id t = i /\ owner t = o.
Proof.
  unfold findOneOwned. intros H. apply find_some in H.
  destruct H as [Hin Heq]. apply andb_true_iff in Heq.
  destruct Heq as [H1 H2].
  apply Nat.eqb_eq in H1. apply Nat.eqb_eq in H2. auto.
Qed.

Lemma findOneOwned_findById s i o t :
  findOneOwned s i o = Some t -> exists t', findById s i = Some t'.
Proof.
  unfold findOneOwned, findById. induction s as [|h r IH]; simpl.
  - discriminate.
  - destruct (_id h =? i); simpl.
    + eauto.
    + auto.
Qed.

Lemma fetch_some requester s i t :
  fetch requester s i = Some t -> In t s /\ _id t = i.
Proof.
  unfold fetch. destruct (isAdmin requester); intros H.
  - now apply findById_some.
  - apply findOneOwned_some in H. tauto.
Qed.

Lemma fetch_findById requester s i t :
  fetch requester s i = Some t -> exists t', findById s i = Some t'.
Proof.
  unfold fetch. destruct (isAdmin requester); intros H.
  - eauto.
  - eapply findOneOwned_findById; eauto.
Qed.

Lemma fetch_owned requester s i t :
  isAdmin requester = false ->
  fetch requester s i = Some t -> owner t = user_id requester.
Proof.
  unfold fetch. intros ->. intros H.
  apply findOneOwned_some in H. tauto.
Qed.

Lemma castId_truthy v i : castId v = Some i -> truthy v = true.
Proof. destruct v as [[| | | | |]|]; try discriminate; reflexivity. Qed.

Lemma sameIdString_cast v i id :
  castId v = Some i -> sameIdString v id = true -> i = id.
Proof.
  destruct v as [[| | | | |]|]; try discriminate; simpl; intros H E.
  apply Nat.eqb_eq in E. congruence.
Qed.

(** ** createTask: owner resolution and the parent reference *)

(** C6.  A creator who is not an administrator owns the record created,
    whatever [owner] the payload names: the record answered and persisted
    carries the creator's id. *)
Theorem create_owner_is_creator :
  forall users newId now creator body s task s',
    isAdmin creator = false ->
    createTask users newId now creator body s = (Ok task, s') ->
    owner task = user_id creator /\ s' = s ++ [task].
Proof.
  intros users newId now creator body s task s' Hrole.
  unfold createTask. rewrite Hrole.
  destruct (newTodo newId now body (user_id creator)) as [t|] eqn:Hnew.
  - destruct (existsb _ s); intros H; inversion H; subst.
    split; [|reflexivity].
    unfold newTodo in Hnew. destruct (b_text body); [|discriminate].
    destruct (String.eqb _ _); [discriminate|].
    destruct (negb _); [discriminate|].
    inversion Hnew. reflexivity.
  - discriminate.
Qed.

Lemma create_owner_is_creator_witness :
  exists task s',
    createTask [1; 2] 10 100 alice
      (mkCreateBody (Some "Write tests"%string) None None None None None
                    (Some 2)) [] = (Ok task, s')
    /\ owner task = 1 /\ s' = [task].
Proof.
  eexists. eexists. split; [reflexivity|].
  apply (@create_owner_is_creator [1; 2] 10 100 alice
           (mkCreateBody (Some "Write tests"%string) None None None None None
                         (Some 2)) []).
  - reflexivity.
  - reflexivity.
Defined.

(** C4, as the claim states it, fails: on the empty store a creation
    naming the parent 7 is answered with the record, which is persisted
    with the dangling reference; the body sent shows the parent as
    null. *)
Lemma create_missing_parent_accepted :
  findById [] 7 = None /\
  exists task,
    createTask [1] 10 100 alice
      (mkCreateBody (Some "Orphan"%string) None None None None (Some 7) None)
      [] = (Ok task, [task])
    /\ parentTask task = Some 7
    /\ populatedTask [1] [task] 10 = Some (mkPopulatedTask task (Some 1) None).
Proof.
  split; [reflexivity|]. eexists. repeat split; reflexivity.
Qed.

Lemma findById_app_fresh s t i :
  findById s i = None -> i <> _id t -> findById (s ++ [t]) i = None.
Proof.
  unfold findById. intros Hs Hne. induction s as [|h r IH]; simpl in *.
  - apply Nat.eqb_neq in Hne. rewrite Nat.eqb_sym, Hne. reflexivity.
  - destruct (_id h =? i); [discriminate|auto].
Qed.

Lemma findById_app_new s t :
  existsb (fun x => _id x =? _id t) s = false ->
  findById (s ++ [t]) (_id t) = Some t.
Proof.
  unfold findById. induction s as [|h r IH]; simpl; intros H.
  - now rewrite Nat.eqb_refl.
  - apply orb_false_iff in H. destruct H as [H1 H2]. rewrite H1. auto.
Qed.

(** C4, amended.  createTask never looks the parent up: when the text is
    present and not blank, the due date (if any) is a date, the generated
    id is unused and the owner either is the creator or names a known
    user, the record is persisted with the [parentTask] of the payload,
    whether or not such a task is stored.  The request is answered with
    that record; in the body sent the parent is null when no such task is
    stored. *)
Theorem create_parent_unchecked :
  forall users newId now creator body s p txt,
    b_parentTask body = Some p ->
    b_text body = Some txt ->
    trim txt <> EmptyString ->
    (forall d, b_dueDate body = Some d -> isDate d = true) ->
    existsb (fun t => _id t =? newId) s = false ->
    (isAdmin creator = false \/ b_owner body = None \/
     exists o, b_owner body = Some o /\ In o users) ->
    exists task,
      createTask users newId now creator body s = (Ok task, s ++ [task])
      /\ parentTask task = Some p /\ _id task = newId
      /\ populatedTask users (s ++ [task]) newId
         = Some (populate users (s ++ [task]) task)
      /\ (findById s p = None -> p <> newId ->
          populatedParent (populate users (s ++ [task]) task) = None).
Proof.
  intros users newId now creator body s p txt Hp Htxt Hne Hdate Hfresh Hown.
  unfold createTask.
  assert (Hres : exists o,
    match (if isAdmin creator then b_owner body else None) with
    | Some o => if existsb (Nat.eqb o) users then Ok o else Err InvalidOwner
    | None => Ok (user_id creator)
    end = Ok o).
  { destruct Hown as [H | [H | [o [H Hin]]]].
    - rewrite H. eauto.
    - rewrite H. destruct (isAdmin creator); eauto.
    - rewrite H. destruct (isAdmin creator); eauto.
      assert (existsb (Nat.eqb o) users = true) as ->; eauto.
      apply existsb_exists. exists o. split; auto. apply Nat.eqb_refl. }
  destruct Hres as [o ->].
  unfold newTodo. rewrite Htxt.
  destruct (String.eqb (trim txt) EmptyString) eqn:E.
  { apply String.eqb_eq in E. contradiction. }
  assert (Hd : match b_dueDate body with
               | Some d => isDate d
               | None => true
               end = true).
  { destruct (b_dueDate body) as [d|]; auto. }
  rewrite Hd, Hfresh. cbn [negb].
  eexists. split; [reflexivity|]. cbn [parentTask _id].
  split; [exact Hp|]. split; [reflexivity|]. split.
  - unfold populatedTask.
    match goal with
    | |- context [findById (s ++ [?t]) newId] =>
        assert (Hf : findById (s ++ [t]) newId = Some t)
          by exact (findById_app_new s t Hfresh);
        rewrite Hf
    end.
    reflexivity.
  - intros Hmiss Hself. unfold populate. cbn [populatedParent parentTask].
    rewrite Hp.
    match goal with
    | |- context [findById (s ++ [?t]) p] =>
        assert (Hf : findById (s ++ [t]) p = None)
          by exact (findById_app_fresh s t p Hmiss Hself);
        rewrite Hf
    end.
    reflexivity.
Qed.

Lemma create_parent_unchecked_witness :
  exists task,
    createTask [1] 10 100 alice
      (mkCreateBody (Some "Orphan"%string) None (Some 500) None None (Some 7)
                    None)
      [] = (Ok task, [] ++ [task])
    /\ parentTask task = Some 7 /\ _id task = 10
    /\ populatedTask [1] ([] ++ [task]) 10
       = Some (populate [1] ([] ++ [task]) task)
    /\ (findById [] 7 = None -> 7 <> 10 ->
        populatedParent (populate [1] ([] ++ [task]) task) = None).
Proof.
  apply (create_parent_unchecked [1] 10 100 alice
           (mkCreateBody (Some "Orphan"%string) None (Some 500) None None
                         (Some 7) None) [] 7 "Orphan"%string).
  - reflexivity.
  - reflexivity.
  - discriminate.
  - intros d H. injection H as <-. reflexivity.
  - reflexivity.
  - left. reflexivity.
Defined.

(** ** updateTask: the allow-list and the self-parent check *)

(** C7.  A body with a key outside the allow-list is answered with
    'Invalid updates!' for every requester and id, and the store is the
    one before the request. *)
Theorem update_rejects_unknown_field :
  forall fuel now requester id body s k,
    In k (keys body) ->
    includes allowedUpdates k = false ->
    updateTask fuel now requester id body s = Some (Err InvalidUpdate, s).
Proof.
  intros fuel now requester id body s k Hin Hk.
  unfold updateTask, isValidOperation.
  destruct (forallb (includes allowedUpdates) (keys body)) eqn:E.
  - rewrite forallb_forall in E. rewrite (E k Hin) in Hk. discriminate.
  - reflexivity.
Qed.

Lemma update_rejects_unknown_field_witness :
  updateTask 0 200 root_admin 10
    [("owner", VId 2); ("notAField", VStr "y")]%string [plan_release]
  = Some (Err InvalidUpdate, [plan_release]).
Proof.
  apply (@update_rejects_unknown_field 0 200 root_admin 10
           [("owner", VId 2); ("notAField", VStr "y")]%string
           [plan_release] "notAField"%string).
  - simpl. auto.
  - reflexivity.
Defined.

(** C9, as the claim states it, fails: the task's own id submitted in
    another spelling than that of [toString()] passes the comparison of
    strings and is caught by the walk, which answers with the cycle
    error. *)
Lemma self_parent_in_other_spelling_is_cycle_error :
  castId (Some (VIdCased 10)) = Some (_id plan_release)
  /\ updateTask 0 200 alice 10 [("parentTask", VIdCased 10)]%string
       [plan_release]
     = Some (Err CycleError, [plan_release])
  /\ updateTask 0 200 alice 10 [("parentTask", VIdCased 10)]%string
       [plan_release]
     <> Some (Err SelfParentError, [plan_release]).
Proof.
  split; [reflexivity|]. split; [reflexivity|]. discriminate.
Qed.

(** C9, amended.  For a task the requester may fetch, an allowed body
    whose [parentTask] is the task's own id is always refused and the
    store is the one before the request: with the self-parent error when
    the id is spelt as [toString()] spells it, with the cycle error when
    it is spelt otherwise; no amount of fuel is needed. *)
Theorem update_self_parent_rejected :
  forall fuel now requester id body s task,
    isValidOperation body = true ->
    fetch requester s id = Some task ->
    castId (lookup body "parentTask") = Some id ->
    updateTask fuel now requester id body s
    = Some (Err (if sameIdString (lookup body "parentTask") id
                 then SelfParentError else CycleError), s)
    /\ (lookup body "parentTask" = Some (VId id) ->
        updateTask fuel now requester id body s
        = Some (Err SelfParentError, s)).
Proof.
  intros fuel now requester id body s task Hvalid Hfetch Hpt.
  destruct (fetch_some _ _ _ _ Hfetch) as [_ Hid].
  assert (Hrun : updateTask fuel now requester id body s
                 = Some (Err (if sameIdString (lookup body "parentTask") id
                              then SelfParentError else CycleError), s)).
  { unfold updateTask. rewrite Hvalid, Hfetch. cbn [negb].
    unfold parentChecks. rewrite Hpt, Hid.
    assert (Ht : truthy (lookup body "parentTask") = true).
    { destruct (lookup body "parentTask") as [[| | | | |]|];
        try discriminate; reflexivity. }
    rewrite Ht. cbn [andb].
    destruct (sameIdString (lookup body "parentTask") id); [reflexivity|].
    destruct (fetch_findById _ _ _ _ Hfetch) as [t' Hf]. rewrite Hf.
    destruct (findById_some _ _ _ Hf) as [_ Hid'].
    destruct fuel; simpl; rewrite Hid', Nat.eqb_refl; reflexivity. }
  split; [exact Hrun|].
  intros Hl. rewrite Hrun, Hl. simpl. rewrite Nat.eqb_refl. reflexivity.
Qed.

Lemma update_self_parent_rejected_witness :
  updateTask 0 200 alice 10 [("parentTask", VId 10)]%string [plan_release]
  = Some (Err SelfParentError, [plan_release]).
Proof.
  destruct (update_self_parent_rejected 0 200 alice 10
              [("parentTask", VId 10)]%string [plan_release] plan_release)
    as [_ Hself].
  - reflexivity.
  - reflexivity.
  - reflexivity.
  - apply Hself. reflexivity.
Defined.

(** ** updateTask: what the assignments change *)

Ltac split_key H :=
  match type of H with
  | context [String.eqb ?a ?b] =>
      let E := fresh "E" in destruct (String.eqb a b) eqn:E
  end.

Ltac setField_cases H v :=
  unfold setField in H; cbv zeta in H;
  repeat split_key H; try discriminate H;
  destruct v as [[| | | | |]|]; try discriminate H;
  repeat split_key H; try discriminate H;
  try (match type of H with
       | context [isDate ?d] =>
           let D := fresh "D" in destruct (isDate d) eqn:D
       end; try discriminate H);
  inversion H; subst; clear H; simpl.

Lemma setField_parent task update v task' :
  setField task update v = Some task' ->
  parentTask task' =
    if String.eqb update "parentTask" then castId v else parentTask task.
Proof.
  intros H. destruct (String.eqb update "parentTask") eqn:Ep.
  - apply String.eqb_eq in Ep. subst update. simpl in H.
    destruct v as [[| | | | |]|]; inversion H; reflexivity.
  - unfold setField in H. rewrite Ep in H. setField_cases H v; reflexivity.
Qed.

Lemma setField_owner task update v task' :
  setField task update v = Some task' ->
  String.eqb update "owner" = false ->
  owner task' = owner task.
Proof.
  intros H Eo. unfold setField in H. rewrite Eo in H.
  setField_cases H v; reflexivity.
Qed.

Lemma setField_id task update v task' :
  setField task update v = Some task' -> _id task' = _id task.
Proof.
  intros H. setField_cases H v; reflexivity.
Qed.

Lemma applyUpdates_id requester body updates :
  forall task task',
    applyUpdates requester body updates task = Some task' ->
    _id task' = _id task.
Proof.
  induction updates as [|u rest IH]; simpl; intros task task' H.
  - inversion H. reflexivity.
  - destruct (String.eqb u "owner" && negb (isAdmin requester)).
    + auto.
    + destruct (setField task u (lookup body u)) as [t1|] eqn:E;
        [|discriminate].
      rewrite (IH _ _ H). eapply setField_id; eauto.
Qed.

Lemma applyUpdates_owner requester body updates :
  isAdmin requester = false ->
  forall task task',
    applyUpdates requester body updates task = Some task' ->
    owner task' = owner task.
Proof.
  intros Hrole. induction updates as [|u rest IH]; simpl; intros task task' H.
  - inversion H. reflexivity.
  - rewrite Hrole in H. simpl in H. rewrite andb_true_r in H.
    destruct (String.eqb u "owner") eqn:Eo.
    + auto.
    + destruct (setField task u (lookup body u)) as [t1|] eqn:E;
        [|discriminate].
      rewrite (IH _ _ H). eapply setField_owner; eauto.
Qed.

Lemma includes_cons l u x :
  includes (u :: l) x = String.eqb x u || includes l x.
Proof. reflexivity. Qed.

(** The parent pointer after the assignments: the submitted one when the
    key occurs among the updates, the old one otherwise. *)
Lemma applyUpdates_parent requester body updates :
  forall task task',
    applyUpdates requester body updates task = Some task' ->
    parentTask task' =
      if includes updates "parentTask"
      then castId (lookup body "parentTask")
      else parentTask task.
Proof.
  induction updates as [|u rest IH]; intros task task' H.
  - inversion H. reflexivity.
  - rewrite includes_cons. cbn [applyUpdates] in H.
    destruct (String.eqb u "owner" && negb (isAdmin requester)) eqn:Eskip.
    + apply andb_true_iff in Eskip. destruct Eskip as [Eo _].
      apply String.eqb_eq in Eo. subst u.
      change (String.eqb "parentTask" "owner") with false.
      rewrite orb_false_l. auto.
    + destruct (setField task u (lookup body u)) as [t1|] eqn:E;
        [|discriminate].
      rewrite (IH _ _ H). apply setField_parent in E.
      destruct (includes rest "parentTask") eqn:Er.
      * rewrite orb_true_r. reflexivity.
      * rewrite orb_false_r, E, (String.eqb_sym "parentTask" u).
        destruct (String.eqb u "parentTask") eqn:Eu; [|reflexivity].
        apply String.eqb_eq in Eu. subst u. reflexivity.
Qed.

Lemma lookup_in_keys body key v :
  lookup body key = Some v -> includes (keys body) key = true.
Proof.
  unfold includes. induction body as [|[k w] r IH]; simpl.
  - discriminate.
  - rewrite (String.eqb_sym key k). destruct (String.eqb k key); simpl; auto.
Qed.

Lemma save_fields now old new s saved s' :
  save now old new s = (saved, s') ->
  _id saved = _id new /\ owner saved = owner new /\
  parentTask saved = parentTask new.
Proof.
  unfold save. destruct (Todo_eq_dec old new) as [->|_]; intros H;
    inversion H; subst; simpl; auto.
Qed.




Ltac use_key_tests :=
  repeat match goal with
         | E : String.eqb ?a ?b = _ |- context [String.eqb ?a ?b] =>
             rewrite E
         end.

Ltac use_date_tests :=
  repeat match goal with
         | D : isDate ?n = _ |- context [isDate ?n] => rewrite D
         end.

Lemma setField_again task update v task1 :
  setField task update v = Some task1 ->
  setField task1 update v = Some task1.
Proof.
  intros H. destruct task. setField_cases H v;
    unfold setField; use_key_tests; use_date_tests; reflexivity.
Qed.

Lemma setField_stable task u v u2 v2 task2 :
  setField task u v = Some task ->
  setField task u2 v2 = Some task2 ->
  (u = u2 -> v = v2) ->
  setField task2 u v = Some task2.
Proof.
  intros H1 H2 Hsame.
  destruct (String.eqb u u2) eqn:Euu.
  - apply String.eqb_eq in Euu. subst u2. rewrite <- (Hsame eq_refl) in H2.
    eapply setField_again; eauto.
  - clear Hsame. destruct task.
    unfold setField in H1; cbv zeta in H1;
      repeat split_key H1; try discriminate H1;
      destruct v as [[| | | | |]|]; try discriminate H1;
      repeat split_key H1; try discriminate H1;
      try (match type of H1 with
           | context [isDate ?d] =>
               let D := fresh "D" in destruct (isDate d) eqn:D
           end; try discriminate H1);
      inversion H1; subst; clear H1; simpl in *;
      setField_cases H2 v2;
      unfold setField; use_key_tests; simpl; use_key_tests;
      use_date_tests;
      try reflexivity; try congruence;
      try (exfalso;
           repeat match goal with
                  | E : String.eqb _ _ = true |- _ =>
                      apply String.eqb_eq in E
                  end;
           subst; rewrite String.eqb_refl in Euu; discriminate).
Qed.

Ltac split_goal_keys :=
  repeat match goal with
         | |- context [String.eqb ?a ?b] => destruct (String.eqb a b)
         end.

Lemma setField_stamped now task update v :
  setField (stamped now task) update v
  = option_map (stamped now) (setField task update v).
Proof.
  unfold setField, stamped; cbv zeta.
  split_goal_keys; destruct v as [[| | | | |]|]; split_goal_keys;
    try match goal with
        | |- context [isDate ?d] => destruct (isDate d)
        end;
    reflexivity.
Qed.

Lemma applyUpdates_stamped now requester body updates :
  forall task,
    applyUpdates requester body updates (stamped now task)
    = option_map (stamped now) (applyUpdates requester body updates task).
Proof.
  induction updates as [|u rest IH]; intros task; [reflexivity|].
  cbn [applyUpdates].
  destruct (String.eqb u "owner" && negb (isAdmin requester)); [apply IH|].
  rewrite setField_stamped.
  destruct (setField task u (lookup body u)) as [t1|]; simpl; auto.
Qed.

(** An assignment that already holds keeps holding through the other
    assignments of the same body. *)
Lemma applyUpdates_keeps_fixed requester body u updates :
  forall task task',
    setField task u (lookup body u) = Some task ->
    applyUpdates requester body updates task = Some task' ->
    setField task' u (lookup body u) = Some task'.
Proof.
  induction updates as [|u2 rest IH]; intros task task' Hfix H.
  - inversion H; subst. exact Hfix.
  - cbn [applyUpdates] in H.
    destruct (String.eqb u2 "owner" && negb (isAdmin requester)).
    + eauto.
    + destruct (setField task u2 (lookup body u2)) as [t1|] eqn:E;
        [|discriminate].
      apply (IH t1 task'); [|exact H].
      apply (setField_stable task u (lookup body u) u2 (lookup body u2) t1);
        auto.
      intros ->. reflexivity.
Qed.

Lemma applyUpdates_fixed_point requester body updates :
  forall task task',
    applyUpdates requester body updates task = Some task' ->
    applyUpdates requester body updates task' = Some task'.
Proof.
  induction updates as [|u rest IH]; intros task task' H; [reflexivity|].
  cbn [applyUpdates] in *.
  destruct (String.eqb u "owner" && negb (isAdmin requester)).
  - eauto.
  - destruct (setField task u (lookup body u)) as [t1|] eqn:E;
      [|discriminate].
    rewrite (applyUpdates_keeps_fixed requester body u rest t1 task'
               (setField_again _ _ _ _ E) H).
    eauto.
Qed.










(** C10.  When the submitted [parentTask] is null, absent or otherwise
    falsy, neither the self-parent test nor the walk runs: for a task the
    requester may fetch and an allowed body, the answer is that of the
    assignments and the save for every amount of fuel, zero included, and
    on any store; it is never the self-parent or the cycle error; and with
    the value null the saved record has no parent. *)
Theorem update_falsy_parent_unchecked :
  forall now requester id body s task,
    isValidOperation body = true ->
    fetch requester s id = Some task ->
    truthy (lookup body "parentTask") = false ->
    (forall fuel,
        updateTask fuel now requester id body s
        = Some (applyAndSave now requester body task s))
    /\ (forall e,
          fst (applyAndSave now requester body task s) = Err e ->
          e = ValidationError)
    /\ (lookup body "parentTask" = Some VNull ->
        forall saved s',
          applyAndSave now requester body task s = (Ok saved, s') ->
          parentTask saved = None).
Proof.
  intros now requester id body s task Hvalid Hfetch Hfalsy.
  split; [|split].
  - intros fuel. unfold updateTask, parentChecks.
    rewrite Hvalid, Hfetch, Hfalsy. reflexivity.
  - intros e. unfold applyAndSave.
    destruct (applyUpdates requester body (keys body) task).
    + destruct (save now task t s). discriminate.
    + simpl. intros H. inversion H. reflexivity.
  - intros Hnull saved s'. unfold applyAndSave.
    destruct (applyUpdates requester body (keys body) task) as [task'|] eqn:E;
      [|discriminate].
    destruct (save now task task' s) as [sv s1] eqn:Es.
    intros H. inversion H; subst.
    apply save_fields in Es. destruct Es as [_ [_ Hp]]. rewrite Hp.
    rewrite (applyUpdates_parent _ _ _ _ _ E).
    rewrite (lookup_in_keys _ _ _ Hnull), Hnull. reflexivity.
Qed.

Lemma update_falsy_parent_unchecked_witness :
  updateTask 0 200 alice 11 [("parentTask", VNull)]%string
    [plan_release; write_tests]
  = Some (Ok (mkTodo 11 "Write tests" false 1 None None None None 110 200),
          [plan_release;
           mkTodo 11 "Write tests" false 1 None None None None 110 200]).
Proof.
  destruct (@update_falsy_parent_unchecked 200 alice 11
              [("parentTask", VNull)]%string [plan_release; write_tests]
              write_tests) as [Hrun _].
  - reflexivity.
  - reflexivity.
  - reflexivity.
  - rewrite Hrun. reflexivity.
Defined.

(** ** getTasks: visibility and order *)

Lemma sortLeb_listOrder a b : sortLeb a b = true <-> listOrder a b.
Proof.
  unfold sortLeb, listOrder, parentEqb, parentLeb.
  destruct (parentTask a) as [x|], (parentTask b) as [y|]; simpl.
  - destruct (x =? y) eqn:E.
    + apply Nat.eqb_eq in E. rewrite Nat.leb_le. lia.
    + apply Nat.eqb_neq in E. rewrite Nat.leb_le. lia.
  - split; [discriminate | tauto].
  - tauto.
  - apply Nat.leb_le.
Qed.

Lemma listOrder_total a b : sortLeb a b = false -> listOrder b a.
Proof.
  unfold sortLeb, listOrder, parentEqb, parentLeb.
  destruct (parentTask a) as [x|], (parentTask b) as [y|]; simpl;
    try discriminate; try tauto.
  - destruct (x =? y) eqn:E; intros H; apply Nat.leb_gt in H.
    + apply Nat.eqb_eq in E. lia.
    + apply Nat.eqb_neq in E. lia.
  - intros H. apply Nat.leb_gt in H. lia.
Qed.

Lemma listOrder_trans a b c : listOrder a b -> listOrder b c -> listOrder a c.
Proof.
  unfold listOrder.
  destruct (parentTask a), (parentTask b), (parentTask c); lia.
Qed.

Lemma insertTask_perm t l : Permutation (t :: l) (insertTask t l).
Proof.
  induction l as [|h r IH]; simpl.
  - apply Permutation_refl.
  - destruct (sortLeb t h).
    + apply Permutation_refl.
    + eapply perm_trans; [apply perm_swap|]. now apply perm_skip.
Qed.

Lemma sortTasks_perm l : Permutation l (sortTasks l).
Proof.
  induction l as [|h r IH]; simpl.
  - apply perm_nil.
  - eapply perm_trans; [apply perm_skip, IH | apply insertTask_perm].
Qed.

Lemma insertTask_sorted t l :
  Sorted listOrder l -> Sorted listOrder (insertTask t l).
Proof.
  induction l as [|h r IH]; simpl; intros Hs.
  - constructor; constructor.
  - destruct (sortLeb t h) eqn:E.
    + constructor; [assumption|]. constructor. now apply sortLeb_listOrder.
    + inversion Hs as [|? ? Hr Hhd]; subst.
      constructor; [auto|].
      destruct r as [|h' r']; simpl.
      * constructor. now apply listOrder_total.
      * destruct (sortLeb t h').
        -- constructor. now apply listOrder_total.
        -- constructor. now inversion Hhd.
Qed.

Lemma sortTasks_sorted l : StronglySorted listOrder (sortTasks l).
Proof.
  apply Sorted_StronglySorted.
  - intros a b c. apply listOrder_trans.
  - induction l as [|h r IH]; simpl.
    + constructor.
    + now apply insertTask_sorted.
Qed.

(** C5.  A listing holds, for a requester who is not an administrator,
    exactly the stored records whose owner is the requester and, for an
    administrator, exactly the stored records; in both cases every record
    precedes all the records after it in the order by parent (missing
    parent first), then creation time. *)
Theorem list_visibility_and_order :
  forall requester s,
    (isAdmin requester = false ->
     Permutation (filter (fun t => owner t =? user_id requester) s)
                 (getTasks requester s))
    /\ (isAdmin requester = true -> Permutation s (getTasks requester s))
    /\ StronglySorted listOrder (getTasks requester s).
Proof.
  intros requester s. unfold getTasks.
  destruct (isAdmin requester); repeat split;
    try discriminate; intros; auto using sortTasks_perm, sortTasks_sorted.
Qed.

(** ** The upward walk *)

Lemma cycleWalk_mono s taskId :
  forall fuel current b,
    cycleWalk fuel s taskId current = Some b ->
    forall fuel', fuel <= fuel' ->
    cycleWalk fuel' s taskId current = Some b.
Proof.
  induction fuel as [|f IH]; intros current b H fuel' Hle.
  - destruct current as [c|]; simpl in *.
    + destruct fuel'; simpl; destruct (_id c =? taskId);
        try discriminate; auto.
    + destruct fuel'; auto.
  - destruct fuel' as [|f']; [lia|].
    destruct current as [c|]; simpl in *; auto.
    destruct (_id c =? taskId); auto.
    apply (IH _ _ H). lia.
Qed.

Lemma parentStep_inv s i j :
  parentStep s i j ->
  exists c, findById s i = Some c /\ _id c = i /\
            parentDoc s c = findById s j.
Proof.
  unfold parentStep, parentOf, parentDoc.
  destruct (findById s i) as [c|] eqn:E; [|discriminate].
  intros H. exists c. rewrite H.
  destruct (findById_some _ _ _ E). auto.
Qed.

(** When the chain above [P] contains the stored task [T], the loop ends
    with the cycle answer. *)
Lemma cycleWalk_hits s T P :
  Ancestor s P T ->
  (exists t, findById s T = Some t) ->
  exists n, forall fuel, n <= fuel ->
    cycleWalk fuel s T (findById s P) = Some true.
Proof.
  intros Hanc [t Ht]. unfold Ancestor in Hanc.
  apply clos_rt_rt1n in Hanc.
  induction Hanc as [x | x y z Hxy Hyz IH].
  - exists 0. intros fuel _. rewrite Ht.
    destruct (findById_some _ _ _ Ht) as [_ Hid].
    destruct fuel; simpl; rewrite Hid, Nat.eqb_refl; reflexivity.
  - destruct (IH Ht) as [n Hn]. exists (S n). intros fuel Hle.
    destruct (parentStep_inv _ _ _ Hxy) as [c [Hc [Hid Hnext]]].
    rewrite Hc. destruct fuel as [|f]; [lia|]. simpl.
    destruct (_id c =? z); [reflexivity|].
    rewrite Hnext. apply Hn. lia.
Qed.

(** When the chain above [P] ends at a task without a stored parent and
    does not contain [T], the loop falls through. *)
Lemma cycleWalk_passes s T P r :
  Ancestor s P r ->
  parentOf s r = None ->
  ~ Ancestor s P T ->
  exists n, forall fuel, n <= fuel ->
    cycleWalk fuel s T (findById s P) = Some false.
Proof.
  intros Hanc. unfold Ancestor in Hanc. apply clos_rt_rt1n in Hanc.
  induction Hanc as [x | x y z Hxy Hyz IH]; intros Hroot Hnot.
  - exists 1. intros fuel Hle. destruct fuel as [|f]; [lia|].
    destruct (findById s x) as [c|] eqn:Hc; [|reflexivity].
    destruct (findById_some _ _ _ Hc) as [_ Hid]. simpl.
    destruct (_id c =? T) eqn:E.
    + apply Nat.eqb_eq in E. exfalso. apply Hnot.
      rewrite <- E, Hid. apply rt_refl.
    + unfold parentOf in Hroot. rewrite Hc in Hroot.
      unfold parentDoc. rewrite Hroot. destruct f; reflexivity.
  - destruct IH as [n Hn]; auto.
    { intros H. apply Hnot. eapply rt_trans; [apply rt_step; eauto | exact H]. }
    exists (S n). intros fuel Hle.
    destruct (parentStep_inv _ _ _ Hxy) as [c [Hc [Hid Hnext]]].
    rewrite Hc. destruct fuel as [|f]; [lia|]. simpl.
    destruct (_id c =? T) eqn:E.
    + apply Nat.eqb_eq in E. exfalso. apply Hnot.
      rewrite <- E, Hid. apply rt_refl.
    + rewrite Hnext. apply Hn. lia.
Qed.

(** A walk that fell through did not meet the stored task [T]. *)
Lemma cycleWalk_false_not_ancestor s T P fuel :
  cycleWalk fuel s T (findById s P) = Some false ->
  (exists t, findById s T = Some t) ->
  ~ Ancestor s P T.
Proof.
  intros Hwalk Hex Hanc.
  destruct (cycleWalk_hits _ _ _ Hanc Hex) as [n Hn].
  pose proof (Hn (n + fuel) ltac:(lia)) as H1.
  pose proof (@cycleWalk_mono _ _ _ _ _ Hwalk (n + fuel) ltac:(lia)) as H2.
  congruence.
Qed.

(** On a forest the documents the loop has been through are pairwise
    distinct, so there are at most as many as the store holds. *)
Lemma cycleWalk_bounded s taskId :
  Acyclic s ->
  forall fuel visited current,
    NoDup visited ->
    incl visited (map _id s) ->
    (forall c, current = Some c ->
       findById s (_id c) = Some c /\
       forall v, In v visited ->
                 clos_trans ObjectId (parentStep s) v (_id c)) ->
    List.length s <= List.length visited + fuel ->
    exists b, cycleWalk fuel s taskId current = Some b.
Proof.
  intros Hacyc.
  induction fuel as [|f IH]; intros visited current Hnd Hincl Hcur Hlen.
  - destruct current as [c|]; simpl; [|eauto].
    destruct (_id c =? taskId); [eauto|]. exfalso.
    destruct (Hcur c eq_refl) as [Hc Hreach].
    assert (Hnd' : NoDup (_id c :: visited)).
    { constructor; [|assumption]. intros Hin. exact (Hacyc _ (Hreach _ Hin)). }
    assert (Hincl' : incl (_id c :: visited) (map _id s)).
    { intros x [<-|Hx]; [|auto]. apply in_map.
      apply (findById_some _ _ _ Hc). }
    pose proof (NoDup_incl_length Hnd' Hincl') as Hbound.
    simpl in Hbound. rewrite length_map in Hbound. lia.
  - destruct current as [c|]; simpl; [|eauto].
    destruct (_id c =? taskId); [eauto|].
    destruct (Hcur c eq_refl) as [Hc Hreach].
    apply (IH (_id c :: visited)).
    + constructor; [|assumption].
      intros Hin. exact (Hacyc _ (Hreach _ Hin)).
    + intros x [<-|Hx]; [|auto]. apply in_map.
      apply (findById_some _ _ _ Hc).
    + intros c' Hc'. unfold parentDoc in Hc'.
      destruct (parentTask c) as [p|] eqn:Hp; [|discriminate].
      destruct (findById_some _ _ _ Hc') as [_ Hid'].
      assert (Hstep : parentStep s (_id c) (_id c')).
      { unfold parentStep, parentOf. rewrite Hc, Hp, Hid'. reflexivity. }
      split.
      * rewrite Hid'. exact Hc'.
      * intros v [<-|Hv].
        -- now apply t_step.
        -- eapply t_trans; [apply Hreach; exact Hv | now apply t_step].
    + simpl. lia.
Qed.

Lemma cycleWalk_terminates s taskId P fuel :
  Acyclic s ->
  List.length s <= fuel ->
  exists b, cycleWalk fuel s taskId (findById s P) = Some b.
Proof.
  intros Hacyc Hlen.
  apply (cycleWalk_bounded s taskId Hacyc fuel [] (findById s P)).
  - constructor.
  - intros x [].
  - intros c Hc. destruct (findById_some _ _ _ Hc) as [_ Hid].
    split; [rewrite Hid; exact Hc | intros v []].
  - simpl. exact Hlen.
Qed.

Lemma parentStep_functional s i j k :
  parentStep s i j -> parentStep s i k -> j = k.
Proof. unfold parentStep. congruence. Qed.

Lemma first_step s i j :
  clos_trans ObjectId (parentStep s) i j ->
  exists k, parentStep s i k /\ Ancestor s k j.
Proof.
  intros H. apply clos_trans_t1n in H.
  inversion H as [y Hy | y z Hy Hrest]; subst.
  - exists j. split; [exact Hy | apply rt_refl].
  - exists y. split; [exact Hy|].
    apply clos_t1n_trans in Hrest. now apply clos_t_clos_rt.
Qed.

Lemma path_then_step s a b c :
  Ancestor s a b -> parentStep s b c ->
  clos_trans ObjectId (parentStep s) a c.
Proof.
  intros Hab Hbc. unfold Ancestor in Hab. apply clos_rt_rt1n in Hab.
  induction Hab as [x | x y z Hxy _ IH].
  - now apply t_step.
  - eapply t_trans; [apply t_step; exact Hxy | now apply IH].
Qed.

(** What a task on a cycle reaches lies on a cycle. *)
Lemma cycle_closed s a b :
  clos_trans ObjectId (parentStep s) a a ->
  Ancestor s a b ->
  clos_trans ObjectId (parentStep s) b b.
Proof.
  intros Ha Hab. unfold Ancestor in Hab. apply clos_rt_rtn1 in Hab.
  induction Hab as [|y z Hyz _ IH]; [exact Ha|].
  destruct (first_step s y y IH) as [k [Hyk Hky]].
  rewrite (parentStep_functional s y z k Hyz Hyk).
  eapply path_then_step; eauto.
Qed.

(** Two tasks above the same task lie on one chain. *)
Lemma chain_linear s x a b :
  Ancestor s x b -> Ancestor s x a -> Ancestor s b a \/ Ancestor s a b.
Proof.
  intros Hb. unfold Ancestor in Hb. apply clos_rt_rt1n in Hb.
  induction Hb as [x | x y z Hxy Hyz IH]; intros Ha.
  - now left.
  - unfold Ancestor in Ha. apply clos_rt_rt1n in Ha.
    inversion Ha as [|y' ? Hxy' Hrest]; subst.
    + right. eapply rt_trans; [apply rt_step; exact Hxy|].
      now apply clos_rt1n_rt.
    + rewrite <- (parentStep_functional s x y y' Hxy Hxy') in Hrest.
      apply IH. now apply clos_rt1n_rt.
Qed.

Lemma above_cycle_has_parent s P a b :
  Ancestor s P a ->
  clos_trans ObjectId (parentStep s) a a ->
  Ancestor s P b ->
  exists c, parentStep s b c.
Proof.
  intros HPa Ha HPb.
  destruct (chain_linear s P a b HPb HPa) as [Hba | Hab].
  - unfold Ancestor in Hba. apply clos_rt_rt1n in Hba.
    inversion Hba as [|y ? Hby _]; subst.
    + destruct (first_step s a a Ha) as [k [Hk _]]. eauto.
    + eauto.
  - destruct (first_step s b b (cycle_closed s a b Ha Hab)) as [k [Hk _]].
    eauto.
Qed.

(** When the chain above [P] runs into a cycle without meeting [T], no
    number of iterations ends the loop. *)
Lemma cycleWalk_diverges s T P a :
  Ancestor s P a ->
  clos_trans ObjectId (parentStep s) a a ->
  ~ Ancestor s P T ->
  forall fuel b,
    Ancestor s P b -> cycleWalk fuel s T (findById s b) = None.
Proof.
  intros HPa Ha Hnot.
  induction fuel as [|f IH]; intros b HPb;
    destruct (above_cycle_has_parent s P a b HPa Ha HPb) as [c Hbc];
    destruct (parentStep_inv _ _ _ Hbc) as [cb [Hcb [Hid Hnext]]];
    rewrite Hcb; simpl;
    (destruct (_id cb =? T) eqn:E;
     [apply Nat.eqb_eq in E; exfalso; apply Hnot; congruence|]).
  - reflexivity.
  - rewrite Hnext. apply IH.
    eapply rt_trans; [exact HPb | apply rt_step; exact Hbc].
Qed.

(** C3, as the claim states it, fails: with the tasks 20 and 21 stored as
    each other's parent, the update giving task 10 the parent 20 is not
    answered for any number of iterations of the loop. *)
Lemma walk_never_ends_on_foreign_cycle :
  ~ exists fuel r,
      updateTask fuel 200 root_admin 10 [("parentTask", VId 20)]%string
        [plan_release;
         mkTodo 20 "Left" false 1 None None None (Some 21) 120 120;
         mkTodo 21 "Right" false 1 None None None (Some 20) 121 121]
      = Some r.
Proof.
  intros [fuel [r H]].
  unfold updateTask in H. simpl in H.
  unfold parentChecks in H. simpl in H.
  remember [plan_release;
            mkTodo 20 "Left" false 1 None None None (Some 21) 120 120;
            mkTodo 21 "Right" false 1 None None None (Some 20) 121 121]
    as s eqn:Hs.
  assert (Hloop : forall n,
    cycleWalk n s 10
      (Some (mkTodo 20 "Left" false 1 None None None (Some 21) 120 120))
    = None /\
    cycleWalk n s 10
      (Some (mkTodo 21 "Right" false 1 None None None (Some 20) 121 121))
    = None).
  { induction n as [|n [IH1 IH2]].
    - split; reflexivity.
    - split; simpl; unfold parentDoc; simpl; subst s; simpl.
      + exact IH2.
      + exact IH1. }
  destruct (Hloop fuel) as [H1 _]. rewrite H1 in H. discriminate.
Qed.

(** C3, amended.  The loop of updateTask carries no bound.  On a store
    whose parent relation is a forest it ends within as many iterations as
    the store has records, so every update is answered.  When the chain
    above the proposed parent runs into a cycle that does not contain the
    edited task, the update is not answered for any number of
    iterations. *)
Theorem update_walk_terminates_on_forest :
  forall s now requester id body,
    (Acyclic s ->
     forall fuel, List.length s <= fuel ->
                  exists r, updateTask fuel now requester id body s = Some r)
    /\ (forall task P a,
          isValidOperation body = true ->
          fetch requester s id = Some task ->
          castId (lookup body "parentTask") = Some P ->
          Ancestor s P a ->
          clos_trans ObjectId (parentStep s) a a ->
          ~ Ancestor s P id ->
          forall fuel, updateTask fuel now requester id body s = None).
Proof.
  intros s now requester id body. split.
  - intros Hacyc fuel Hlen. unfold updateTask.
    destruct (negb (isValidOperation body)); [eauto|].
    destruct (fetch requester s id) as [task|]; [|eauto].
    unfold parentChecks.
    destruct (truthy (lookup body "parentTask")
              && sameIdString (lookup body "parentTask") (_id task));
      [eauto|].
    destruct (truthy (lookup body "parentTask")); [|eauto].
    destruct (castId (lookup body "parentTask")) as [P|]; eauto.
    destruct (cycleWalk_terminates s (_id task) P fuel Hacyc Hlen) as [b Hb].
    rewrite Hb. destruct b; eauto.
  - intros task P a Hvalid Hfetch Hl HPa Ha Hnot fuel.
    destruct (fetch_some _ _ _ _ Hfetch) as [_ Hid].
    unfold updateTask, parentChecks.
    rewrite Hvalid, Hfetch, Hl, (castId_truthy _ _ Hl). cbn [negb andb].
    destruct (sameIdString (lookup body "parentTask") (_id task)) eqn:E.
    + apply (sameIdString_cast _ _ _ Hl) in E. exfalso. apply Hnot.
      rewrite E, Hid. apply rt_refl.
    + rewrite Hid.
      rewrite (cycleWalk_diverges s id P a HPa Ha Hnot fuel P (rt_refl _ _ _)).
      reflexivity.
Qed.

(** ** Checking that a store is a forest *)

Lemma depth_mono s :
  forall fuel i n, depth fuel s i = Some n -> depth (S fuel) s i = Some n.
Proof.
  induction fuel as [|f IH]; intros i n H; [discriminate|].
  cbn [depth] in *. destruct (parentOf s i) as [p|]; [|exact H].
  destruct (depth f s p) as [m|] eqn:E; [|discriminate].
  rewrite (@IH _ _ E). exact H.
Qed.

Lemma ranked_acyclic s (rank : ObjectId -> nat) :
  (forall i j, parentStep s i j -> rank j < rank i) -> Acyclic s.
Proof.
  intros Hrank i Hloop.
  assert (H : forall a b, clos_trans ObjectId (parentStep s) a b ->
                          rank b < rank a).
  { intros a b Hab. induction Hab as [a b Hab | a b c _ IH1 _ IH2].
    - auto.
    - lia. }
  specialize (H _ _ Hloop). lia.
Qed.

Lemma forestb_sound s : forestb s = true -> Acyclic s.
Proof.
  intros Hb.
  apply (@ranked_acyclic s
           (fun i => match depth (S (List.length s)) s i with
                     | Some n => n
                     | None => 0
                     end)).
  intros i j Hstep.
  destruct (parentStep_inv _ _ _ Hstep) as [c [Hc [Hid _]]].
  unfold forestb in Hb. rewrite forallb_forall in Hb.
  specialize (Hb c (proj1 (findById_some _ _ _ Hc))). rewrite Hid in Hb.
  destruct (depth (S (List.length s)) s i) as [n|] eqn:Hd; [|discriminate].
  cbn [depth] in Hd. unfold parentStep in Hstep. rewrite Hstep in Hd.
  destruct (depth (List.length s) s j) as [m|] eqn:Hj; [|discriminate].
  rewrite (@depth_mono _ _ _ _ Hj). inversion Hd. lia.
Qed.

Lemma update_walk_terminates_on_forest_witness :
  exists r,
    updateTask 2 200 alice 10 [("parentTask", VId 11)]%string
      [plan_release; write_tests] = Some r.
Proof.
  destruct (update_walk_terminates_on_forest [plan_release; write_tests]
              200 alice 10 [("parentTask", VId 11)]%string) as [Hends _].
  apply Hends.
  - apply forestb_sound. reflexivity.
  - simpl. lia.
Defined.

(** ** Updates keep the forest *)

Lemma findById_unique s t :
  UniqueIds s -> In t s -> findById s (_id t) = Some t.
Proof.
  unfold UniqueIds, findById.
  induction s as [|h r IH]; simpl; intros Hnd Hin; [contradiction|].
  inversion Hnd as [|? ? Hnotin Hnd']; subst.
  destruct Hin as [->|Hin].
  - rewrite Nat.eqb_refl. reflexivity.
  - destruct (_id h =? _id t) eqn:E.
    + apply Nat.eqb_eq in E. exfalso. apply Hnotin.
      rewrite E. now apply in_map.
    + auto.
Qed.

Lemma fetch_findById_unique requester s id task :
  UniqueIds s -> fetch requester s id = Some task ->
  findById s id = Some task.
Proof.
  intros Hu Hf. destruct (fetch_some _ _ _ _ Hf) as [Hin Hid].
  rewrite <- Hid. now apply findById_unique.
Qed.

Lemma findById_replaceDoc t s i :
  findById (replaceDoc t s) i =
    if i =? _id t
    then match findById s i with Some _ => Some t | None => None end
    else findById s i.
Proof.
  unfold findById. induction s as [|h r IH]; simpl.
  - destruct (i =? _id t); reflexivity.
  - destruct (_id h =? _id t) eqn:Eh; simpl.
    + apply Nat.eqb_eq in Eh. rewrite Eh.
      rewrite (Nat.eqb_sym i (_id t)).
      destruct (_id t =? i); reflexivity.
    + destruct (_id h =? i) eqn:Ei.
      * apply Nat.eqb_eq in Ei. subst i. rewrite Eh. reflexivity.
      * exact IH.
Qed.

Lemma replaceDoc_ids t s : map _id (replaceDoc t s) = map _id s.
Proof.
  induction s as [|h r IH]; simpl; [reflexivity|].
  destruct (_id h =? _id t) eqn:E; simpl.
  - apply Nat.eqb_eq in E. now rewrite E.
  - now rewrite IH.
Qed.

(** The parent pointers after a save: only the saved task's may differ. *)
Lemma save_parentOf now task task' s saved s' :
  save now task task' s = (saved, s') ->
  findById s (_id task) = Some task ->
  _id task' = _id task ->
  forall i,
    parentOf s' i = if i =? _id task then parentTask task' else parentOf s i.
Proof.
  unfold save. intros Hsave Hfind Hid i.
  destruct (Todo_eq_dec task task') as [Heq|_];
    injection Hsave as Hsaved Hs'; subst s'; clear Hsaved.
  - rewrite <- Heq. destruct (i =? _id task) eqn:E; [|reflexivity].
    apply Nat.eqb_eq in E. subst i. unfold parentOf. now rewrite Hfind.
  - unfold parentOf. rewrite findById_replaceDoc. simpl. rewrite Hid.
    destruct (i =? _id task) eqn:E; [|reflexivity].
    apply Nat.eqb_eq in E. subst i. now rewrite Hfind.
Qed.

Lemma acyclic_subrelation s s' :
  (forall i j, parentStep s' i j -> parentStep s i j) ->
  Acyclic s -> Acyclic s'.
Proof.
  intros Hsub Hacyc i Hloop. apply (Hacyc i).
  assert (H : forall a b, clos_trans ObjectId (parentStep s') a b ->
                          clos_trans ObjectId (parentStep s) a b).
  { intros a b Hab. induction Hab as [a b Hab | a b c _ IH1 _ IH2].
    - apply t_step. auto.
    - exact (t_trans _ _ _ _ _ IH1 IH2). }
  auto.
Qed.

Lemma step_then_path s a b c :
  parentStep s a b -> Ancestor s b c ->
  clos_trans ObjectId (parentStep s) a c.
Proof.
  intros Hab Hbc. unfold Ancestor in Hbc. apply clos_rt_rtn1 in Hbc.
  induction Hbc as [|y z Hyz _ IH].
  - now apply t_step.
  - eapply t_trans; [exact IH | now apply t_step].
Qed.

(** A path of the store with one more edge [T -> P] either is a path of
    the old store or runs through the new edge. *)
Lemma path_through_new_edge s s' T P :
  (forall i j, parentStep s' i j -> parentStep s i j \/ (i = T /\ j = P)) ->
  forall a b,
    Ancestor s' a b ->
    Ancestor s a b \/ (Ancestor s a T /\ Ancestor s' P b).
Proof.
  intros Hedge a b Hab. unfold Ancestor in *.
  apply clos_rt_rt1n in Hab.
  induction Hab as [x | x y z Hxy Hyz IH].
  - left. apply rt_refl.
  - apply clos_rt1n_rt in Hyz.
    destruct (Hedge _ _ Hxy) as [Hold | [-> ->]].
    + destruct IH as [IH | [IH1 IH2]].
      * left. eapply rt_trans; [apply rt_step; eauto | exact IH].
      * right. split; [|exact IH2].
        eapply rt_trans; [apply rt_step; eauto | exact IH1].
    + right. split; [apply rt_refl | exact Hyz].
Qed.

Lemma acyclic_new_edge s s' T P :
  (forall i j, parentStep s' i j -> parentStep s i j \/ (i = T /\ j = P)) ->
  ~ Ancestor s P T ->
  Acyclic s -> Acyclic s'.
Proof.
  intros Hedge Hnot Hacyc i Hloop.
  assert (Hfrom : forall a b, Ancestor s' a b ->
                              Ancestor s a b \/ Ancestor s a T).
  { intros a b Hab.
    destruct (path_through_new_edge _ _ _ _ Hedge _ _ Hab) as [H | [H _]]; auto. }
  assert (HP : forall b, Ancestor s' P b -> Ancestor s P b).
  { intros b Hb. destruct (path_through_new_edge _ _ _ _ Hedge _ _ Hb) as [H | [H _]];
      [exact H | contradiction]. }
  apply clos_trans_t1n in Hloop.
  assert (Hfirst : exists k, parentStep s' i k /\ Ancestor s' k i).
  { inversion Hloop as [y Hy | y z Hy Hrest]; subst.
    - exists i. split; [exact Hy | apply rt_refl].
    - exists y. split; [exact Hy|].
      apply clos_t1n_trans in Hrest. now apply clos_t_clos_rt. }
  destruct Hfirst as [k [Hik Hki]].
  destruct (Hedge _ _ Hik) as [Hold | [-> ->]].
  - destruct (path_through_new_edge _ _ _ _ Hedge _ _ Hki) as [H | [H1 H2]].
    + apply (Hacyc i). eapply step_then_path; eauto.
    + apply Hnot. apply HP in H2.
      eapply rt_trans; [exact H2|].
      eapply rt_trans; [apply rt_step; exact Hold | exact H1].
  - apply Hnot. now apply HP.
Qed.

Lemma parentChecks_passed fuel s task pt P :
  castId pt = Some P ->
  parentChecks fuel s task pt = Some None ->
  cycleWalk fuel s (_id task) (findById s P) = Some false.
Proof.
  unfold parentChecks. intros Hc. rewrite Hc, (castId_truthy _ _ Hc).
  cbn [andb]. destruct (sameIdString pt (_id task)); [discriminate|].
  destruct (cycleWalk fuel s (_id task) (findById s P)) as [[|]|];
    try discriminate.
  auto.
Qed.

Lemma castId_in_keys body key i :
  castId (lookup body key) = Some i -> includes (keys body) key = true.
Proof.
  destruct (lookup body key) as [v|] eqn:E; [|discriminate].
  intros _. exact (lookup_in_keys _ _ _ E).
Qed.

(** Every update that is answered with a record leaves a forest a
    forest. *)
Lemma update_preserves_forest fuel now requester id body s saved s' :
  UniqueIds s -> Acyclic s ->
  updateTask fuel now requester id body s = Some (Ok saved, s') ->
  Acyclic s'.
Proof.
  intros Hu Hacyc. unfold updateTask.
  destruct (negb (isValidOperation body)); [discriminate|].
  destruct (fetch requester s id) as [task|] eqn:Hfetch; [|discriminate].
  destruct (parentChecks fuel s task (lookup body "parentTask"))
    as [[e|]|] eqn:Hchecks; try discriminate.
  unfold applyAndSave.
  destruct (applyUpdates requester body (keys body) task) as [task'|] eqn:Ha;
    [|discriminate].
  destruct (save now task task' s) as [sv s1] eqn:Hsave.
  intros H. inversion H; subst sv s1. clear H.
  pose proof (fetch_findById_unique _ _ _ _ Hu Hfetch) as Hfind.
  destruct (fetch_some _ _ _ _ Hfetch) as [_ Hid].
  rewrite <- Hid in Hfind.
  pose proof (applyUpdates_id _ _ _ _ _ Ha) as Hid'.
  pose proof (save_parentOf _ _ _ _ _ _ Hsave Hfind Hid') as Hpar.
  pose proof (applyUpdates_parent _ _ _ _ _ Ha) as Hnew.
  destruct (castId (lookup body "parentTask")) as [P|] eqn:Hl.
  1: {
    rewrite (castId_in_keys _ _ _ Hl) in Hnew.
    pose proof (parentChecks_passed _ _ _ _ _ Hl Hchecks) as Hwalk.
    apply (@acyclic_new_edge s s' (_id task) P); auto.
    - intros i j Hij. unfold parentStep in *. rewrite Hpar in Hij.
      destruct (i =? _id task) eqn:E; [|auto].
      apply Nat.eqb_eq in E. right. split; [exact E | congruence].
    - eapply cycleWalk_false_not_ancestor; eauto. }
  all: apply (@acyclic_subrelation s s'); auto;
    intros i j Hij; unfold parentStep in *; rewrite Hpar in Hij;
    destruct (i =? _id task) eqn:E; auto;
    apply Nat.eqb_eq in E; subst i;
    destruct (includes (keys body) "parentTask");
    try congruence;
    unfold parentOf; rewrite Hfind; congruence.
Qed.

Lemma update_preserves_unique_ids fuel now requester id body s saved s' :
  UniqueIds s ->
  updateTask fuel now requester id body s = Some (Ok saved, s') ->
  UniqueIds s'.
Proof.
  intros Hu. unfold updateTask.
  destruct (negb (isValidOperation body)); [discriminate|].
  destruct (fetch requester s id) as [task|]; [|discriminate].
  destruct (parentChecks fuel s task (lookup body "parentTask"))
    as [[e|]|]; try discriminate.
  unfold applyAndSave.
  destruct (applyUpdates requester body (keys body) task) as [task'|];
    [|discriminate].
  unfold save. destruct (Todo_eq_dec task task'); intros H; inversion H; subst.
  - exact Hu.
  - unfold UniqueIds. now rewrite replaceDoc_ids.
Qed.

(** C2.  Every answered update keeps the ids unique and the parent
    relation a forest.  For a task the requester may fetch and a proposed
    parent [P] other than the task itself, the update is answered with the
    cycle error when the chain of parent pointers above [P] contains the
    task; when that chain ends at a task without a stored parent and does
    not contain the task, the walk falls through and the answer is that of
    the assignments and the save, whose record has the parent [P]. *)
Theorem update_cycle_guard :
  forall now requester id body s,
    (forall fuel saved s',
        UniqueIds s -> Acyclic s ->
        updateTask fuel now requester id body s = Some (Ok saved, s') ->
        UniqueIds s' /\ Acyclic s')
    /\ (forall task P,
          isValidOperation body = true ->
          fetch requester s id = Some task ->
          castId (lookup body "parentTask") = Some P ->
          P <> id ->
          (Ancestor s P id ->
           exists n, forall fuel, n <= fuel ->
             updateTask fuel now requester id body s
             = Some (Err CycleError, s))
          /\ (forall r,
                Ancestor s P r -> parentOf s r = None ->
                ~ Ancestor s P id ->
                (exists n, forall fuel, n <= fuel ->
                   updateTask fuel now requester id body s
                   = Some (applyAndSave now requester body task s))
                /\ (forall saved s',
                      applyAndSave now requester body task s = (Ok saved, s')
                      -> parentTask saved = Some P))).
Proof.
  intros now requester id body s. split.
  - intros fuel saved s' Hu Hacyc H. split.
    + eapply update_preserves_unique_ids; eauto.
    + eapply update_preserves_forest; eauto.
  - intros task P Hvalid Hfetch Hl Hneq.
    destruct (fetch_some _ _ _ _ Hfetch) as [_ Hid].
    assert (Hself : sameIdString (lookup body "parentTask") (_id task)
                    = false).
    { destruct (sameIdString (lookup body "parentTask") (_id task)) eqn:E;
        [|reflexivity].
      apply (sameIdString_cast _ _ _ Hl) in E. congruence. }
    pose proof (castId_truthy _ _ Hl) as Htruthy.
    split.
    + intros Hanc.
      destruct (@cycleWalk_hits s id P Hanc (fetch_findById _ _ _ _ Hfetch))
        as [n Hn].
      exists n. intros fuel Hle. unfold updateTask, parentChecks.
      rewrite Hvalid, Hfetch, Hl, Hself, Htruthy. simpl.
      rewrite Hid, (Hn fuel Hle). reflexivity.
    + intros r Hr Hroot Hnot. split.
      * destruct (@cycleWalk_passes s id P r Hr Hroot Hnot) as [n Hn].
        exists n. intros fuel Hle. unfold updateTask, parentChecks.
        rewrite Hvalid, Hfetch, Hl, Hself, Htruthy. simpl.
        rewrite Hid, (Hn fuel Hle). reflexivity.
      * intros saved s'. unfold applyAndSave.
        destruct (applyUpdates requester body (keys body) task)
          as [task'|] eqn:Ha; [|discriminate].
        destruct (save now task task' s) as [sv s1] eqn:Hsave.
        intros H. inversion H; subst sv s1.
        apply save_fields in Hsave. destruct Hsave as [_ [_ Hp]].
        rewrite Hp, (applyUpdates_parent _ _ _ _ _ Ha).
        rewrite (castId_in_keys _ _ _ Hl), Hl. reflexivity.
Qed.

Lemma update_cycle_guard_witness :
  exists n, forall fuel, n <= fuel ->
    updateTask fuel 200 alice 10 [("parentTask", VId 12)]%string
      [plan_release; write_tests;
       mkTodo 12 "Cover the walk" false 1 None None None (Some 11) 120 120]
    = Some (Err CycleError,
            [plan_release; write_tests;
             mkTodo 12 "Cover the walk" false 1 None None None (Some 11)
                    120 120]).
Proof.
  destruct (update_cycle_guard 200 alice 10 [("parentTask", VId 12)]%string
              [plan_release; write_tests;
               mkTodo 12 "Cover the walk" false 1 None None None (Some 11)
                      120 120]) as [_ H].
  destruct (H plan_release 12) as [Hcycle _].
  - reflexivity.
  - reflexivity.
  - reflexivity.
  - discriminate.
  - apply Hcycle.
    apply rt_trans with (y := 11); apply rt_step; reflexivity.
Defined.

(** ** The cascade of deleteTask *)

Lemma hookOwner_idem c : hookOwner (hookOwner c) = hookOwner c.
Proof. destruct c; reflexivity. Qed.

Section CascadeFacts.

Variable um : Todo -> bool.

Lemma same_id_same_doc s x y :
  UniqueIds s -> In x s -> In y s -> _id x = _id y -> x = y.
Proof.
  intros Hu Hx Hy Hid.
  pose proof (findById_unique s x Hu Hx) as H1.
  pose proof (findById_unique s y Hu Hy) as H2.
  rewrite Hid in H1. congruence.
Qed.

Lemma removeFirst_spec id c :
  forall s d s',
    UniqueIds s ->
    removeFirst (matchesQuery um id c) s = (d, s') ->
    (forall x, In x s' <-> In x s /\ matchesQuery um id c x = false)
    /\ UniqueIds s'
    /\ match d with
       | Some t => In t s /\ matchesQuery um id c t = true
       | None => True
       end.
Proof.
  unfold UniqueIds.
  induction s as [|h r IH]; simpl; intros d s' Hu Hrm.
  - inversion Hrm; subst. split; [|split].
    + intros x. simpl. tauto.
    + constructor.
    + exact I.
  - inversion Hu as [|? ? Hnotin Hu']; subst.
    destruct (matchesQuery um id c h) eqn:Eh.
    + inversion Hrm; subst. split; [|split].
      * intros x. split.
        -- intros Hx. split; [now right|].
           destruct (matchesQuery um id c x) eqn:Ex; [|reflexivity].
           exfalso. apply Hnotin.
           unfold matchesQuery in Eh, Ex.
           apply andb_true_iff in Eh. apply andb_true_iff in Ex.
           destruct Eh as [Eh _]. destruct Ex as [Ex _].
           apply Nat.eqb_eq in Eh. apply Nat.eqb_eq in Ex.
           rewrite Eh, <- Ex. now apply in_map.
        -- intros [[->|Hx] Hm]; [congruence | exact Hx].
      * exact Hu'.
      * split; [now left | exact Eh].
    + destruct (removeFirst (matchesQuery um id c) r) as [d' r'] eqn:Er.
      inversion Hrm; subst.
      destruct (IH d r' Hu' eq_refl) as [Hin [Hu2 Hd]].
      split; [|split].
      * intros x. split.
        -- intros [->|Hx]; [auto|]. apply Hin in Hx. tauto.
        -- intros [[->|Hx] Hm]; [now left|]. right. apply Hin. auto.
      * simpl. constructor; [|exact Hu2].
        intros Hc. apply Hnotin. apply in_map_iff in Hc.
        destruct Hc as [x [Hidx Hx]]. apply Hin in Hx.
        apply in_map_iff. exists x. tauto.
      * destruct d as [t|]; [|exact I]. tauto.
Qed.

Lemma Cascaded_in h s root t : Cascaded um h s root t -> In t s.
Proof. intros H. destruct H; assumption. Qed.

Lemma Cascaded_matches h s root t :
  Cascaded um h s root t -> ownerMatches um h t = true.
Proof. intros H. destruct H; assumption. Qed.

Lemma Cascaded_incl h s s' root t :
  incl s s' -> Cascaded um h s root t -> Cascaded um h s' root t.
Proof.
  intros Hincl H. induction H as [t Hin Hp Hm | t u _ IH Hin Hp Hm].
  - apply cascaded_child; auto.
  - apply cascaded_below with (u := u); auto.
Qed.

(** Below a child of [root] is below [root]. *)
Lemma Cascaded_under_child h s root child t :
  In child s -> parentTask child = Some root ->
  ownerMatches um h child = true ->
  Cascaded um h s (_id child) t -> Cascaded um h s root t.
Proof.
  intros Hin Hp Hm H.
  induction H as [t Hin' Hp' Hm' | t u _ IH Hin' Hp' Hm'].
  - apply cascaded_below with (u := child); auto.
    now apply cascaded_child.
  - apply cascaded_below with (u := u); auto.
Qed.

(** A cascaded document reaches the root by its parent pointers. *)
Lemma Cascaded_path h s root t :
  UniqueIds s -> Cascaded um h s root t ->
  clos_trans ObjectId (parentStep s) (_id t) root.
Proof.
  intros Hu H.
  induction H as [t Hin Hp Hm | t u _ IH Hin Hp Hm].
  - apply t_step. unfold parentStep, parentOf.
    now rewrite (findById_unique s t Hu Hin).
  - eapply t_trans; [|exact IH].
    apply t_step. unfold parentStep, parentOf.
    now rewrite (findById_unique s t Hu Hin).
Qed.

End CascadeFacts.

Lemma Before_app_l l l' i j : Before l i j -> Before (l ++ l') i j.
Proof.
  intros [l1 [l2 [-> [Hi Hj]]]]. exists l1, (l2 ++ l').
  rewrite app_assoc. repeat split; auto. apply in_or_app. now left.
Qed.

Lemma Before_app_r l l' i j : Before l' i j -> Before (l ++ l') i j.
Proof.
  intros [l1 [l2 [-> [Hi Hj]]]]. exists (l ++ l1), l2.
  rewrite app_assoc. repeat split; auto. apply in_or_app. now right.
Qed.

Lemma Before_app_cross l l' i j : In i l -> In j l' -> Before (l ++ l') i j.
Proof. intros Hi Hj. exists l, l'. auto. Qed.

Section CascadeCorrect.

Variable um : Todo -> bool.

Lemma removeFirst_none (p : Todo -> bool) :
  forall s s', removeFirst p s = (None, s') ->
               forall x, In x s -> p x = false.
Proof.
  induction s as [|h r IH]; simpl; intros s' H x Hx; [contradiction|].
  destruct (p h) eqn:Eh; [discriminate|].
  destruct (removeFirst p r) as [d r'] eqn:Er.
  inversion H; subst. destruct Hx as [->|Hx]; eauto.
Qed.

Lemma Removed_incl c s s' id t :
  incl s s' -> Removed um c s id t -> Removed um c s' id t.
Proof.
  intros Hincl [H|H]; [now left | right].
  eapply Cascaded_incl; eauto.
Qed.

(** A child of a removed document that satisfies the hook's condition
    is removed with it. *)
Lemma Removed_child h s a u x :
  hookOwner h = h ->
  Removed um h s a u ->
  In x s -> parentTask x = Some (_id u) -> ownerMatches um h x = true ->
  Removed um h s a x.
Proof.
  intros Hh [[Hid Hm]|Hc] Hin Hp Hmx; right; rewrite Hh in *.
  - apply cascaded_child; auto. now rewrite <- Hid.
  - apply cascaded_below with (u := u); auto.
Qed.

(** After the subtree of [a] has left the store, what hangs below [b]
    and is still stored hangs below [b] in the new store. *)
Lemma Cascaded_survives h s sa a :
  hookOwner h = h ->
  (forall x, In x sa <-> In x s /\ ~ Removed um h s a x) ->
  forall b x, Cascaded um h s b x -> In x sa -> Cascaded um h sa b x.
Proof.
  intros Hh Hsa b x H.
  induction H as [t Hin Hp Hm | t u Hu IH Hin Hp Hm]; intros Hsurv.
  - apply cascaded_child; auto.
  - destruct (in_dec Todo_eq_dec u sa) as [Husa | Husa].
    + apply cascaded_below with (u := u); auto.
    + exfalso. apply Hsa in Hsurv. destruct Hsurv as [_ Hnot].
      assert (Hnn : ~ ~ Removed um h s a u).
      { intros Hn. apply Husa. apply Hsa. split; [|exact Hn].
        eapply Cascaded_in; eauto. }
      apply Hnn. intros Hr. apply Hnot.
      eapply Removed_child; eauto.
Qed.

Lemma Removed_survives h s sa a :
  hookOwner h = h ->
  (forall x, In x sa <-> In x s /\ ~ Removed um h s a x) ->
  forall b x, Removed um h s b x -> In x sa -> Removed um h sa b x.
Proof.
  intros Hh Hsa b x [H|H] Hin; [now left | right].
  rewrite Hh in *. eapply Cascaded_survives; eauto.
Qed.

(** What hangs below [id] is what the children found by the hook take
    with them. *)
Lemma Cascaded_children c s id x :
  UniqueIds s -> In x s ->
  (Cascaded um (hookOwner c) s id x <->
   exists child, In child (filter (isChildOf um id c) s) /\
                 Removed um (hookOwner c) s (_id child) x).
Proof.
  intros Hu Hx. split.
  - intros H. clear Hx.
    induction H as [t Hin Hp Hm | t u _ IH Hin Hp Hm].
    + exists t. split.
      * apply filter_In. split; [exact Hin|].
        unfold isChildOf. rewrite Hp, Hm. simpl.
        now rewrite Nat.eqb_refl.
      * left. auto.
    + destruct IH as [child [Hchild Hr]]. exists child.
      split; [exact Hchild|].
      eapply Removed_child; eauto using hookOwner_idem.
  - intros [child [Hchild Hr]].
    apply filter_In in Hchild. destruct Hchild as [Hin Hc].
    unfold isChildOf in Hc. apply andb_true_iff in Hc.
    destruct Hc as [Hp Hm].
    assert (Hp' : parentTask child = Some id).
    { destruct (parentTask child) as [p|]; simpl in Hp; [|discriminate].
      apply Nat.eqb_eq in Hp. now subst. }
    destruct Hr as [[Hid Hmx]|Hcas].
    + assert (x = child) by (eapply same_id_same_doc; eauto).
      subst x. now apply cascaded_child.
    + rewrite hookOwner_idem in Hcas.
      eapply Cascaded_under_child; eauto.
Qed.

Lemma forEachChild_spec h del :
  hookOwner h = h ->
  (forall cid s sa log,
      UniqueIds s -> del cid s = Some (sa, log) -> DelSpec um h cid s sa log) ->
  forall childTasks s s1 log,
    UniqueIds s ->
    forEachChild del childTasks s = Some (s1, log) ->
    (forall x, In x s1 <->
               In x s /\ forall child, In child childTasks ->
                                       ~ Removed um h s (_id child) x)
    /\ UniqueIds s1
    /\ (forall i, In i log <-> exists x, In x s /\ _id x = i /\ ~ In x s1)
    /\ NoDup log.
Proof.
  intros Hh Hdel.
  induction childTasks as [|child rest IH]; intros s s1 log Hu Hrun.
  - simpl in Hrun. inversion Hrun; subst. split; [|split; [|split]].
    + intros x. split; [intros Hx; split; [exact Hx | intros ? []] | tauto].
    + exact Hu.
    + intros i. split; [intros [] | intros [x [Hx [_ Hn]]]; contradiction].
    + constructor.
  - simpl in Hrun.
    destruct (del (_id child) s) as [[sa log1]|] eqn:Hd; [|discriminate].
    destruct (forEachChild del rest sa) as [[s2 log2]|] eqn:Hr;
      [|discriminate].
    inversion Hrun; subst s2 log. clear Hrun.
    destruct (Hdel _ _ _ _ Hu Hd) as [Hsa [Husa [Hlog1 Hnd1]]].
    destruct (IH _ _ _ Husa Hr) as [Hs1 [Hus1 [Hlog2 Hnd2]]].
    assert (Hincl : incl sa s) by (intros x Hx; apply Hsa in Hx; tauto).
    split; [|split; [|split]].
    + intros x. split.
      * intros Hx. apply Hs1 in Hx. destruct Hx as [Hxa Hrest].
        pose proof (proj1 (Hsa x) Hxa) as [Hxs Hnot]. split; [exact Hxs|].
        intros c [<-|Hc]; [exact Hnot|].
        intros Hrem. apply (Hrest c Hc).
        eapply Removed_survives; eauto.
      * intros [Hxs Hall]. apply Hs1. split.
        -- apply Hsa. split; [exact Hxs|]. apply Hall. now left.
        -- intros c Hc Hrem. apply (Hall c); [now right|].
           eapply Removed_incl; eauto.
    + exact Hus1.
    + intros i. rewrite in_app_iff, Hlog1, Hlog2. split.
      * intros [[x [Hx [Hid Hn]]] | [x [Hx [Hid Hn]]]].
        -- exists x. repeat split; auto.
           intros H1. apply Hn. apply Hs1 in H1. tauto.
        -- exists x. repeat split; auto.
      * intros [x [Hx [Hid Hn]]].
        destruct (in_dec Todo_eq_dec x sa) as [Hxa|Hxa].
        -- right. exists x. auto.
        -- left. exists x. auto.
    + apply NoDup_app; auto.
      intros i H1 H2. apply Hlog1 in H1. apply Hlog2 in H2.
      destruct H1 as [x [Hx [Hidx Hnx]]].
      destruct H2 as [y [Hy [Hidy _]]].
      apply Hnx.
      assert (x = y)
        by (apply (same_id_same_doc s x y Hu Hx (Hincl y Hy)); congruence).
      now subst.
Qed.

Lemma matchesQuery_true id c x :
  matchesQuery um id c x = true <->
  _id x = id /\ ownerMatches um c x = true.
Proof.
  unfold matchesQuery. rewrite andb_true_iff, Nat.eqb_eq. tauto.
Qed.

Lemma findOneAndDelete_spec :
  forall fuel id c s d s' log,
    UniqueIds s ->
    findOneAndDelete um fuel id c s = Some (d, s', log) ->
    DelSpec um c id s s' log
    /\ match d with
       | Some t => In t s /\ matchesQuery um id c t = true /\
                   exists log', log = log' ++ [id]
       | None => True
       end
    /\ (forall x, In x s -> matchesQuery um id c x = true ->
                  ~ Cascaded um (hookOwner c) s id x -> d = Some x).
Proof.
  induction fuel as [|f IH]; intros id c s d s' log Hu Hrun;
    [discriminate|].
  cbn [findOneAndDelete] in Hrun.
  set (del := fun cid s0 =>
         match findOneAndDelete um f cid (hookOwner c) s0 with
         | Some (_, s1, lg) => Some (s1, lg)
         | None => None
         end) in Hrun.
  destruct (forEachChild del (filter (isChildOf um id c) s) s)
    as [[s1 log1]|] eqn:Hloop; [|discriminate].
  assert (Hdel : forall cid s0 sa lg,
             UniqueIds s0 -> del cid s0 = Some (sa, lg) ->
             DelSpec um (hookOwner c) cid s0 sa lg).
  { intros cid s0 sa lg Hu0 Hd. unfold del in Hd.
    destruct (findOneAndDelete um f cid (hookOwner c) s0)
      as [[[d0 s0'] lg0]|] eqn:E; [|discriminate].
    inversion Hd; subst. exact (proj1 (IH _ _ _ _ _ _ Hu0 E)). }
  destruct (forEachChild_spec (hookOwner c) del (hookOwner_idem c) Hdel
              _ _ _ _ Hu Hloop) as [Hs1 [Hus1 [Hlog1 Hnd1]]].
  destruct (removeFirst (matchesQuery um id c) s1) as [d1 s2] eqn:Hrm.
  destruct (removeFirst_spec um id c _ _ _ Hus1 Hrm) as [Hs2 [Hus2 Hd1]].
  assert (Hincl1 : incl s1 s) by (intros x Hx; apply Hs1 in Hx; tauto).
  assert (Hkeep : forall x, In x s ->
             (In x s1 <-> ~ Cascaded um (hookOwner c) s id x)).
  { intros x Hx. rewrite Hs1. rewrite (Cascaded_children c s id x Hu Hx).
    split.
    - intros [_ Hall] [child [Hc Hr]]. exact (Hall child Hc Hr).
    - intros Hn. split; [exact Hx|]. intros child Hc Hr. apply Hn. eauto. }
  assert (Hstore : forall x, In x s2 <-> In x s /\ ~ Removed um c s id x).
  { intros x. rewrite Hs2. split.
    - intros [Hx1 Hm]. pose proof (Hincl1 x Hx1) as Hx.
      split; [exact Hx|]. intros [Hroot|Hcas].
      + apply matchesQuery_true in Hroot. congruence.
      + now apply (Hkeep x Hx).
    - intros [Hx Hn]. split.
      + apply (Hkeep x Hx). intros Hc. apply Hn. now right.
      + destruct (matchesQuery um id c x) eqn:E; [|reflexivity].
        exfalso. apply Hn. left. now apply matchesQuery_true. }
  assert (Hfound : forall x, In x s -> matchesQuery um id c x = true ->
             ~ Cascaded um (hookOwner c) s id x -> d1 = Some x).
  { intros x Hx Hm Hn. apply (Hkeep x Hx) in Hn.
    destruct d1 as [t|].
    - destruct Hd1 as [Ht Hmt]. f_equal.
      apply (same_id_same_doc s1 t x Hus1 Ht Hn).
      apply matchesQuery_true in Hm. apply matchesQuery_true in Hmt.
      destruct Hm, Hmt. congruence.
    - rewrite (removeFirst_none _ _ _ Hrm x Hn) in Hm. discriminate. }
  destruct d1 as [t|].
  - inversion Hrun; subst d s' log. clear Hrun.
    destruct Hd1 as [Ht Hmt].
    pose proof (proj1 (matchesQuery_true id c t) Hmt) as [Hidt _].
    split; [|split].
    + split; [exact Hstore|]. split; [exact Hus2|]. split.
      * intros i. rewrite in_app_iff, Hlog1. simpl. split.
        -- intros [[x [Hx [Hid Hn]]] | [Hi | []]].
           ++ exists x. repeat split; auto.
              intros H2. apply Hn. apply Hs2 in H2. tauto.
           ++ exists t. repeat split; auto.
              intros H2. apply Hs2 in H2. destruct H2. congruence.
        -- intros [x [Hx [Hid Hn]]].
           destruct (in_dec Todo_eq_dec x s1) as [Hx1|Hx1].
           ++ right. left.
              destruct (matchesQuery um id c x) eqn:E.
              ** apply matchesQuery_true in E. destruct E. congruence.
              ** exfalso. apply Hn. apply Hs2. auto.
           ++ left. exists x. auto.
      * apply NoDup_app; auto.
        -- constructor; [intros [] | constructor].
        -- intros i H1 [<-|[]]. apply Hlog1 in H1.
           destruct H1 as [x [Hx [Hid Hn]]]. apply Hn.
           assert (x = t)
             by (apply (same_id_same_doc s x t Hu Hx (Hincl1 t Ht));
                 congruence).
           now subst.
    + split; [auto|]. split; [exact Hmt|].
      exists log1. now rewrite Hidt.
    + exact Hfound.
  - inversion Hrun; subst d s' log. clear Hrun.
    split; [|split].
    + split; [exact Hstore|]. split; [exact Hus2|]. split; [|exact Hnd1].
      intros i. rewrite Hlog1. split.
      * intros [x [Hx [Hid Hn]]]. exists x. repeat split; auto.
        intros H2. apply Hn. apply Hs2 in H2. tauto.
      * intros [x [Hx [Hid Hn]]]. exists x. repeat split; auto.
        intros H1. apply Hn. apply Hs2. split; [exact H1|].
        exact (removeFirst_none _ _ _ Hrm x H1).
    + exact I.
    + exact Hfound.
Qed.

(** Termination on a forest: the ids on the path from the current
    document up to the first child of the root are pairwise distinct. *)
Lemma forEachChild_runs h del s0 :
  forall childTasks,
    (forall child s,
        In child childTasks -> UniqueIds s -> incl s s0 ->
        exists sa log, del (_id child) s = Some (sa, log)
                       /\ DelSpec um h (_id child) s sa log) ->
    forall s, UniqueIds s -> incl s s0 ->
              exists r, forEachChild del childTasks s = Some r.
Proof.
  induction childTasks as [|child rest IH]; intros Hdel s Hu Hincl.
  - simpl. eauto.
  - simpl.
    destruct (Hdel child s (or_introl eq_refl) Hu Hincl)
      as [sa [log1 [Hd [Hsa [Husa _]]]]].
    rewrite Hd.
    destruct (IH (fun c s2 Hc => Hdel c s2 (or_intror Hc)) sa Husa)
      as [[s2 log2] Hr].
    + intros x Hx. apply Hincl. apply Hsa in Hx. tauto.
    + rewrite Hr. eauto.
Qed.

Lemma findOneAndDelete_runs s0 :
  UniqueIds s0 -> Acyclic s0 ->
  forall fuel id c s anc,
    UniqueIds s -> incl s s0 ->
    NoDup anc -> incl anc (map _id s0) ->
    (forall a, In a anc -> Ancestor s0 id a) ->
    List.length s0 < List.length anc + fuel ->
    exists r, findOneAndDelete um fuel id c s = Some r.
Proof.
  intros Hu0 Hacyc.
  induction fuel as [|f IH]; intros id c s anc Hu Hincl Hnd Hanc Hreach Hlen.
  - exfalso. pose proof (NoDup_incl_length Hnd Hanc) as Hb.
    rewrite length_map in Hb. lia.
  - cbn [findOneAndDelete].
    set (del := fun cid s0 =>
           match findOneAndDelete um f cid (hookOwner c) s0 with
           | Some (_, s1, lg) => Some (s1, lg)
           | None => None
           end).
    destruct (forEachChild_runs (hookOwner c) del s0
                (filter (isChildOf um id c) s)) with (s := s)
      as [[s1 log1] Hloop]; auto.
    + intros child s2 Hchild Hu2 Hincl2.
      apply filter_In in Hchild. destruct Hchild as [Hin Hc].
      unfold isChildOf in Hc. apply andb_true_iff in Hc.
      destruct Hc as [Hp _].
      assert (Hp' : parentTask child = Some id).
      { destruct (parentTask child) as [p|]; simpl in Hp; [|discriminate].
        apply Nat.eqb_eq in Hp. now subst. }
      assert (Hstep : parentStep s0 (_id child) id).
      { unfold parentStep, parentOf.
        now rewrite (findById_unique s0 child Hu0 (Hincl child Hin)). }
      destruct (IH (_id child) (hookOwner c) s2 (_id child :: anc))
        as [[[d sa] lg] Hrun]; auto.
      * constructor; [|exact Hnd]. intros Ha.
        apply (Hacyc (_id child)).
        eapply step_then_path; eauto.
      * intros x [<-|Hx]; [|auto]. apply in_map. auto.
      * intros a [<-|Ha]; [apply rt_refl|].
        eapply rt_trans; [apply rt_step; exact Hstep | exact (Hreach a Ha)].
      * simpl. lia.
      * exists sa, lg. unfold del. rewrite Hrun. split; [reflexivity|].
        exact (proj1 (findOneAndDelete_spec _ _ _ _ _ _ _ Hu2 Hrun)).
    + rewrite Hloop.
      destruct (removeFirst (matchesQuery um id c) s1) as [[t|] s2]; eauto.
Qed.

Lemma forEachChild_order h del :
  hookOwner h = h ->
  (forall cid s sa log,
      UniqueIds s -> del cid s = Some (sa, log) -> DelSpec um h cid s sa log) ->
  (forall cid s sa log,
      UniqueIds s -> del cid s = Some (sa, log) -> OrderSpec um h s sa log) ->
  forall childTasks s s1 log,
    UniqueIds s ->
    forEachChild del childTasks s = Some (s1, log) ->
    OrderSpec um h s s1 log.
Proof.
  intros Hh Hdel Hord.
  induction childTasks as [|child rest IH]; intros s s1 log Hu Hrun.
  - simpl in Hrun. inversion Hrun; subst.
    intros x y Hx _ Hnx. contradiction.
  - simpl in Hrun.
    destruct (del (_id child) s) as [[sa log1]|] eqn:Hd; [|discriminate].
    destruct (forEachChild del rest sa) as [[s2 log2]|] eqn:Hr;
      [|discriminate].
    inversion Hrun; subst s2 log. clear Hrun.
    destruct (Hdel _ _ _ _ Hu Hd) as [Hsa [Husa [Hlog1 _]]].
    destruct (forEachChild_spec h del Hh Hdel _ _ _ _ Husa Hr)
      as [_ [_ [Hlog2 _]]].
    intros x y Hx Hy Hnx Hny Hp Hm.
    destruct (in_dec Todo_eq_dec x sa) as [Hxa|Hxa];
      destruct (in_dec Todo_eq_dec y sa) as [Hya|Hya].
    + apply Before_app_r.
      exact (IH _ _ _ Husa Hr x y Hxa Hya Hnx Hny Hp Hm).
    + exfalso. apply Hsa in Hxa. destruct Hxa as [_ Hnot].
      assert (Hnn : ~ ~ Removed um h s (_id child) y)
        by (intros Hn; apply Hya; apply Hsa; auto).
      apply Hnn. intros Hr'. apply Hnot.
      eapply Removed_child; eauto.
    + apply Before_app_cross.
      * apply Hlog1. exists x. auto.
      * apply Hlog2. exists y. auto.
    + apply Before_app_l.
      exact (Hord _ _ _ _ Hu Hd x y Hx Hy Hxa Hya Hp Hm).
Qed.

Lemma findOneAndDelete_order :
  forall fuel id c s d s' log,
    UniqueIds s ->
    findOneAndDelete um fuel id c s = Some (d, s', log) ->
    OrderSpec um (hookOwner c) s s' log.
Proof.
  induction fuel as [|f IH]; intros id c s d s' log Hu Hrun;
    [discriminate|].
  cbn [findOneAndDelete] in Hrun.
  set (del := fun cid s0 =>
         match findOneAndDelete um f cid (hookOwner c) s0 with
         | Some (_, s1, lg) => Some (s1, lg)
         | None => None
         end) in Hrun.
  destruct (forEachChild del (filter (isChildOf um id c) s) s)
    as [[s1 log1]|] eqn:Hloop; [|discriminate].
  assert (Hdel : forall cid s0 sa lg,
             UniqueIds s0 -> del cid s0 = Some (sa, lg) ->
             DelSpec um (hookOwner c) cid s0 sa lg).
  { intros cid s0 sa lg Hu0 Hd. unfold del in Hd.
    destruct (findOneAndDelete um f cid (hookOwner c) s0)
      as [[[d0 s0'] lg0]|] eqn:E; [|discriminate].
    inversion Hd; subst.
    exact (proj1 (findOneAndDelete_spec _ _ _ _ _ _ _ Hu0 E)). }
  assert (Hord : forall cid s0 sa lg,
             UniqueIds s0 -> del cid s0 = Some (sa, lg) ->
             OrderSpec um (hookOwner c) s0 sa lg).
  { intros cid s0 sa lg Hu0 Hd. unfold del in Hd.
    destruct (findOneAndDelete um f cid (hookOwner c) s0)
      as [[[d0 s0'] lg0]|] eqn:E; [|discriminate].
    inversion Hd; subst.
    pose proof (IH _ _ _ _ _ _ Hu0 E) as H.
    now rewrite hookOwner_idem in H. }
  destruct (forEachChild_spec (hookOwner c) del (hookOwner_idem c) Hdel
              _ _ _ _ Hu Hloop) as [Hs1 [Hus1 [Hlog1 _]]].
  pose proof (forEachChild_order (hookOwner c) del (hookOwner_idem c)
                Hdel Hord _ _ _ _ Hu Hloop) as Horder.
  destruct (removeFirst (matchesQuery um id c) s1) as [d1 s2] eqn:Hrm.
  destruct (removeFirst_spec um id c _ _ _ Hus1 Hrm) as [Hs2 [_ Hd1]].
  assert (Hmatch : forall z, In z s1 -> ~ In z s2 ->
             matchesQuery um id c z = true).
  { intros z Hz Hnz. destruct (matchesQuery um id c z) eqn:E; auto.
    exfalso. apply Hnz. apply Hs2. auto. }
  assert (Hfirst : forall x y,
             In x s -> In y s -> ~ In x s2 -> ~ In y s2 ->
             parentTask x = Some (_id y) ->
             ownerMatches um (hookOwner c) x = true -> ~ In x s1).
  { intros x y Hx Hy Hnx Hny Hp Hm Hx1.
    pose proof (Hmatch x Hx1 Hnx) as Hqx.
    apply matchesQuery_true in Hqx. destruct Hqx as [Hidx _].
    pose proof (proj1 (Hs1 x) Hx1) as [_ Hall].
    destruct (in_dec Todo_eq_dec y s1) as [Hy1|Hy1].
    - pose proof (Hmatch y Hy1 Hny) as Hqy.
      apply matchesQuery_true in Hqy. destruct Hqy as [Hidy _].
      apply (Hall x).
      + apply filter_In. split; [exact Hx|].
        unfold isChildOf. rewrite Hp, Hidy, Hm. simpl.
        now rewrite Nat.eqb_refl.
      + left. auto.
    - apply Hy1. apply Hs1. split; [exact Hy|].
      intros child Hc Hr. apply (Hall child Hc).
      eapply Removed_child; eauto using hookOwner_idem. }
  destruct d1 as [t|]; inversion Hrun; subst d s' log; clear Hrun;
    intros x y Hx Hy Hnx Hny Hp Hm;
    pose proof (Hfirst x y Hx Hy Hnx Hny Hp Hm) as Hx1;
    destruct (in_dec Todo_eq_dec y s1) as [Hy1|Hy1].
  - pose proof (Hmatch y Hy1 Hny) as Hqy.
    destruct Hd1 as [Ht Hqt].
    assert (t = y).
    { apply (same_id_same_doc s1 t y Hus1 Ht Hy1).
      apply matchesQuery_true in Hqy. apply matchesQuery_true in Hqt.
      destruct Hqy, Hqt. congruence. }
    subst t. apply Before_app_cross.
    + apply Hlog1. exists x. auto.
    + now left.
  - apply Before_app_l. exact (Horder x y Hx Hy Hx1 Hy1 Hp Hm).
  - pose proof (Hmatch y Hy1 Hny) as Hqy.
    rewrite (removeFirst_none _ _ _ Hrm y Hy1) in Hqy. discriminate.
  - exact (Horder x y Hx Hy Hx1 Hy1 Hp Hm).
Qed.

End CascadeCorrect.

Lemma fetch_absent requester s i :
  (forall x, In x s -> _id x <> i) -> fetch requester s i = None.
Proof.
  intros H. destruct (fetch requester s i) as [t|] eqn:E; [|reflexivity].
  destruct (fetch_some _ _ _ _ E) as [Hin Hid]. exfalso. exact (H t Hin Hid).
Qed.

Lemma fetch_matches um requester s id R :
  fetch requester s id = Some R ->
  matchesQuery um id (deleteFilter requester) R = true.
Proof.
  intros Hf. destruct (fetch_some _ _ _ _ Hf) as [_ Hid].
  unfold matchesQuery, deleteFilter. rewrite Hid, Nat.eqb_refl. simpl.
  destruct (isAdmin requester) eqn:Hrole; simpl; [reflexivity|].
  rewrite (fetch_owned _ _ _ _ Hrole Hf). apply Nat.eqb_refl.
Qed.

(** C1, as the claim states it, fails.  Task 10 of user 1 has the child 11
    owned by user 2, which has the child 12 owned by user 1.  When user 1
    deletes task 10 only that task is removed: the descendant 12, which
    satisfies the owner filter of the delete, stays stored and is still
    returned to user 1. *)
Lemma delete_leaves_descendant_behind :
  deleteTask (fun _ => false) 4 alice 10
    [plan_release; bobs_subtask; design_review]
  = Some (Ok plan_release, [bobs_subtask; design_review], [10])
  /\ parentTask design_review = Some (_id bobs_subtask)
  /\ parentTask bobs_subtask = Some (_id plan_release)
  /\ owner design_review = user_id alice
  /\ getTaskById alice 12 [bobs_subtask; design_review] = Ok design_review.
Proof.
  repeat split.
Qed.

(** What an answered delete removes, for any filter: on a store with
    unique ids whose parent relation is a forest, exactly the task and
    the documents linked to it by a chain of parent pointers in which
    every document satisfies the owner condition of the hook, each
    descendant before the document it hangs on. *)
Lemma cascade_of_delete :
  forall um fuel requester id s R,
    UniqueIds s -> Acyclic s -> List.length s < fuel ->
    fetch requester s id = Some R ->
    let h := hookOwner (deleteFilter requester) in
    exists s' log,
      deleteTask um fuel requester id s = Some (Ok R, s', log ++ [id])
      /\ (forall x, In x s' <->
                    In x s /\ x <> R /\ ~ Cascaded um h s id x)
      /\ (forall x, Cascaded um h s id x -> In (_id x) log)
      /\ ~ In id log
      /\ (forall x y,
             Cascaded um h s id x -> y = R \/ Cascaded um h s id y ->
             parentTask x = Some (_id y) ->
             Before (log ++ [id]) (_id x) (_id y))
      /\ (forall anyone, getTaskById anyone id s' = Err NotFound)
      /\ (forall anyone x,
             Cascaded um h s id x ->
             getTaskById anyone (_id x) s' = Err NotFound).
Proof.
  intros um fuel requester id s R Hu Hacyc Hfuel Hfetch h.
  destruct (fetch_some _ _ _ _ Hfetch) as [HR Hid].
  pose proof (fetch_matches um _ _ _ _ Hfetch) as Hm.
  assert (HnotR : ~ Cascaded um h s id R).
  { intros Hc. apply (Hacyc id).
    pose proof (Cascaded_path um h s id R Hu Hc) as Hp.
    now rewrite Hid in Hp. }
  destruct (findOneAndDelete_runs um s Hu Hacyc fuel id
              (deleteFilter requester) s [])
    as [[[d s'] lg] Hrun]; auto.
  { apply incl_refl. }
  { constructor. }
  { intros a []. }
  { intros a []. }
  destruct (findOneAndDelete_spec um _ _ _ _ _ _ _ Hu Hrun)
    as [[Hstore [Hu' [Hlog Hnd]]] [Hd Hfound]].
  rewrite (Hfound R HR Hm HnotR) in Hd, Hrun.
  destruct Hd as [_ [_ [log Hlg]]]. subst lg.
  assert (Hrem : forall x, In x s ->
            (Removed um (deleteFilter requester) s id x <->
             x = R \/ Cascaded um h s id x)).
  { intros x Hx. unfold Removed. fold h. split.
    - intros [[Hidx _]|Hc]; [left | now right].
      apply (same_id_same_doc s x R Hu Hx HR). congruence.
    - intros [->|Hc]; [left | now right].
      now apply (matchesQuery_true um). }
  assert (Hgone : forall x, In x s -> (x = R \/ Cascaded um h s id x) ->
            forall y, In y s' -> _id y <> _id x).
  { intros x Hx Hor y Hy Heq. apply Hstore in Hy. destruct Hy as [Hys Hn].
    assert (y = x) by (apply (same_id_same_doc s y x Hu Hys Hx Heq)).
    subst y. apply Hn. now apply Hrem. }
  assert (Hout : forall x, In x s -> (x = R \/ Cascaded um h s id x) ->
            ~ In x s').
  { intros x Hx Hor Hx'. apply Hstore in Hx'. destruct Hx' as [_ Hn].
    apply Hn. now apply Hrem. }
  exists s', log. split; [|split; [|split; [|split; [|split; [|split]]]]].
  - unfold deleteTask. rewrite Hrun. reflexivity.
  - intros x. rewrite Hstore. split.
    + intros [Hx Hn]. split; [exact Hx|]. split.
      * intros ->. apply Hn. apply (Hrem R HR). now left.
      * intros Hc. apply Hn. apply (Hrem x Hx). now right.
    + intros [Hx [Hne Hn]]. split; [exact Hx|].
      intros Hr. apply (Hrem x Hx) in Hr. tauto.
  - intros x Hc.
    pose proof (Cascaded_in um h s id x Hc) as Hx.
    assert (Hin : In (_id x) (log ++ [id])).
    { apply Hlog. exists x. split; [exact Hx | split; [reflexivity|]].
      apply Hout; auto. }
    apply in_app_or in Hin. destruct Hin as [Hin | [Heq | []]]; [exact Hin|].
    exfalso. apply HnotR.
    assert (x = R)
      by (apply (same_id_same_doc s x R Hu Hx HR); congruence).
    now subst.
  - intros Hin. apply NoDup_remove_2 in Hnd.
    apply Hnd. rewrite app_nil_r. exact Hin.
  - intros x y Hcx Hy Hp.
    pose proof (Cascaded_in um h s id x Hcx) as Hx.
    assert (Hys : In y s).
    { destruct Hy as [->|Hcy]; [exact HR|]. eapply Cascaded_in; eauto. }
    apply (findOneAndDelete_order um _ _ _ _ _ _ _ Hu Hrun x y); auto.
    eapply Cascaded_matches; eauto.
  - intros anyone. unfold getTaskById. rewrite fetch_absent; [reflexivity|].
    intros y Hy. rewrite <- Hid. apply (Hgone R HR); auto.
  - intros anyone x Hc. unfold getTaskById.
    rewrite fetch_absent; [reflexivity|].
    intros y Hy. apply (Hgone x); auto.
    eapply Cascaded_in; eauto.
Qed.

Lemma Cascaded_OwnedBelow um o s root t :
  Cascaded um (OwnerIs o) s root t <-> OwnedBelow o s root t.
Proof.
  split; intros H; induction H.
  - apply owned_child; auto. now apply Nat.eqb_eq.
  - eapply owned_below; eauto. now apply Nat.eqb_eq.
  - apply cascaded_child; auto. simpl. now apply Nat.eqb_eq.
  - eapply cascaded_below; eauto. simpl. now apply Nat.eqb_eq.
Qed.

(** C1, amended.  On a store with unique ids whose parent relation is a
    forest, a delete by a requester who is not an administrator and owns
    the task [R] is answered with [R] and removes exactly [R] and the
    documents linked to it by a chain of parent pointers in which every
    document is the requester's own; every other document stays, also a
    descendant below a document of another owner.  Every removed
    descendant is removed before the document it hangs on, [R] is removed
    last, and afterwards no requester can fetch [R] or a removed
    descendant. *)
Theorem delete_cascades :
  forall um fuel requester id s R,
    isAdmin requester = false ->
    UniqueIds s -> Acyclic s -> List.length s < fuel ->
    fetch requester s id = Some R ->
    exists s' log,
      deleteTask um fuel requester id s = Some (Ok R, s', log ++ [id])
      /\ (forall x, In x s' <->
                    In x s /\ x <> R
                    /\ ~ OwnedBelow (user_id requester) s id x)
      /\ (forall x, OwnedBelow (user_id requester) s id x -> In (_id x) log)
      /\ ~ In id log
      /\ (forall x y,
             OwnedBelow (user_id requester) s id x ->
             y = R \/ OwnedBelow (user_id requester) s id y ->
             parentTask x = Some (_id y) ->
             Before (log ++ [id]) (_id x) (_id y))
      /\ (forall anyone, getTaskById anyone id s' = Err NotFound)
      /\ (forall anyone x,
             OwnedBelow (user_id requester) s id x ->
             getTaskById anyone (_id x) s' = Err NotFound).
Proof.
  intros um fuel requester id s R Hrole Hu Hacyc Hfuel Hfetch.
  destruct (cascade_of_delete um fuel requester id s R Hu Hacyc Hfuel Hfetch)
    as [s' [log [Hrun [Hstore [Hlog [Hid [Hord [Hget Hgone]]]]]]]].
  unfold deleteFilter in Hstore, Hlog, Hord, Hgone.
  rewrite Hrole in Hstore, Hlog, Hord, Hgone.
  cbn [hookOwner] in Hstore, Hlog, Hord, Hgone.
  pose proof (fun x => Cascaded_OwnedBelow um (user_id requester) s id x)
    as Heq.
  exists s', log. split; [exact Hrun|]. split; [|split; [|split; [|split]]].
  - intros x. rewrite Hstore, Heq. reflexivity.
  - intros x Hx. apply Hlog. now apply Heq.
  - exact Hid.
  - intros x y Hx Hy Hp. apply Hord; [now apply Heq | | exact Hp].
    destruct Hy as [->|Hy]; [now left | right; now apply Heq].
  - split; [exact Hget|].
    intros anyone x Hx. apply Hgone. now apply Heq.
Qed.

Lemma delete_cascades_witness :
  exists s' log,
    deleteTask (fun _ => false) 4 alice 10
      [plan_release; write_tests; design_review]
    = Some (Ok plan_release, s', log ++ [10])
    /\ (forall x, OwnedBelow (user_id alice)
                    [plan_release; write_tests; design_review] 10 x ->
                  In (_id x) log)
    /\ (forall anyone, getTaskById anyone 10 s' = Err NotFound).
Proof.
  destruct (delete_cascades (fun _ => false) 4 alice 10
              [plan_release; write_tests; design_review] plan_release)
    as [s' [log [Hrun [_ [Hlog [_ [_ [Hget _]]]]]]]].
  - reflexivity.
  - unfold UniqueIds. simpl.
    repeat (constructor; [simpl; intuition discriminate|]). constructor.
  - apply forestb_sound. reflexivity.
  - simpl. lia.
  - reflexivity.
  - exists s', log. split; [exact Hrun|]. split; [exact Hlog | exact Hget].
Defined.

Lemma list_visibility_and_order_witness :
  getTasks alice [write_tests; bobs_subtask; plan_release]
  = [plan_release; write_tests]
  /\ Permutation
       (filter (fun t => owner t =? user_id alice)
               [write_tests; bobs_subtask; plan_release])
       (getTasks alice [write_tests; bobs_subtask; plan_release]).
Proof.
  split; [reflexivity|].
  destruct (list_visibility_and_order alice
              [write_tests; bobs_subtask; plan_release]) as [Huser _].
  apply Huser. reflexivity.
Defined.

(** The recursion of the hook has no bound either: with the tasks 20 and
    21 of one user stored as each other's parent, the delete of task 20 by
    that user is not answered for any depth of recursion.  This is why
    the statement on the cascade asks for a forest. *)
Lemma delete_never_ends_on_cycle :
  forall um fuel,
    deleteTask um fuel alice 20
      [mkTodo 20 "Left" false 1 None None None (Some 21) 120 120;
       mkTodo 21 "Right" false 1 None None None (Some 20) 121 121]
    = None.
Proof.
  intros um fuel. unfold deleteTask, deleteFilter. simpl.
  assert (Hloop : forall n,
    findOneAndDelete um n 20 (OwnerIs 1)
      [mkTodo 20 "Left" false 1 None None None (Some 21) 120 120;
       mkTodo 21 "Right" false 1 None None None (Some 20) 121 121] = None
    /\ findOneAndDelete um n 21 (OwnerIs 1)
      [mkTodo 20 "Left" false 1 None None None (Some 21) 120 120;
       mkTodo 21 "Right" false 1 None None None (Some 20) 121 121] = None).
  { induction n as [|n [IH1 IH2]]; [split; reflexivity|].
    split; cbn [findOneAndDelete]; simpl; cbn [hookOwner].
    - rewrite IH2. reflexivity.
    - rewrite IH1. reflexivity. }
  destruct (Hloop fuel) as [H _]. rewrite H. reflexivity.
Qed.

(** * Further properties of the task handlers *)

(** ** getTaskById *)

Lemma findOneOwned_unique s t :
  UniqueIds s -> In t s -> findOneOwned s (_id t) (owner t) = Some t.
Proof.
  intros Hu Hin. unfold findOneOwned.
  destruct (find (fun x => (_id x =? _id t) && (owner x =? owner t)) s)
    as [x|] eqn:E.
  - apply find_some in E. destruct E as [Hx Hm].
    apply andb_true_iff in Hm. destruct Hm as [Hid _].
    apply Nat.eqb_eq in Hid. f_equal.
    exact (same_id_same_doc s x t Hu Hx Hin Hid).
  - pose proof (find_none _ _ E t Hin) as Hn. simpl in Hn.
    rewrite !Nat.eqb_refl in Hn. discriminate.
Qed.

(** X1.  With unique ids, getTaskById answers with a record exactly when
    that record is stored under the requested id and the requester is an
    administrator or its owner; a task of somebody else is answered like
    an id nobody has. *)
Theorem get_task_visibility :
  forall requester id s,
    UniqueIds s ->
    (forall t,
        getTaskById requester id s = Ok t <->
        In t s /\ _id t = id /\
        (isAdmin requester = true \/ owner t = user_id requester))
    /\ (forall t,
          isAdmin requester = false ->
          In t s -> _id t = id -> owner t <> user_id requester ->
          getTaskById requester id s = Err NotFound).
Proof.
  intros requester id s Hu.
  assert (Hchar : forall t,
    fetch requester s id = Some t <->
    In t s /\ _id t = id /\
    (isAdmin requester = true \/ owner t = user_id requester)).
  { intros t. unfold fetch. destruct (isAdmin requester) eqn:Hrole.
    - split.
      + intros H. destruct (findById_some _ _ _ H). auto.
      + intros [Hin [Hid _]]. rewrite <- Hid. now apply findById_unique.
    - split.
      + intros H. destruct (findOneOwned_some _ _ _ _ H) as [? [? ?]]. auto.
      + intros [Hin [Hid [Hc|Ho]]]; [discriminate|].
        rewrite <- Hid, <- Ho. now apply findOneOwned_unique. }
  split.
  - intros t. unfold getTaskById. rewrite <- Hchar.
    destruct (fetch requester s id); split; intros H; inversion H;
      reflexivity.
  - intros t Hrole Hin Hid Hne. unfold getTaskById.
    destruct (fetch requester s id) as [t'|] eqn:E; [|reflexivity].
    exfalso. destruct (proj1 (Hchar t') eq_refl) as [Hin' [Hid' [Hc|Ho]]].
    + congruence.
    + assert (t' = t)
        by (apply (same_id_same_doc s t' t Hu Hin' Hin); congruence).
      subst. contradiction.
Qed.

Lemma get_task_visibility_witness :
  getTaskById alice 11 [plan_release; bobs_subtask] = Err NotFound
  /\ getTaskById alice 99 [plan_release; bobs_subtask] = Err NotFound
  /\ getTaskById root_admin 11 [plan_release; bobs_subtask] = Ok bobs_subtask.
Proof.
  destruct (get_task_visibility alice 11 [plan_release; bobs_subtask])
    as [_ Hhidden].
  { unfold UniqueIds. simpl.
    repeat (constructor; [simpl; intuition discriminate|]). constructor. }
  split; [|split; reflexivity].
  apply (Hhidden bobs_subtask).
  - reflexivity.
  - simpl. auto.
  - reflexivity.
  - discriminate.
Defined.

(** ** createTask *)

Lemma newTodo_fields newId now body ownerId task :
  newTodo newId now body ownerId = Some task ->
  _id task = newId /\ owner task = ownerId /\
  parentTask task = b_parentTask body /\ createdAt task = now /\
  exists txt, b_text body = Some txt /\ text task = trim txt /\
              trim txt <> EmptyString.
Proof.
  unfold newTodo. destruct (b_text body) as [txt|]; [|discriminate].
  destruct (String.eqb (trim txt) EmptyString) eqn:E; [discriminate|].
  destruct (negb _); [discriminate|].
  intros H. inversion H; subst; simpl. repeat split.
  exists txt. repeat split. now apply String.eqb_neq.
Qed.

Lemma createTask_ok users newId now creator body s task s' :
  createTask users newId now creator body s = (Ok task, s') ->
  s' = s ++ [task]
  /\ existsb (fun t => _id t =? newId) s = false
  /\ newTodo newId now body (owner task) = Some task
  /\ match (if isAdmin creator then b_owner body else None) with
     | Some o => owner task = o /\ existsb (Nat.eqb o) users = true
     | None => owner task = user_id creator
     end.
Proof.
  unfold createTask.
  destruct (if isAdmin creator then b_owner body else None) as [o|].
  - destruct (existsb (Nat.eqb o) users) eqn:Eu; [|discriminate].
    destruct (newTodo newId now body o) as [t|] eqn:En; [|discriminate].
    destruct (existsb (fun t0 => _id t0 =? newId) s) eqn:Ef;
      [discriminate|].
    intros H. inversion H; subst.
    destruct (newTodo_fields _ _ _ _ _ En) as [_ [Ho _]].
    rewrite Ho. auto.
  - destruct (newTodo newId now body (user_id creator)) as [t|] eqn:En;
      [|discriminate].
    destruct (existsb (fun t0 => _id t0 =? newId) s) eqn:Ef;
      [discriminate|].
    intros H. inversion H; subst.
    destruct (newTodo_fields _ _ _ _ _ En) as [_ [Ho _]].
    rewrite Ho. auto.
Qed.

Lemma fresh_not_found s newId :
  existsb (fun t => _id t =? newId) s = false -> findById s newId = None.
Proof.
  intros Hf. unfold findById.
  destruct (find (fun t => _id t =? newId) s) as [x|] eqn:E; [|reflexivity].
  apply find_some in E. destruct E as [Hin Hid].
  assert (existsb (fun t => _id t =? newId) s = true)
    by (apply existsb_exists; eauto).
  congruence.
Qed.

Lemma find_app_one (p : Todo -> bool) s t :
  find p (s ++ [t]) =
    match find p s with
    | Some x => Some x
    | None => if p t then Some t else None
    end.
Proof.
  induction s as [|h r IH]; simpl.
  - reflexivity.
  - destruct (p h); auto.
Qed.

Lemma fetch_app_other requester s t j :
  _id t <> j -> fetch requester (s ++ [t]) j = fetch requester s j.
Proof.
  intros Hne. apply Nat.eqb_neq in Hne.
  unfold fetch, findById, findOneOwned.
  destruct (isAdmin requester); rewrite find_app_one; rewrite Hne; simpl;
    match goal with |- match ?f with _ => _ end = _ => destruct f end;
    reflexivity.
Qed.

(** X2.  A created task can be fetched at once, under the generated id, by
    its owner and by every administrator; before the creation nobody could
    fetch that id, and what anybody gets for any other id is unchanged. *)
Theorem create_then_get :
  forall users newId now creator body s task s',
    createTask users newId now creator body s = (Ok task, s') ->
    (forall anyone, getTaskById anyone newId s = Err NotFound)
    /\ (forall anyone,
          isAdmin anyone = true \/ user_id anyone = owner task ->
          getTaskById anyone newId s' = Ok task)
    /\ (forall anyone j,
          j <> newId -> getTaskById anyone j s' = getTaskById anyone j s).
Proof.
  intros users newId now creator body s task s' Hc.
  destruct (createTask_ok _ _ _ _ _ _ _ _ Hc) as [-> [Hfresh [Hnew _]]].
  destruct (newTodo_fields _ _ _ _ _ Hnew) as [Hid _].
  assert (Habs : forall anyone, fetch anyone s newId = None).
  { intros anyone. apply fetch_absent. intros x Hx Hidx.
    assert (existsb (fun t => _id t =? newId) s = true).
    { apply existsb_exists. exists x. split; [exact Hx|].
      now apply Nat.eqb_eq. }
    congruence. }
  split; [|split].
  - intros anyone. unfold getTaskById. now rewrite Habs.
  - intros anyone Hwho. unfold getTaskById.
    pose proof (Habs anyone) as Hnone. unfold fetch, findById, findOneOwned in *.
    destruct (isAdmin anyone) eqn:Hrole.
    + rewrite find_app_one, Hnone, Hid, Nat.eqb_refl. reflexivity.
    + destruct Hwho as [Hw|Hw]; [discriminate|].
      rewrite find_app_one, Hnone, Hid, Hw, !Nat.eqb_refl. reflexivity.
  - intros anyone j Hne. unfold getTaskById.
    rewrite fetch_app_other; [reflexivity | congruence].
Qed.

Lemma create_then_get_witness :
  getTaskById bob 10 [] = Err NotFound
  /\ getTaskById bob 10 [mkTodo 10 "Ship" false 2 None None None None 100 100]
     = Ok (mkTodo 10 "Ship" false 2 None None None None 100 100).
Proof.
  destruct (create_then_get [1; 2] 10 100 root_admin
              (mkCreateBody (Some " Ship "%string) None None None None None
                            (Some 2)) []
              (mkTodo 10 "Ship" false 2 None None None None 100 100)
              [mkTodo 10 "Ship" false 2 None None None None 100 100])
    as [Hbefore [Hafter _]].
  - reflexivity.
  - split; [apply Hbefore | apply Hafter; right; reflexivity].
Defined.

(** X3.  An administrator who names an owner assigns the task to that
    user: the created record carries the named id, which is a known user;
    when the named user is unknown the answer is 'Assigned user not
    found.' and nothing is stored, whatever else the payload holds. *)
Theorem create_admin_assignment :
  forall users newId now creator body s o,
    isAdmin creator = true ->
    b_owner body = Some o ->
    (~ In o users ->
     createTask users newId now creator body s = (Err InvalidOwner, s))
    /\ (forall task s',
          createTask users newId now creator body s = (Ok task, s') ->
          owner task = o /\ In o users).
Proof.
  intros users newId now creator body s o Hrole Ho. split.
  - intros Hnot. unfold createTask. rewrite Hrole, Ho.
    destruct (existsb (Nat.eqb o) users) eqn:E; [|reflexivity].
    apply existsb_exists in E. destruct E as [x [Hx Hox]].
    apply Nat.eqb_eq in Hox. subst x. contradiction.
  - intros task s' Hc.
    destruct (createTask_ok _ _ _ _ _ _ _ _ Hc) as [_ [_ [_ Hres]]].
    rewrite Hrole, Ho in Hres. destruct Hres as [Hw Hu].
    split; [exact Hw|].
    apply existsb_exists in Hu. destruct Hu as [x [Hx Hox]].
    apply Nat.eqb_eq in Hox. now subst x.
Qed.

Lemma create_admin_assignment_witness :
  createTask [1; 2] 10 100 root_admin
    (mkCreateBody (Some "Ship"%string) None None None None None (Some 7)) []
  = (Err InvalidOwner, []).
Proof.
  destruct (create_admin_assignment [1; 2] 10 100 root_admin
              (mkCreateBody (Some "Ship"%string) None None None None None
                            (Some 7)) [] 7) as [Hunknown _].
  - reflexivity.
  - reflexivity.
  - apply Hunknown. simpl. intuition discriminate.
Defined.

(** X4.  A creation that fails stores nothing, and it fails in one of
    three ways: unknown assigned user, validation, or an id already in
    use.  A payload whose text is missing or blank after trimming always
    fails, with the validation error unless the assigned user is
    unknown. *)
Theorem create_failure_keeps_store :
  forall users newId now creator body s,
    (forall e s',
        createTask users newId now creator body s = (Err e, s') ->
        s' = s /\ (e = InvalidOwner \/ e = ValidationError \/ e = DuplicateKey))
    /\ ((forall txt, b_text body = Some txt -> trim txt = EmptyString) ->
        createTask users newId now creator body s = (Err ValidationError, s)
        \/ createTask users newId now creator body s = (Err InvalidOwner, s)).
Proof.
  intros users newId now creator body s. split.
  - intros e s'. unfold createTask.
    destruct (if isAdmin creator then b_owner body else None) as [o|].
    + destruct (existsb (Nat.eqb o) users).
      * destruct (newTodo newId now body o);
          [destruct (existsb (fun t0 => _id t0 =? newId) s)|];
          intros H; inversion H; auto.
      * intros H; inversion H; auto.
    + destruct (newTodo newId now body (user_id creator));
        [destruct (existsb (fun t0 => _id t0 =? newId) s)|];
        intros H; inversion H; auto.
  - intros Hblank.
    assert (Hnew : forall o, newTodo newId now body o = None).
    { intros o. unfold newTodo. destruct (b_text body) as [txt|]; auto.
      rewrite (Hblank txt eq_refl). reflexivity. }
    unfold createTask.
    destruct (if isAdmin creator then b_owner body else None) as [o|].
    + destruct (existsb (Nat.eqb o) users); [|now right].
      rewrite Hnew. now left.
    + rewrite Hnew. now left.
Qed.

Lemma create_failure_keeps_store_witness :
  createTask [1] 10 100 alice
    (mkCreateBody (Some "   "%string) None None None None None None)
    [plan_release]
  = (Err ValidationError, [plan_release]).
Proof.
  destruct (create_failure_keeps_store [1] 10 100 alice
              (mkCreateBody (Some "   "%string) None None None None None None)
              [plan_release]) as [_ Hblank].
  destruct Hblank as [H|H].
  - intros txt Htxt. inversion Htxt. reflexivity.
  - exact H.
  - discriminate H.
Defined.

Lemma findById_app_one s t i :
  findById (s ++ [t]) i =
    match findById s i with
    | Some x => Some x
    | None => if _id t =? i then Some t else None
    end.
Proof. unfold findById. apply find_app_one. Qed.

(** X5.  A creation keeps the ids unique.  It keeps the parent relation a
    forest when the generated id is not yet named as a parent, neither by
    a stored task nor by the payload itself. *)
Theorem create_keeps_invariants :
  forall users newId now creator body s task s',
    createTask users newId now creator body s = (Ok task, s') ->
    (UniqueIds s -> UniqueIds s')
    /\ (Acyclic s ->
        (forall x, In x s -> parentTask x <> Some newId) ->
        b_parentTask body <> Some newId ->
        Acyclic s').
Proof.
  intros users newId now creator body s task s' Hc.
  destruct (createTask_ok _ _ _ _ _ _ _ _ Hc) as [-> [Hfresh [Hnew _]]].
  destruct (newTodo_fields _ _ _ _ _ Hnew) as [Hid [_ [Hpar _]]].
  split.
  - unfold UniqueIds. intros Hu. rewrite map_app. simpl.
    apply NoDup_app; auto.
    + constructor; [intros [] | constructor].
    + intros i Hi [<-|[]]. apply in_map_iff in Hi.
      destruct Hi as [x [Hx Hin]].
      assert (existsb (fun t => _id t =? newId) s = true).
      { apply existsb_exists. exists x. split; [exact Hin|].
        apply Nat.eqb_eq. congruence. }
      congruence.
  - intros Hacyc Hstored Hbody.
    assert (Hedge : forall i j,
      parentStep (s ++ [task]) i j ->
      j <> newId /\ (i <> newId -> parentStep s i j)).
    { intros i j. unfold parentStep, parentOf. rewrite findById_app_one.
      destruct (findById s i) as [x|] eqn:Ex.
      - intros Hp. split.
        + intros ->. exact (Hstored x (proj1 (findById_some _ _ _ Ex)) Hp).
        + intros _. exact Hp.
      - rewrite Hid. destruct (newId =? i) eqn:Ei.
        + apply Nat.eqb_eq in Ei. intros Hp. split.
          * intros Hj. apply Hbody. rewrite <- Hpar, Hp, Hj. reflexivity.
          * intros Hne. exfalso. apply Hne. now symmetry.
        + discriminate. }
    assert (Hold : forall a b,
      clos_trans ObjectId (parentStep (s ++ [task])) a b ->
      b <> newId /\ (a <> newId -> clos_trans ObjectId (parentStep s) a b)).
    { intros a b Hab. apply clos_trans_t1n in Hab.
      induction Hab as [a b Hab | a y b Hay _ IH].
      - destruct (Hedge _ _ Hab) as [Hb Hs]. split; [exact Hb|].
        intros Ha. apply t_step. auto.
      - destruct (Hedge _ _ Hay) as [Hy Hs]. destruct IH as [Hb IH].
        split; [exact Hb|]. intros Ha.
        eapply t_trans; [apply t_step; auto | auto]. }
    intros i Hloop. destruct (Hold _ _ Hloop) as [Hne Hs].
    exact (Hacyc i (Hs Hne)).
Qed.

Lemma create_keeps_invariants_witness :
  UniqueIds [plan_release;
             mkTodo 11 "Write tests" false 1 None None None (Some 10) 110 110]
  /\ Acyclic [plan_release;
              mkTodo 11 "Write tests" false 1 None None None (Some 10)
                     110 110].
Proof.
  destruct (create_keeps_invariants [1] 11 110 alice
              (mkCreateBody (Some "Write tests"%string) None None None None
                            (Some 10) None)
              [plan_release]
              (mkTodo 11 "Write tests" false 1 None None None (Some 10)
                      110 110)
              [plan_release;
               mkTodo 11 "Write tests" false 1 None None None (Some 10)
                      110 110]) as [Hu Ha].
  - reflexivity.
  - split.
    + apply Hu. unfold UniqueIds. simpl.
      repeat (constructor; [simpl; intuition discriminate|]). constructor.
    + apply Ha.
      * apply forestb_sound. reflexivity.
      * intros x [<-|[]]. discriminate.
      * discriminate.
Defined.

(** ** updateTask *)

Lemma setField_immutable task update v task' :
  setField task update v = Some task' ->
  createdAt task' = createdAt task /\ team task' = team task /\
  updatedAt task' = updatedAt task.
Proof.
  intros H. setField_cases H v; auto.
Qed.

Lemma applyUpdates_immutable requester body updates :
  forall task task',
    applyUpdates requester body updates task = Some task' ->
    createdAt task' = createdAt task /\ team task' = team task.
Proof.
  induction updates as [|u rest IH]; simpl; intros task task' H.
  - inversion H. auto.
  - destruct (String.eqb u "owner" && negb (isAdmin requester)).
    + auto.
    + destruct (setField task u (lookup body u)) as [t1|] eqn:E;
        [|discriminate].
      destruct (IH _ _ H) as [H1 H2].
      destruct (setField_immutable _ _ _ _ E) as [H3 [H4 _]].
      split; congruence.
Qed.

(** What an answered update returns and writes. *)
Lemma updateTask_ok fuel now requester id body s saved s' :
  updateTask fuel now requester id body s = Some (Ok saved, s') ->
  exists task task',
    isValidOperation body = true
    /\ fetch requester s id = Some task
    /\ parentChecks fuel s task (lookup body "parentTask") = Some None
    /\ applyUpdates requester body (keys body) task = Some task'
    /\ save now task task' s = (saved, s').
Proof.
  unfold updateTask.
  destruct (isValidOperation body) eqn:Ev; [|discriminate]. simpl.
  destruct (fetch requester s id) as [task|] eqn:Ef; [|discriminate].
  destruct (parentChecks fuel s task (lookup body "parentTask"))
    as [[e|]|] eqn:Ep; try discriminate.
  unfold applyAndSave.
  destruct (applyUpdates requester body (keys body) task) as [task'|] eqn:E;
    [|discriminate].
  destruct (save now task task' s) as [sv s1] eqn:Es.
  intros H. inversion H; subst. exists task, task'.
  repeat split; auto.
Qed.

(** X6.  An update that is answered with an error, whichever it is,
    leaves the store as it was. *)
Theorem update_failure_keeps_store :
  forall fuel now requester id body s e s',
    updateTask fuel now requester id body s = Some (Err e, s') -> s' = s.
Proof.
  intros fuel now requester id body s e s'. unfold updateTask.
  destruct (negb (isValidOperation body)); [intros H; now inversion H|].
  destruct (fetch requester s id) as [task|]; [|intros H; now inversion H].
  destruct (parentChecks fuel s task (lookup body "parentTask"))
    as [[e0|]|]; try discriminate.
  - intros H. now inversion H.
  - unfold applyAndSave.
    destruct (applyUpdates requester body (keys body) task) as [task'|].
    + destruct (save now task task' s). discriminate.
    + intros H. now inversion H.
Qed.

Lemma update_failure_keeps_store_witness :
  updateTask 0 200 alice 10 [("text", VStr "  ")]%string [plan_release]
  = Some (Err ValidationError, [plan_release]).
Proof.
  assert (H : updateTask 0 200 alice 10 [("text", VStr "  ")]%string
                [plan_release]
              = Some (Err ValidationError,
                      snd (applyAndSave 200 alice [("text", VStr "  ")]%string
                             plan_release [plan_release])))
    by reflexivity.
  rewrite (update_failure_keeps_store 0 200 alice 10
             [("text", VStr "  ")]%string [plan_release] ValidationError _ H)
    in H.
  exact H.
Defined.

(** X7.  An answered update never touches the id, the creation time or
    the team of the task, writes no other document and neither adds nor
    removes one; with unique ids the stored task is afterwards the record
    answered. *)
Theorem update_frame :
  forall fuel now requester id body s saved s',
    updateTask fuel now requester id body s = Some (Ok saved, s') ->
    exists task,
      fetch requester s id = Some task
      /\ _id saved = id
      /\ createdAt saved = createdAt task
      /\ team saved = team task
      /\ map _id s' = map _id s
      /\ (forall j, j <> id -> findById s' j = findById s j)
      /\ (UniqueIds s -> findById s' id = Some saved).
Proof.
  intros fuel now requester id body s saved s' H.
  destruct (updateTask_ok _ _ _ _ _ _ _ _ H)
    as [task [task' [_ [Hfetch [_ [Happ Hsave]]]]]].
  exists task. split; [exact Hfetch|].
  destruct (fetch_some _ _ _ _ Hfetch) as [Hin Hid].
  pose proof (applyUpdates_id _ _ _ _ _ Happ) as Hid'.
  destruct (applyUpdates_immutable _ _ _ _ _ Happ) as [Hc Ht].
  unfold save in Hsave.
  destruct (Todo_eq_dec task task') as [Heq|Hne];
    injection Hsave as Hsaved Hs'; subst saved s'.
  - repeat split; auto.
    intros Hu. rewrite <- Hid. now apply findById_unique.
  - simpl. repeat split; try congruence.
    + apply replaceDoc_ids.
    + intros j Hj. rewrite findById_replaceDoc. simpl.
      destruct (j =? _id task') eqn:E; [|reflexivity].
      apply Nat.eqb_eq in E. congruence.
    + intros Hu. rewrite findById_replaceDoc. simpl.
      rewrite Hid', Hid, Nat.eqb_refl.
      rewrite <- Hid, (findById_unique s task Hu Hin). reflexivity.
Qed.

Lemma update_frame_witness :
  exists task,
    fetch alice [plan_release; write_tests] 11 = Some task
    /\ _id (mkTodo 11 "Test more" false 1 None None None (Some 10) 110 200)
       = 11.
Proof.
  destruct (update_frame 0 200 alice 11 [("text", VStr "Test more")]%string
              [plan_release; write_tests]
              (mkTodo 11 "Test more" false 1 None None None (Some 10) 110 200)
              [plan_release;
               mkTodo 11 "Test more" false 1 None None None (Some 10) 110 200])
    as [task [Hf [Hid _]]].
  - reflexivity.
  - exists task. auto.
Defined.

Lemma fetch_iff requester s id t :
  UniqueIds s ->
  (fetch requester s id = Some t <->
   In t s /\ _id t = id /\
   (isAdmin requester = true \/ owner t = user_id requester)).
Proof.
  intros Hu. unfold fetch. destruct (isAdmin requester) eqn:Hrole.
  - split.
    + intros H. destruct (findById_some _ _ _ H). auto.
    + intros [Hin [Hid _]]. rewrite <- Hid. now apply findById_unique.
  - split.
    + intros H. destruct (findOneOwned_some _ _ _ _ H) as [? [? ?]]. auto.
    + intros [Hin [Hid [Hc|Ho]]]; [discriminate|].
      rewrite <- Hid, <- Ho. now apply findOneOwned_unique.
Qed.

Lemma updateTask_stored fuel now requester id body s saved s' :
  UniqueIds s ->
  updateTask fuel now requester id body s = Some (Ok saved, s') ->
  UniqueIds s' /\ In saved s' /\ _id saved = id.
Proof.
  intros Hu H.
  pose proof (update_preserves_unique_ids _ _ _ _ _ _ _ _ Hu H) as Hu'.
  destruct (updateTask_ok _ _ _ _ _ _ _ _ H)
    as [task [task' [_ [Hfetch [_ [Happ Hsave]]]]]].
  destruct (fetch_some _ _ _ _ Hfetch) as [Hin Hid].
  pose proof (applyUpdates_id _ _ _ _ _ Happ) as Hid'.
  split; [exact Hu'|].
  unfold save in Hsave.
  destruct (Todo_eq_dec task task') as [Heq|Hne];
    injection Hsave as Hsaved Hs'; subst saved s'.
  - auto.
  - simpl. split; [|congruence].
    assert (Hf : findById
                   (replaceDoc
                      (mkTodo (_id task') (text task') (completed task')
                              (owner task') (dueDate task') (tag task')
                              (team task') (parentTask task')
                              (createdAt task') now) s) id
                 = Some (mkTodo (_id task') (text task') (completed task')
                              (owner task') (dueDate task') (tag task')
                              (team task') (parentTask task')
                              (createdAt task') now)).
    { rewrite findById_replaceDoc. simpl.
      rewrite Hid', Hid, Nat.eqb_refl.
      rewrite <- Hid, (findById_unique s task Hu Hin). reflexivity. }
    exact (proj1 (findById_some _ _ _ Hf)).
Qed.

(** X8.  With unique ids, the requester of an answered update gets, by a
    following getTaskById on the same id, exactly the record the update
    answered. *)
Theorem update_then_get :
  forall fuel now requester id body s saved s',
    UniqueIds s ->
    updateTask fuel now requester id body s = Some (Ok saved, s') ->
    getTaskById requester id s' = Ok saved.
Proof.
  intros fuel now requester id body s saved s' Hu H.
  destruct (updateTask_stored _ _ _ _ _ _ _ _ Hu H) as [Hu' [Hin Hid]].
  unfold getTaskById.
  assert (Hf : fetch requester s' id = Some saved).
  { apply (fetch_iff requester s' id saved Hu'). split; [exact Hin|].
    split; [exact Hid|].
    destruct (isAdmin requester) eqn:Hrole; [now left | right].
    destruct (updateTask_ok _ _ _ _ _ _ _ _ H)
      as [task [task' [_ [Hfetch [_ [Happ Hsave]]]]]].
    apply save_fields in Hsave. destruct Hsave as [_ [Ho _]].
    rewrite Ho, (applyUpdates_owner _ _ _ Hrole _ _ Happ).
    exact (fetch_owned _ _ _ _ Hrole Hfetch). }
  now rewrite Hf.
Qed.

Lemma update_then_get_witness :
  getTaskById alice 11
    [plan_release;
     mkTodo 11 "Test more" false 1 None None None (Some 10) 110 200]
  = Ok (mkTodo 11 "Test more" false 1 None None None (Some 10) 110 200).
Proof.
  apply (update_then_get 0 200 alice 11 [("text", VStr "Test more")]%string
           [plan_release; write_tests]).
  - unfold UniqueIds. simpl.
    repeat (constructor; [simpl; intuition discriminate|]). constructor.
  - reflexivity.
Defined.

Lemma applyUpdates_owner_kept requester body updates :
  includes updates "owner" = false ->
  forall task task',
    applyUpdates requester body updates task = Some task' ->
    owner task' = owner task.
Proof.
  induction updates as [|u rest IH]; intros Hno task task' H.
  - inversion H. reflexivity.
  - rewrite includes_cons in Hno. apply orb_false_iff in Hno.
    destruct Hno as [Hu Hrest]. rewrite String.eqb_sym in Hu.
    cbn [applyUpdates] in H. rewrite Hu in H. simpl in H.
    destruct (setField task u (lookup body u)) as [t1|] eqn:E;
      [|discriminate].
    rewrite (IH Hrest _ _ H). eapply setField_owner; eauto.
Qed.

Lemma setField_owner_set task v task' :
  setField task "owner" v = Some task' -> castId v = Some (owner task').
Proof.
  destruct v as [[| | | | |]|]; simpl; intros H; inversion H; reflexivity.
Qed.

Lemma applyUpdates_owner_set requester body o updates :
  isAdmin requester = true ->
  castId (lookup body "owner") = Some o ->
  includes updates "owner" = true ->
  forall task task',
    applyUpdates requester body updates task = Some task' ->
    owner task' = o.
Proof.
  intros Hrole Hl.
  induction updates as [|u rest IH]; intros Hin task task' H;
    [discriminate|].
  rewrite includes_cons in Hin. cbn [applyUpdates] in H.
  rewrite Hrole in H. cbn [negb] in H. rewrite andb_false_r in H.
  destruct (setField task u (lookup body u)) as [t1|] eqn:E; [|discriminate].
  destruct (includes rest "owner") eqn:Er.
  - exact (IH eq_refl _ _ H).
  - rewrite orb_false_r in Hin. apply String.eqb_eq in Hin. subst u.
    rewrite (applyUpdates_owner_kept _ _ _ Er _ _ H).
    apply setField_owner_set in E. congruence.
Qed.

(** X9.  When an administrator submits an owner, the stored task carries
    the named id, no matter whether such a user exists.  The body sent is
    the populated view of that task: it shows the user when there is one
    and null as the owner when there is none.  Afterwards the named user
    can fetch the task and every other non-administrator is answered not
    found, the former owner included. *)
Theorem update_admin_reassigns :
  forall users fuel now requester id body s saved s' o,
    isAdmin requester = true ->
    UniqueIds s ->
    castId (lookup body "owner") = Some o ->
    updateTask fuel now requester id body s = Some (Ok saved, s') ->
    findById s' id = Some saved
    /\ owner saved = o
    /\ populatedTask users s' id = Some (populate users s' saved)
    /\ (In o users ->
        populatedOwner (populate users s' saved) = Some o)
    /\ (~ In o users ->
        populatedOwner (populate users s' saved) = None)
    /\ (forall someone,
          isAdmin someone = false ->
          getTaskById someone id s' =
            if user_id someone =? o then Ok saved else Err NotFound).
Proof.
  intros users fuel now requester id body s saved s' o Hrole Hu Hl H.
  destruct (updateTask_stored _ _ _ _ _ _ _ _ Hu H) as [Hu' [Hin Hid]].
  destruct (updateTask_ok _ _ _ _ _ _ _ _ H)
    as [task [task' [_ [_ [_ [Happ Hsave]]]]]].
  assert (Ho : owner saved = o).
  { apply save_fields in Hsave. destruct Hsave as [_ [Ho _]]. rewrite Ho.
    exact (applyUpdates_owner_set _ _ _ _ Hrole Hl
             (castId_in_keys _ _ _ Hl) _ _ Happ). }
  assert (Hfind : findById s' id = Some saved).
  { rewrite <- Hid. now apply findById_unique. }
  split; [exact Hfind|]. split; [exact Ho|]. split.
  { unfold populatedTask. rewrite Hfind. reflexivity. }
  split; [|split].
  - intros Hknown. unfold populate. cbn [populatedOwner]. rewrite Ho.
    assert (Hex : existsb (Nat.eqb o) users = true).
    { apply existsb_exists. exists o. split; [exact Hknown|].
      apply Nat.eqb_refl. }
    now rewrite Hex.
  - intros Hunknown. unfold populate. cbn [populatedOwner]. rewrite Ho.
    destruct (existsb (Nat.eqb o) users) eqn:Hex; [|reflexivity].
    exfalso. apply Hunknown. apply existsb_exists in Hex.
    destruct Hex as [x [Hx Heq]]. apply Nat.eqb_eq in Heq. now subst.
  - intros someone Hnot. unfold getTaskById.
    destruct (user_id someone =? o) eqn:E.
    + apply Nat.eqb_eq in E.
      assert (Hf : fetch someone s' id = Some saved).
      { apply (fetch_iff someone s' id saved Hu'). repeat split; auto.
        right. congruence. }
      now rewrite Hf.
    + apply Nat.eqb_neq in E.
      destruct (fetch someone s' id) as [t|] eqn:Hf; [|reflexivity].
      exfalso. apply (fetch_iff someone s' id t Hu') in Hf.
      destruct Hf as [Ht [Hidt [Hc|Hot]]]; [congruence|].
      assert (t = saved)
        by (apply (same_id_same_doc s' t saved Hu' Ht Hin); congruence).
      subst t. congruence.
Qed.

Lemma update_admin_reassigns_witness :
  owner (mkTodo 10 "Plan release" false 77 None None None None 100 200) = 77
  /\ populatedTask [1; 2]
       [mkTodo 10 "Plan release" false 77 None None None None 100 200] 10
     = Some (mkPopulatedTask
               (mkTodo 10 "Plan release" false 77 None None None None 100 200)
               None None)
  /\ getTaskById alice 10
       [mkTodo 10 "Plan release" false 77 None None None None 100 200]
     = Err NotFound.
Proof.
  destruct (update_admin_reassigns [1; 2] 0 200 root_admin 10
              [("owner", VId 77)]%string [plan_release]
              (mkTodo 10 "Plan release" false 77 None None None None 100 200)
              [mkTodo 10 "Plan release" false 77 None None None None 100 200]
              77) as [_ [Ho [Hsent [_ [_ Hget]]]]].
  - reflexivity.
  - unfold UniqueIds. simpl.
    repeat (constructor; [simpl; intuition discriminate|]). constructor.
  - reflexivity.
  - reflexivity.
  - split; [exact Ho|]. split; [rewrite Hsent; reflexivity|].
    exact (Hget alice eq_refl).
Defined.

(** ** deleteTask *)

Lemma filter_nothing (p : Todo -> bool) l :
  (forall x, In x l -> p x = false) -> filter p l = [].
Proof.
  induction l as [|h r IH]; simpl; intros H; [reflexivity|].
  rewrite (H h (or_introl eq_refl)). apply IH. auto.
Qed.

Lemma removeFirst_no_match (p : Todo -> bool) s :
  (forall x, In x s -> p x = false) -> removeFirst p s = (None, s).
Proof.
  induction s as [|h r IH]; simpl; intros H; [reflexivity|].
  rewrite (H h (or_introl eq_refl)). rewrite IH; auto.
Qed.

Lemma deleteFilter_matches um requester t :
  ownerMatches um (deleteFilter requester) t = true <->
  isAdmin requester = true \/ owner t = user_id requester.
Proof.
  unfold deleteFilter. destruct (isAdmin requester); simpl.
  - tauto.
  - rewrite Nat.eqb_eq. split; [auto | intros [H|H]; [discriminate | auto]].
Qed.

Lemma deleteTask_inv um fuel requester id s ans s' log :
  deleteTask um fuel requester id s = Some (ans, s', log) ->
  exists d,
    findOneAndDelete um fuel id (deleteFilter requester) s = Some (d, s', log)
    /\ ans = match d with Some t => Ok t | None => Err NotFound end.
Proof.
  unfold deleteTask.
  destruct (findOneAndDelete um fuel id (deleteFilter requester) s)
    as [[[[t|] s1] lg]|]; intros H; inversion H; subst; eauto.
Qed.

(** What a delete does when its filter matches the stored task [R]. *)
Lemma delete_run_found um fuel requester id s R :
  UniqueIds s -> Acyclic s -> List.length s < fuel ->
  fetch requester s id = Some R ->
  exists s' log,
    findOneAndDelete um fuel id (deleteFilter requester) s
    = Some (Some R, s', log)
    /\ UniqueIds s'
    /\ (forall x, In x s' <->
                  In x s /\ x <> R /\
                  ~ Cascaded um (hookOwner (deleteFilter requester)) s id x).
Proof.
  intros Hu Hacyc Hfuel Hfetch.
  destruct (fetch_some _ _ _ _ Hfetch) as [HR Hid].
  pose proof (fetch_matches um _ _ _ _ Hfetch) as Hm.
  assert (HnotR : ~ Cascaded um (hookOwner (deleteFilter requester)) s id R).
  { intros Hc. apply (Hacyc id).
    pose proof (Cascaded_path um _ s id R Hu Hc) as Hp.
    now rewrite Hid in Hp. }
  destruct (findOneAndDelete_runs um s Hu Hacyc fuel id
              (deleteFilter requester) s [])
    as [[[d s'] lg] Hrun]; auto.
  { apply incl_refl. }
  { constructor. }
  { intros a []. }
  { intros a []. }
  destruct (findOneAndDelete_spec um _ _ _ _ _ _ _ Hu Hrun)
    as [[Hstore [Hu' _]] [_ Hfound]].
  rewrite (Hfound R HR Hm HnotR) in Hrun.
  exists s', lg. split; [exact Hrun|]. split; [exact Hu'|].
  intros x. rewrite Hstore. unfold Removed. split.
  - intros [Hx Hn]. split; [exact Hx|]. split.
    + intros ->. apply Hn. left. now apply (matchesQuery_true um).
    + intros Hc. apply Hn. now right.
  - intros [Hx [Hne Hn]]. split; [exact Hx|].
    intros [[Hidx _]|Hc]; [|contradiction].
    apply Hne. apply (same_id_same_doc s x R Hu Hx HR). congruence.
Qed.

(** X10.  A delete whose filter matches no task is answered not found,
    yet its hook has run before: on a forest with unique ids the documents
    that hang below the requested id by a chain satisfying the hook's
    owner condition are removed all the same, and only they. *)
Theorem delete_not_found_still_cascades :
  forall um fuel requester id s,
    UniqueIds s -> Acyclic s -> List.length s < fuel ->
    fetch requester s id = None ->
    let h := hookOwner (deleteFilter requester) in
    exists s' log,
      deleteTask um fuel requester id s = Some (Err NotFound, s', log)
      /\ (forall x, In x s' <-> In x s /\ ~ Cascaded um h s id x)
      /\ (forall x, Cascaded um h s id x -> In (_id x) log).
Proof.
  intros um fuel requester id s Hu Hacyc Hfuel Hfetch h.
  destruct (findOneAndDelete_runs um s Hu Hacyc fuel id
              (deleteFilter requester) s [])
    as [[[d s'] lg] Hrun]; auto.
  { apply incl_refl. }
  { constructor. }
  { intros a []. }
  { intros a []. }
  destruct (findOneAndDelete_spec um _ _ _ _ _ _ _ Hu Hrun)
    as [[Hstore [_ [Hlog _]]] [Hd _]].
  assert (Hnomatch : forall x, In x s ->
            ~ (_id x = id /\
               ownerMatches um (deleteFilter requester) x = true)).
  { intros x Hx [Hidx Hm].
    assert (Hf : fetch requester s id = Some x).
    { apply (fetch_iff requester s id x Hu). repeat split; auto.
      now apply (deleteFilter_matches um). }
    congruence. }
  assert (Hnone : d = None).
  { destruct d as [t|]; [|reflexivity]. exfalso.
    destruct Hd as [Ht [Hm _]]. apply matchesQuery_true in Hm.
    exact (Hnomatch t Ht Hm). }
  subst d.
  assert (Hstore' : forall x, In x s' <-> In x s /\ ~ Cascaded um h s id x).
  { intros x. rewrite Hstore. unfold Removed. fold h. split.
    - intros [Hx Hn]. split; [exact Hx|]. intros Hc. apply Hn. now right.
    - intros [Hx Hn]. split; [exact Hx|].
      intros [Hroot|Hc]; [exact (Hnomatch x Hx Hroot) | contradiction]. }
  exists s', lg. split; [|split].
  - unfold deleteTask. rewrite Hrun. reflexivity.
  - exact Hstore'.
  - intros x Hc. apply Hlog. exists x.
    split; [eapply Cascaded_in; eauto|]. split; [reflexivity|].
    intros Hx. apply Hstore' in Hx. tauto.
Qed.

Lemma delete_not_found_still_cascades_witness :
  exists s' log,
    deleteTask (fun _ => true) 3 bob 10 [plan_release; bobs_subtask]
    = Some (Err NotFound, s', log)
    /\ In 11 log.
Proof.
  destruct (delete_not_found_still_cascades (fun _ => true) 3 bob 10
              [plan_release; bobs_subtask])
    as [s' [log [Hrun [_ Hlog]]]].
  - unfold UniqueIds. simpl.
    repeat (constructor; [simpl; intuition discriminate|]). constructor.
  - apply forestb_sound. reflexivity.
  - simpl. lia.
  - reflexivity.
  - exists s', log. split; [exact Hrun|].
    apply (Hlog bobs_subtask). apply cascaded_child.
    + simpl. auto.
    + reflexivity.
    + reflexivity.
Defined.

(** X11.  With unique ids, repeating a delete that was answered with the
    task is answered not found, removes nothing and logs nothing, for any
    positive depth of recursion. *)
Theorem delete_retry_not_found :
  forall um fuel requester id s R s' log,
    UniqueIds s ->
    deleteTask um fuel requester id s = Some (Ok R, s', log) ->
    forall fuel', 0 < fuel' ->
      deleteTask um fuel' requester id s' = Some (Err NotFound, s', []).
Proof.
  intros um fuel requester id s R s' log Hu Hdel fuel' Hpos.
  destruct (deleteTask_inv _ _ _ _ _ _ _ _ Hdel) as [d [Hrun Hans]].
  destruct (findOneAndDelete_spec um _ _ _ _ _ _ _ Hu Hrun)
    as [[Hstore _] [Hd _]].
  destruct d as [t|]; [|discriminate]. inversion Hans; subst t. clear Hans.
  destruct Hd as [HR [Hm _]].
  pose proof (proj1 (matchesQuery_true um _ _ _) Hm) as [Hid HmR].
  assert (Hchildren :
    filter (isChildOf um id (deleteFilter requester)) s' = []).
  { apply filter_nothing. intros x Hx.
    destruct (isChildOf um id (deleteFilter requester) x) eqn:E;
      [|reflexivity].
    exfalso. apply Hstore in Hx. destruct Hx as [Hxs Hn]. apply Hn. right.
    unfold isChildOf in E. apply andb_true_iff in E. destruct E as [Hp Hmx].
    apply cascaded_child; auto.
    destruct (parentTask x) as [p|]; simpl in Hp; [|discriminate].
    apply Nat.eqb_eq in Hp. now subst. }
  assert (Hnomatch : forall x, In x s' ->
            matchesQuery um id (deleteFilter requester) x = false).
  { intros x Hx.
    destruct (matchesQuery um id (deleteFilter requester) x) eqn:E;
      [|reflexivity].
    exfalso. apply Hstore in Hx. destruct Hx as [_ Hn]. apply Hn. left.
    now apply matchesQuery_true. }
  destruct fuel' as [|f]; [lia|].
  unfold deleteTask. cbn [findOneAndDelete].
  rewrite Hchildren. cbn [forEachChild].
  rewrite (removeFirst_no_match _ _ Hnomatch). reflexivity.
Qed.

Lemma delete_retry_not_found_witness :
  deleteTask (fun _ => true) 1 alice 10 []
  = Some (Err NotFound, [], []).
Proof.
  apply (delete_retry_not_found (fun _ => true) 4 alice 10
           [plan_release; write_tests; design_review] plan_release []
           [12; 11; 10]).
  - unfold UniqueIds. simpl.
    repeat (constructor; [simpl; intuition discriminate|]). constructor.
  - reflexivity.
  - lia.
Defined.

(** X12.  Whatever a delete is answered with, it only takes documents
    out: the store afterwards is part of the one before, the ids stay
    unique, a forest stays a forest, and the log names each document that
    left exactly once. *)
Theorem delete_keeps_invariants :
  forall um fuel requester id s answer s' log,
    UniqueIds s ->
    deleteTask um fuel requester id s = Some (answer, s', log) ->
    incl s' s
    /\ UniqueIds s'
    /\ (Acyclic s -> Acyclic s')
    /\ NoDup log
    /\ (forall i, In i log <-> exists x, In x s /\ _id x = i /\ ~ In x s').
Proof.
  intros um fuel requester id s answer s' log Hu Hdel.
  destruct (deleteTask_inv _ _ _ _ _ _ _ _ Hdel) as [d [Hrun _]].
  destruct (findOneAndDelete_spec um _ _ _ _ _ _ _ Hu Hrun)
    as [[Hstore [Hu' [Hlog Hnd]]] _].
  assert (Hincl : incl s' s) by (intros x Hx; apply Hstore in Hx; tauto).
  split; [exact Hincl|]. split; [exact Hu'|]. split; [|split; assumption].
  apply acyclic_subrelation. intros i j. unfold parentStep, parentOf.
  destruct (findById s' i) as [x|] eqn:E; [|discriminate].
  destruct (findById_some _ _ _ E) as [Hx Hid].
  rewrite <- Hid, (findById_unique s x Hu (Hincl x Hx)). auto.
Qed.

Lemma delete_keeps_invariants_witness :
  incl [bobs_subtask; design_review]
       [plan_release; bobs_subtask; design_review]
  /\ UniqueIds [bobs_subtask; design_review].
Proof.
  destruct (delete_keeps_invariants (fun _ => true) 4 alice 10
              [plan_release; bobs_subtask; design_review]
              (Ok plan_release) [bobs_subtask; design_review] [10])
    as [Hincl [Hu _]].
  - unfold UniqueIds. simpl.
    repeat (constructor; [simpl; intuition discriminate|]). constructor.
  - reflexivity.
  - split; assumption.
Defined.

Lemma Below_Cascaded um h s id :
  UniqueIds s ->
  (forall x, Below s id x -> ownerMatches um h x = true) ->
  forall x, Below s id x -> Cascaded um h s id x.
Proof.
  intros Hu Hall x [Hx Hpath].
  apply clos_trans_t1n in Hpath.
  remember (_id x) as a eqn:Ha. revert x Hx Ha.
  induction Hpath as [a b Hab | a y b Hay Hyb IH]; intros x Hx Ha; subst a.
  - apply cascaded_child; auto.
    + unfold parentStep, parentOf in Hab.
      now rewrite (findById_unique s x Hu Hx) in Hab.
    + apply Hall. split; [exact Hx|]. now apply t_step.
  - pose proof Hay as Hay'.
    unfold parentStep, parentOf in Hay.
    rewrite (findById_unique s x Hu Hx) in Hay.
    assert (Hy : exists u, findById s y = Some u).
    { inversion Hyb as [z Hz | z w Hz _]; subst;
        destruct (parentStep_inv _ _ _ Hz) as [c [Hc _]]; eauto. }
    destruct Hy as [u Hfu]. destruct (findById_some _ _ _ Hfu) as [Hus Hidu].
    apply cascaded_below with (u := u).
    + apply IH; auto.
    + exact Hx.
    + congruence.
    + apply Hall. split; [exact Hx|].
      eapply t_trans; [apply t_step; exact Hay'|].
      now apply clos_t1n_trans.
Qed.

(** X13.  When every document below the deleted task satisfies the hook's
    owner condition (for a user: the whole subtree is the user's own), the
    delete removes the task with its entire subtree and nothing else, and a
    store in which every parent pointer named a stored task is again such
    a store: no orphan is left. *)
Theorem delete_whole_subtree :
  forall um fuel requester id s R,
    UniqueIds s -> Acyclic s -> List.length s < fuel ->
    fetch requester s id = Some R ->
    (forall x, Below s id x ->
               ownerMatches um (hookOwner (deleteFilter requester)) x = true) ->
    exists s' log,
      deleteTask um fuel requester id s = Some (Ok R, s', log)
      /\ (forall x, In x s' <-> In x s /\ x <> R /\ ~ Below s id x)
      /\ (ParentsExist s -> ParentsExist s').
Proof.
  intros um fuel requester id s R Hu Hacyc Hfuel Hfetch Hall.
  destruct (delete_run_found um fuel requester id s R Hu Hacyc Hfuel Hfetch)
    as [s' [log [Hrun [Hu' Hstore]]]].
  destruct (fetch_some _ _ _ _ Hfetch) as [HR Hid].
  assert (Hstore' : forall x, In x s' <-> In x s /\ x <> R /\ ~ Below s id x).
  { intros x. rewrite Hstore. split.
    - intros [Hx [Hne Hn]]. repeat split; auto.
      intros Hb. apply Hn. eapply Below_Cascaded; eauto.
    - intros [Hx [Hne Hn]]. repeat split; auto.
      intros Hc. apply Hn. split; [exact Hx|].
      eapply Cascaded_path; eauto. }
  exists s', log. split; [|split].
  - unfold deleteTask. rewrite Hrun. reflexivity.
  - exact Hstore'.
  - intros Hclosed x p Hx Hp.
    pose proof (proj1 (Hstore' x) Hx) as [Hxs [HxR HxB]].
    destruct (Hclosed x p Hxs Hp) as [u Hfu].
    destruct (findById_some _ _ _ Hfu) as [Hus Hidu].
    destruct (in_dec Todo_eq_dec u s') as [Hu1|Hu1].
    + exists u. rewrite <- Hidu. now apply findById_unique.
    + exfalso.
      assert (Hstep : parentStep s (_id x) (_id u)).
      { unfold parentStep, parentOf.
        rewrite (findById_unique s x Hu Hxs). congruence. }
      assert (Hnn : ~ ~ (u = R \/ Below s id u)).
      { intros Hn. apply Hu1. apply Hstore'. repeat split; auto. }
      apply Hnn. intros [->|[_ Hpath]]; apply HxB; split; auto.
      * rewrite <- Hid. now apply t_step.
      * eapply t_trans; [apply t_step; exact Hstep | exact Hpath].
Qed.

Lemma delete_whole_subtree_witness :
  exists s' log,
    deleteTask (fun _ => true) 4 alice 10
      [plan_release; write_tests; design_review]
    = Some (Ok plan_release, s', log)
    /\ (ParentsExist [plan_release; write_tests; design_review] ->
        ParentsExist s').
Proof.
  destruct (delete_whole_subtree (fun _ => true) 4 alice 10
              [plan_release; write_tests; design_review] plan_release)
    as [s' [log [Hrun [_ Hclosed]]]].
  - unfold UniqueIds. simpl.
    repeat (constructor; [simpl; intuition discriminate|]). constructor.
  - apply forestb_sound. reflexivity.
  - simpl. lia.
  - reflexivity.
  - intros x [Hx _]. simpl in Hx.
    destruct Hx as [<-|[<-|[<-|[]]]]; reflexivity.
  - exists s', log. split; assumption.
Defined.

(** * Teams *)

(** ** getTasksForTeam *)

Lemma isMember_In u tm : isMember u tm = true <-> In u (members tm).
Proof.
  unfold isMember. rewrite existsb_exists. split.
  - intros [x [Hx Heq]]. apply Nat.eqb_eq in Heq. now subst.
  - intros H. exists u. split; [exact H | apply Nat.eqb_refl].
Qed.

Lemma teamTask_true teamId tm t :
  teamTask teamId tm t = true <->
  team t = Some teamId \/ In (owner t) (members tm).
Proof.
  unfold teamTask. rewrite orb_true_iff, isMember_In.
  destruct (team t) as [x|].
  - rewrite Nat.eqb_eq. split; (intros [H|H]; [left | right; exact H]).
    + now subst.
    + now inversion H.
  - split; (intros [H|H]; [discriminate | right; exact H]).
Qed.

Lemma sortTasks_In l t : In t (sortTasks l) <-> In t l.
Proof.
  split; intros H.
  - eapply Permutation_in; [apply Permutation_sym, sortTasks_perm | exact H].
  - eapply Permutation_in; [apply sortTasks_perm | exact H].
Qed.

(** X14.  For a stored team, the team listing is refused to a requester
    who is neither an administrator nor a member, and otherwise holds
    exactly the stored tasks whose team is the requested one or whose
    owner is a member, ordered like every listing. *)
Theorem team_listing :
  forall teams requester teamId s tm,
    findTeamById teams teamId = Some tm ->
    (isAdmin requester = false -> ~ In (user_id requester) (members tm) ->
     getTasksForTeam teams requester teamId s = Refused RequesterNotInTeam)
    /\ (isAdmin requester = true \/ In (user_id requester) (members tm) ->
        exists l,
          getTasksForTeam teams requester teamId s = Sent l
          /\ Permutation (filter (teamTask teamId tm) s) l
          /\ StronglySorted listOrder l
          /\ (forall t, In t l <->
                        In t s /\
                        (team t = Some teamId \/ In (owner t) (members tm)))).
Proof.
  intros teams requester teamId s tm Hteam. unfold getTasksForTeam.
  rewrite Hteam. split.
  - intros Hrole Hnot.
    destruct (isMember (user_id requester) tm) eqn:E.
    + apply isMember_In in E. contradiction.
    + rewrite Hrole. reflexivity.
  - intros Hwho.
    assert (Hgate : negb (isAdmin requester)
                    && negb (isMember (user_id requester) tm) = false).
    { destruct Hwho as [H|H].
      - rewrite H. reflexivity.
      - apply isMember_In in H. rewrite H. apply andb_false_r. }
    rewrite Hgate. eexists. split; [reflexivity|].
    split; [apply sortTasks_perm|]. split; [apply sortTasks_sorted|].
    intros t. rewrite sortTasks_In, filter_In, teamTask_true. tauto.
Qed.

Lemma team_listing_witness :
  getTasksForTeam [release_team] alice 50 [plan_release; bobs_subtask]
  = Refused RequesterNotInTeam.
Proof.
  destruct (team_listing [release_team] alice 50
              [plan_release; bobs_subtask] release_team) as [Hno _].
  - reflexivity.
  - apply Hno; [reflexivity|]. simpl. intuition discriminate.
Defined.

(** X15.  For a member who is not an administrator the team listing
    holds all the tasks of the member's own listing, and it holds every
    stored task of another member although getTaskById answers not found
    for it and the member's own listing leaves it out. *)
Theorem team_listing_shows_hidden_tasks :
  forall teams requester teamId s tm,
    findTeamById teams teamId = Some tm ->
    isAdmin requester = false ->
    In (user_id requester) (members tm) ->
    exists l,
      getTasksForTeam teams requester teamId s = Sent l
      /\ (forall t, In t (getTasks requester s) -> In t l)
      /\ (forall t,
            UniqueIds s -> In t s ->
            owner t <> user_id requester ->
            In (owner t) (members tm) ->
            In t l
            /\ getTaskById requester (_id t) s = Err NotFound
            /\ ~ In t (getTasks requester s)).
Proof.
  intros teams requester teamId s tm Hteam Hrole Hmem.
  unfold getTasksForTeam. rewrite Hteam, Hrole.
  rewrite (proj2 (isMember_In _ _) Hmem). simpl.
  eexists. split; [reflexivity|].
  assert (Hown : forall t, In t (getTasks requester s) ->
                           In t s /\ owner t = user_id requester).
  { intros t. unfold getTasks. rewrite Hrole, sortTasks_In, filter_In.
    rewrite Nat.eqb_eq. tauto. }
  split.
  - intros t Ht. destruct (Hown t Ht) as [Hin Ho].
    rewrite sortTasks_In, filter_In, teamTask_true. split; [exact Hin|].
    right. now rewrite Ho.
  - intros t Hu Hin Hne Hom. split; [|split].
    + rewrite sortTasks_In, filter_In, teamTask_true. auto.
    + unfold getTaskById.
      destruct (fetch requester s (_id t)) as [x|] eqn:E; [|reflexivity].
      exfalso. apply (fetch_iff requester s (_id t) x Hu) in E.
      destruct E as [Hx [Hid [Hc|Ho]]]; [congruence|].
      assert (x = t) by (apply (same_id_same_doc s x t Hu Hx Hin Hid)).
      subst x. contradiction.
    + intros Ht. destruct (Hown t Ht) as [_ Ho]. contradiction.
Qed.

Lemma team_listing_shows_hidden_tasks_witness :
  exists l,
    getTasksForTeam [mkTeam 50 "Release" None [1; 2] (Some 9) 10 10]
      alice 50 [plan_release; bobs_subtask] = Sent l
    /\ In bobs_subtask l
    /\ getTaskById alice 11 [plan_release; bobs_subtask] = Err NotFound.
Proof.
  destruct (team_listing_shows_hidden_tasks
              [mkTeam 50 "Release" None [1; 2] (Some 9) 10 10] alice 50
              [plan_release; bobs_subtask]
              (mkTeam 50 "Release" None [1; 2] (Some 9) 10 10))
    as [l [Hl [_ Hhidden]]].
  - reflexivity.
  - reflexivity.
  - simpl. auto.
  - destruct (Hhidden bobs_subtask) as [Hin [Hget _]].
    + unfold UniqueIds. simpl.
      repeat (constructor; [simpl; intuition discriminate|]). constructor.
    + simpl. auto.
    + discriminate.
    + simpl. auto.
    + exists l. auto.
Defined.

(** ** The team controller *)

Lemma findTeamById_some teams i t :
  findTeamById teams i = Some t -> In t teams /\ team_id t = i.
Proof.
  unfold findTeamById. intros H. apply find_some in H.
  destruct H as [Hin Heq]. apply Nat.eqb_eq in Heq. auto.
Qed.

Lemma findTeamById_replaceTeam t teams i :
  findTeamById (replaceTeam t teams) i =
    if i =? team_id t
    then match findTeamById teams i with Some _ => Some t | None => None end
    else findTeamById teams i.
Proof.
  unfold findTeamById. induction teams as [|h r IH]; simpl.
  - destruct (i =? team_id t); reflexivity.
  - destruct (team_id h =? team_id t) eqn:Eh; simpl.
    + apply Nat.eqb_eq in Eh. rewrite Eh.
      rewrite (Nat.eqb_sym i (team_id t)).
      destruct (team_id t =? i); reflexivity.
    + destruct (team_id h =? i) eqn:Ei.
      * apply Nat.eqb_eq in Ei. subst i. rewrite Eh. reflexivity.
      * exact IH.
Qed.

Lemma includesText_Hex ms i : includesText ms (Hex i) = true <-> In i ms.
Proof.
  unfold includesText. rewrite existsb_exists. split.
  - intros [x [Hx Heq]]. simpl in Heq. apply Nat.eqb_eq in Heq. now subst.
  - intros Hin. exists i. split; [exact Hin|]. simpl. apply Nat.eqb_refl.
Qed.

Lemma includesText_Cased ms i : includesText ms (Cased i) = false.
Proof. unfold includesText. induction ms; simpl; auto. Qed.

Lemma addTeamMember_ok users now requester id userId teams team' teams' :
  addTeamMember users now requester id userId teams = (Sent team', teams') ->
  exists u tm,
    userId = Some u
    /\ isAdmin requester = true
    /\ findTeamById teams id = Some tm
    /\ existsb (Nat.eqb (idOf u)) users = true
    /\ includesText (members tm) u = false
    /\ team' = withMembers now tm (members tm ++ [idOf u])
    /\ teams' = replaceTeam team' teams.
Proof.
  unfold addTeamMember.
  destruct (isAdmin requester) eqn:Hrole; [|discriminate]. simpl.
  destruct userId as [u|]; [|discriminate].
  destruct (findTeamById teams id) as [tm|] eqn:Ht; [|discriminate].
  destruct (existsb (Nat.eqb (idOf u)) users) eqn:Eu; [|discriminate]. simpl.
  destruct (includesText (members tm) u) eqn:Em; [discriminate|].
  intros H. inversion H; subst. exists u, tm. repeat split; auto.
Qed.

Lemma addTeamMember_stored now tm teams id ms :
  findTeamById teams id = Some tm ->
  findTeamById (replaceTeam (withMembers now tm ms) teams) id
  = Some (withMembers now tm ms).
Proof.
  intros Ht. destruct (findTeamById_some _ _ _ Ht) as [_ Hid].
  rewrite findTeamById_replaceTeam. simpl.
  rewrite Hid, Nat.eqb_refl, Ht. reflexivity.
Qed.

(** X16.  An answered addTeamMember has appended the user the submitted
    text names, a known user, to the members of the requested team; the
    team is stored as answered and no other team is touched.  When the
    text is the id as [toString()] spells it, the user was not a member
    and a list of members without duplicates stays without duplicates.
    Under another spelling the membership test never refuses: a known
    user is appended whether or not the team holds the user already. *)
Theorem add_member_effect :
  forall users now requester id teams,
    (forall userId team' teams',
        addTeamMember users now requester id userId teams
        = (Sent team', teams') ->
        exists u tm,
          userId = Some u
          /\ findTeamById teams id = Some tm
          /\ In (idOf u) users
          /\ members team' = members tm ++ [idOf u]
          /\ (u = Hex (idOf u) ->
              ~ In (idOf u) (members tm)
              /\ (NoDup (members tm) -> NoDup (members team')))
          /\ findTeamById teams' id = Some team'
          /\ (forall j, j <> id ->
                        findTeamById teams' j = findTeamById teams j))
    /\ (forall i tm,
          isAdmin requester = true ->
          findTeamById teams id = Some tm ->
          In i users ->
          exists team',
            addTeamMember users now requester id (Some (Cased i)) teams
            = (Sent team', replaceTeam team' teams)
            /\ members team' = members tm ++ [i]).
Proof.
  intros users now requester id teams. split.
  - intros userId team' teams' H.
    destruct (addTeamMember_ok _ _ _ _ _ _ _ _ H)
      as [u [tm [Hu [_ [Ht [Hex [Hmem [Hteam Hteams]]]]]]]].
    destruct (findTeamById_some _ _ _ Ht) as [_ Hid].
    exists u, tm. subst team' teams'.
    split; [exact Hu|]. split; [exact Ht|]. split.
    { apply existsb_exists in Hex. destruct Hex as [x [Hx Heq]].
      apply Nat.eqb_eq in Heq. now subst. }
    split; [reflexivity|]. split.
    { intros Hhex. rewrite Hhex in Hmem.
      assert (Hnot : ~ In (idOf u) (members tm)).
      { intros Hin. apply includesText_Hex in Hin. congruence. }
      split; [exact Hnot|].
      intros Hnd. simpl. apply NoDup_app; auto.
      - constructor; [intros [] | constructor].
      - intros a Ha [<-|[]]. contradiction. }
    split.
    { now apply addTeamMember_stored. }
    intros j Hj. rewrite findTeamById_replaceTeam. simpl. rewrite Hid.
    destruct (j =? id) eqn:E; [|reflexivity].
    apply Nat.eqb_eq in E. contradiction.
  - intros i tm Hrole Ht Hin.
    exists (withMembers now tm (members tm ++ [i])).
    split; [|reflexivity].
    unfold addTeamMember. rewrite Hrole, Ht. cbn [negb idOf].
    assert (Hex : existsb (Nat.eqb i) users = true).
    { apply existsb_exists. exists i. split; [exact Hin|].
      apply Nat.eqb_refl. }
    rewrite Hex, includesText_Cased. reflexivity.
Qed.

Lemma add_member_effect_witness :
  (exists u tm,
      Some (Hex 1) = Some u
      /\ findTeamById [release_team] 50 = Some tm
      /\ members (mkTeam 50 "Release" None [2; 1] (Some 9) 10 20)
         = members tm ++ [idOf u])
  /\ exists team',
       addTeamMember [1; 2] 20 root_admin 50 (Some (Cased 2)) [release_team]
       = (Sent team', replaceTeam team' [release_team])
       /\ members team' = [2; 2].
Proof.
  destruct (add_member_effect [1; 2] 20 root_admin 50 [release_team])
    as [Hadd Hagain].
  split.
  - destruct (Hadd (Some (Hex 1))
                (mkTeam 50 "Release" None [2; 1] (Some 9) 10 20)
                [mkTeam 50 "Release" None [2; 1] (Some 9) 10 20])
      as [u [tm [Hu [Ht [_ [Hm _]]]]]].
    + reflexivity.
    + exists u, tm. auto.
  - destruct (Hagain 2 release_team) as [team' [Hrun Hm]].
    + reflexivity.
    + reflexivity.
    + simpl. auto.
    + exists team'. split; [exact Hrun | exact Hm].
Defined.

Lemma indexOf_appended u m :
  ~ In u m -> indexOf (Hex u) (m ++ [u]) = Some (List.length m).
Proof.
  induction m as [|h r IH]; simpl; intros Hnot.
  - now rewrite Nat.eqb_refl.
  - destruct (u =? h) eqn:E.
    + apply Nat.eqb_eq in E. exfalso. apply Hnot. now left.
    + rewrite IH; [reflexivity|]. intros Hin. apply Hnot. now right.
Qed.

Lemma indexOf_Cased i m : indexOf (Cased i) m = None.
Proof. induction m as [|h r IH]; simpl; [reflexivity|]. now rewrite IH. Qed.

Lemma spliceOne_appended u m : spliceOne (List.length m) (m ++ [u]) = m.
Proof.
  induction m as [|h r IH]; simpl; [reflexivity|]. now rewrite IH.
Qed.

(** X17.  After an answered addTeamMember, removing the user under the
    text just used to add is answered with the team and gives back the
    list of members the team had before, when the text is the id as
    [toString()] spells it; under another spelling the removal is refused
    as 'User is not a member of this team.' and the user stays a
    member. *)
Theorem add_then_remove_member :
  forall users now requester id u teams team' teams' later,
    addTeamMember users now requester id (Some u) teams
    = (Sent team', teams') ->
    match u with
    | Hex _ =>
        exists tm team'',
          findTeamById teams id = Some tm
          /\ removeTeamMember later requester id (Some u) teams'
             = (Sent team'', replaceTeam team'' teams')
          /\ members team'' = members tm
    | Cased i =>
        removeTeamMember later requester id (Some u) teams'
        = (Refused UserNotInTeam, teams')
        /\ In i (members team')
    end.
Proof.
  intros users now requester id u teams team' teams' later H.
  destruct (addTeamMember_ok _ _ _ _ _ _ _ _ H)
    as [u' [tm [Hu [Hrole [Ht [_ [Hmem [Hteam Hteams]]]]]]]].
  injection Hu as <-.
  assert (Hfind : findTeamById teams' id = Some team').
  { subst teams' team'. now apply addTeamMember_stored. }
  destruct u as [i|i].
  - assert (Hnot : ~ In i (members tm)).
    { intros Hin. apply includesText_Hex in Hin. congruence. }
    exists tm. eexists. split; [exact Ht|].
    unfold removeTeamMember. rewrite Hrole, Hfind. cbn [negb].
    subst team'. cbn [members withMembers idOf].
    rewrite (indexOf_appended i (members tm) Hnot).
    split; [reflexivity|]. cbn [members withMembers].
    apply spliceOne_appended.
  - split.
    + unfold removeTeamMember. rewrite Hrole, Hfind. cbn [negb].
      rewrite indexOf_Cased. reflexivity.
    + subst team'. cbn [members withMembers idOf].
      apply in_or_app. right. now left.
Qed.

Lemma add_then_remove_member_witness :
  (exists tm team'',
      findTeamById [release_team] 50 = Some tm
      /\ removeTeamMember 30 root_admin 50 (Some (Hex 1))
           [mkTeam 50 "Release" None [2; 1] (Some 9) 10 20]
         = (Sent team'',
            replaceTeam team''
              [mkTeam 50 "Release" None [2; 1] (Some 9) 10 20])
      /\ members team'' = members tm)
  /\ removeTeamMember 30 root_admin 50 (Some (Cased 1))
       [mkTeam 50 "Release" None [2; 1] (Some 9) 10 20]
     = (Refused UserNotInTeam,
        [mkTeam 50 "Release" None [2; 1] (Some 9) 10 20]).
Proof.
  split.
  - apply (add_then_remove_member [1; 2] 20 root_admin 50 (Hex 1)
             [release_team]
             (mkTeam 50 "Release" None [2; 1] (Some 9) 10 20)
             [mkTeam 50 "Release" None [2; 1] (Some 9) 10 20] 30).
    reflexivity.
  - apply (add_then_remove_member [1; 2] 20 root_admin 50 (Cased 1)
             [release_team]
             (mkTeam 50 "Release" None [2; 1] (Some 9) 10 20)
             [mkTeam 50 "Release" None [2; 1] (Some 9) 10 20] 30).
    reflexivity.
Defined.

(** X18.  After an answered addTeamMember the team listing is open to the
    user the submitted text names: it is sent and holds every stored task
    the user owns.  When the text is the id as [toString()] spells it,
    the user, if not an administrator, was refused the listing before;
    under another spelling the user may have been a member already. *)
Theorem add_member_grants_listing :
  forall users now admin id u teams team' teams' someone s,
    idOf u = user_id someone ->
    addTeamMember users now admin id (Some u) teams = (Sent team', teams') ->
    (exists l,
        getTasksForTeam teams' someone id s = Sent l
        /\ (forall t, In t s -> owner t = user_id someone -> In t l))
    /\ (isAdmin someone = false -> u = Hex (user_id someone) ->
        getTasksForTeam teams someone id s = Refused RequesterNotInTeam).
Proof.
  intros users now admin id u teams team' teams' someone s Hname H.
  destruct (addTeamMember_ok _ _ _ _ _ _ _ _ H)
    as [u' [tm [Hu [_ [Ht [_ [Hmem [Hteam Hteams]]]]]]]].
  injection Hu as <-.
  split.
  - assert (Hfind : findTeamById teams' id = Some team').
    { subst teams' team'. now apply addTeamMember_stored. }
    assert (Hin : In (user_id someone) (members team')).
    { subst team'. simpl. apply in_or_app. right. left. exact Hname. }
    unfold getTasksForTeam. rewrite Hfind.
    rewrite (proj2 (isMember_In _ _) Hin), andb_false_r.
    eexists. split; [reflexivity|].
    intros t Hts Ho. rewrite sortTasks_In, filter_In, teamTask_true.
    split; [exact Hts|]. right. now rewrite Ho.
  - intros Hrole Hhex. subst u.
    unfold getTasksForTeam. rewrite Ht, Hrole.
    destruct (isMember (user_id someone) tm) eqn:E; [|reflexivity].
    apply isMember_In in E. apply includesText_Hex in E. congruence.
Qed.

Lemma add_member_grants_listing_witness :
  (exists l,
      getTasksForTeam [mkTeam 50 "Release" None [2; 1] (Some 9) 10 20]
        alice 50 [plan_release] = Sent l
      /\ (forall t, In t [plan_release] -> owner t = user_id alice ->
                    In t l))
  /\ (isAdmin alice = false -> Hex 1 = Hex (user_id alice) ->
      getTasksForTeam [release_team] alice 50 [plan_release]
      = Refused RequesterNotInTeam).
Proof.
  apply (add_member_grants_listing [1; 2] 20 root_admin 50 (Hex 1)
           [release_team]
           (mkTeam 50 "Release" None [2; 1] (Some 9) 10 20)
           [mkTeam 50 "Release" None [2; 1] (Some 9) 10 20] alice
           [plan_release]).
  - reflexivity.
  - reflexivity.
Defined.

Lemma indexOf_found u m i :
  indexOf u m = Some i ->
  In (idOf u) m /\ List.length m = S (List.length (spliceOne i m)).
Proof.
  revert i. induction m as [|h r IH]; simpl; intros k Hk; [discriminate|].
  destruct (spells u h) eqn:E.
  - inversion Hk; subst. split; [left|reflexivity].
    destruct u as [j|j]; simpl in *; [|discriminate].
    apply Nat.eqb_eq in E. auto.
  - destruct (indexOf u r) as [j|]; [|discriminate].
    inversion Hk; subst. destruct (IH j eq_refl) as [H1 H2].
    simpl. split; [now right | now rewrite H2].
Qed.

Lemma indexOf_spliceOne u m i :
  NoDup m -> indexOf u m = Some i -> ~ In (idOf u) (spliceOne i m).
Proof.
  revert i. induction m as [|h r IH]; simpl; intros i Hnd Hi; [discriminate|].
  inversion Hnd as [|? ? Hnotin Hnd']; subst.
  destruct (spells u h) eqn:E.
  - destruct u as [j|j]; simpl in *; [|discriminate].
    apply Nat.eqb_eq in E. subst h. inversion Hi; subst. exact Hnotin.
  - destruct (indexOf u r) as [k|] eqn:Ek; [|discriminate].
    inversion Hi; subst. simpl. intros [Hh|Hin].
    + destruct u as [j|j]; simpl in *.
      * apply Nat.eqb_neq in E. congruence.
      * rewrite indexOf_Cased in Ek. discriminate.
    + exact (IH k Hnd' eq_refl Hin).
Qed.

Lemma removeTeamMember_ok now requester id userId teams team' teams' :
  removeTeamMember now requester id userId teams = (Sent team', teams') ->
  exists u tm i,
    userId = Some u
    /\ isAdmin requester = true
    /\ findTeamById teams id = Some tm
    /\ indexOf u (members tm) = Some i
    /\ team' = withMembers now tm (spliceOne i (members tm))
    /\ teams' = replaceTeam team' teams.
Proof.
  unfold removeTeamMember.
  destruct (isAdmin requester) eqn:Hrole; [|discriminate]. simpl.
  destruct userId as [u|]; [|discriminate].
  destruct (findTeamById teams id) as [tm|] eqn:Ht; [|discriminate].
  destruct (indexOf u (members tm)) as [i|] eqn:Ei; [|discriminate].
  intros H. inversion H; subst. exists u, tm, i. repeat split; auto.
Qed.

(** X19.  An answered removeTeamMember takes one occurrence of the user
    out of the members.  When the members held no duplicate, the user is
    no member afterwards and, unless an administrator, is refused the
    team listing. *)
Theorem remove_member_revokes_listing :
  forall now admin id u teams team' teams' someone s,
    idOf u = user_id someone ->
    removeTeamMember now admin id (Some u) teams = (Sent team', teams') ->
    exists tm,
      findTeamById teams id = Some tm
      /\ In (user_id someone) (members tm)
      /\ List.length (members tm) = S (List.length (members team'))
      /\ (NoDup (members tm) ->
          ~ In (user_id someone) (members team')
          /\ (isAdmin someone = false ->
              getTasksForTeam teams' someone id s
              = Refused RequesterNotInTeam)).
Proof.
  intros now admin id u teams team' teams' someone s Hname H.
  destruct (removeTeamMember_ok _ _ _ _ _ _ _ H)
    as [u' [tm [i [Hu [_ [Ht [Hi [Hteam Hteams]]]]]]]].
  injection Hu as <-.
  destruct (findTeamById_some _ _ _ Ht) as [_ Hid].
  destruct (indexOf_found _ _ _ Hi) as [Hin Hlen].
  rewrite Hname in Hin.
  exists tm. split; [exact Ht|]. split; [exact Hin|].
  subst team'. simpl. split; [exact Hlen|].
  intros Hnd.
  pose proof (indexOf_spliceOne _ _ _ Hnd Hi) as Hgone.
  rewrite Hname in Hgone.
  split; [exact Hgone|].
  intros Hrole. unfold getTasksForTeam. subst teams'.
  rewrite findTeamById_replaceTeam. simpl.
  rewrite Hid, Nat.eqb_refl, Ht, Hrole.
  destruct (isMember (user_id someone)
              (withMembers now tm (spliceOne i (members tm)))) eqn:E.
  - apply isMember_In in E. simpl in E. contradiction.
  - reflexivity.
Qed.

Lemma remove_member_revokes_listing_witness :
  getTasksForTeam [mkTeam 50 "Release" None [] (Some 9) 10 20] bob 50
    [plan_release]
  = Refused RequesterNotInTeam.
Proof.
  destruct (remove_member_revokes_listing 20 root_admin 50 (Hex 2)
              [release_team]
              (mkTeam 50 "Release" None [] (Some 9) 10 20)
              [mkTeam 50 "Release" None [] (Some 9) 10 20] bob
              [plan_release]) as [tm [Ht [_ [_ Hrev]]]].
  - reflexivity.
  - reflexivity.
  - inversion Ht; subst tm.
    destruct Hrev as [_ Hlist].
    + simpl. repeat constructor. simpl. tauto.
    + apply Hlist. reflexivity.
Defined.

Lemma removeTeam_spec id :
  forall teams d teams',
    removeTeam id teams = (d, teams') ->
    match d with
    | Some t =>
        In t teams /\ team_id t = id
        /\ (NoDup (map team_id teams) ->
            forall x, In x teams' <-> In x teams /\ team_id x <> id)
    | None => teams' = teams
    end.
Proof.
  induction teams as [|h r IH]; simpl; intros d teams' H.
  - inversion H; subst. reflexivity.
  - destruct (team_id h =? id) eqn:E.
    + apply Nat.eqb_eq in E. inversion H; subst.
      split; [now left|]. split; [reflexivity|].
      intros Hnd x. inversion Hnd as [|? ? Hnotin _]; subst. split.
      * intros Hx. split; [now right|]. intros Heq. apply Hnotin.
        rewrite <- Heq. now apply in_map.
      * intros [[->|Hx] Hne]; [contradiction | exact Hx].
    + destruct (removeTeam id r) as [d' r'] eqn:Er. inversion H; subst.
      specialize (IH d r' eq_refl). destruct d as [t|].
      * destruct IH as [Hin [Hid Hrest]]. split; [now right|].
        split; [exact Hid|]. intros Hnd x.
        inversion Hnd as [|? ? _ Hnd']; subst.
        apply Nat.eqb_neq in E. simpl. rewrite (Hrest Hnd' x). split.
        -- intros [->|[Hx Hne]]; auto.
        -- intros [[->|Hx] Hne]; auto.
      * now rewrite IH.
Qed.

(** X20.  The team handlers that write are for administrators only, and a
    refusal never writes: a requester who is not an administrator is
    refused by createTeam, addTeamMember, removeTeamMember and deleteTeam,
    and whenever one of them refuses, for whatever reason, the teams are
    as before. *)
Theorem team_refusal_keeps_teams :
  forall users newId now requester id userId body teams,
    (isAdmin requester = false ->
     createTeam users newId now requester body teams
     = (Refused AdminRequired, teams)
     /\ addTeamMember users now requester id userId teams
        = (Refused AdminRequired, teams)
     /\ removeTeamMember now requester id userId teams
        = (Refused AdminRequired, teams)
     /\ deleteTeam requester id teams = (Refused AdminRequired, teams))
    /\ (forall e teams',
          createTeam users newId now requester body teams = (Refused e, teams')
          \/ addTeamMember users now requester id userId teams
             = (Refused e, teams')
          \/ removeTeamMember now requester id userId teams
             = (Refused e, teams')
          \/ deleteTeam requester id teams = (Refused e, teams') ->
          teams' = teams).
Proof.
  intros users newId now requester id userId body teams. split.
  - intros Hrole. unfold createTeam, addTeamMember, removeTeamMember,
      deleteTeam. rewrite Hrole. simpl. auto.
  - intros e teams' [H|[H|[H|H]]].
    + unfold createTeam in H.
      destruct (negb (isAdmin requester)); [now inversion H|].
      destruct (tb_name body) as [n|]; [|now inversion H].
      destruct (String.eqb (trim n) EmptyString); [now inversion H|].
      destruct (existsb _ teams); [now inversion H | discriminate].
    + unfold addTeamMember in H.
      destruct (negb (isAdmin requester)); [now inversion H|].
      destruct userId as [u|]; [|now inversion H].
      destruct (findTeamById teams id) as [tm|]; [|now inversion H].
      destruct (negb (existsb (Nat.eqb (idOf u)) users));
        [now inversion H|].
      destruct (includesText (members tm) u);
        [now inversion H | discriminate].
    + unfold removeTeamMember in H.
      destruct (negb (isAdmin requester)); [now inversion H|].
      destruct userId as [u|]; [|now inversion H].
      destruct (findTeamById teams id) as [tm|]; [|now inversion H].
      destruct (indexOf u (members tm)); [discriminate | now inversion H].
    + unfold deleteTeam in H.
      destruct (negb (isAdmin requester)); [now inversion H|].
      destruct (removeTeam id teams) as [[t|] r] eqn:Er; [discriminate|].
      inversion H; subst.
      exact (removeTeam_spec id teams None teams' Er).
Qed.

Lemma team_refusal_keeps_teams_witness :
  addTeamMember [1; 2] 20 alice 50 (Some (Hex 1)) [release_team]
  = (Refused AdminRequired, [release_team]).
Proof.
  destruct (team_refusal_keeps_teams [1; 2] 60 20 alice 50 (Some (Hex 1))
              (mkTeamBody None None None None) [release_team])
    as [Hadmin _].
  destruct Hadmin as [_ [Hadd _]]; [reflexivity | exact Hadd].
Defined.

Lemma same_team_id teams x y :
  NoDup (map team_id teams) -> In x teams -> In y teams ->
  team_id x = team_id y -> x = y.
Proof.
  induction teams as [|h r IH]; simpl; intros Hnd Hx Hy Heq; [contradiction|].
  inversion Hnd as [|? ? Hn Hnd']; subst.
  destruct Hx as [Hx|Hx], Hy as [Hy|Hy].
  - congruence.
  - subst h. exfalso. apply Hn. rewrite Heq. now apply in_map.
  - subst h. exfalso. apply Hn. rewrite <- Heq. now apply in_map.
  - auto.
Qed.

(** X21.  With unique team ids, an answered deleteTeam takes exactly the
    requested team out; afterwards the team listing for that id is refused
    to everybody as team not found, whatever tasks still carry the id, and
    every other team is found as before. *)
Theorem delete_team_effect :
  forall requester id teams tm teams',
    NoDup (map team_id teams) ->
    deleteTeam requester id teams = (Sent tm, teams') ->
    findTeamById teams id = Some tm
    /\ (forall x, In x teams' <-> In x teams /\ team_id x <> id)
    /\ (forall anyone s,
          getTasksForTeam teams' anyone id s = Refused TeamNotFound).
Proof.
  intros requester id teams tm teams' Hnd H. unfold deleteTeam in H.
  destruct (negb (isAdmin requester)); [discriminate|].
  destruct (removeTeam id teams) as [[t|] r] eqn:Er; [|discriminate].
  inversion H; subst t r. clear H.
  destruct (removeTeam_spec id teams (Some tm) teams' Er)
    as [Hin [Hid Hrest]].
  specialize (Hrest Hnd).
  assert (Hgone : findTeamById teams' id = None).
  { destruct (findTeamById teams' id) as [x|] eqn:E; [|reflexivity].
    destruct (findTeamById_some _ _ _ E) as [Hx Hidx].
    apply Hrest in Hx. tauto. }
  split; [|split].
  - destruct (findTeamById teams id) as [x|] eqn:E.
    + destruct (findTeamById_some _ _ _ E) as [Hx Hidx]. f_equal.
      apply (same_team_id teams x tm Hnd Hx Hin). congruence.
    + unfold findTeamById in E.
      pose proof (find_none _ _ E tm Hin) as Hn. simpl in Hn.
      rewrite Hid, Nat.eqb_refl in Hn. discriminate.
  - exact Hrest.
  - intros anyone s. unfold getTasksForTeam. now rewrite Hgone.
Qed.

Lemma delete_team_effect_witness :
  getTasksForTeam [] root_admin 50
    [mkTodo 10 "Plan release" false 1 None None (Some 50) None 100 100]
  = Refused TeamNotFound.
Proof.
  destruct (delete_team_effect root_admin 50 [release_team] release_team [])
    as [_ [_ Hgone]].
  - simpl. repeat constructor. simpl. tauto.
  - reflexivity.
  - apply Hgone.
Defined.

(** X22.  The team that createTeam stores has the creator as its admin,
    whatever admin the payload names, and as members exactly the submitted
    ids that are known users, in the submitted order: unknown ids are left
    out without an error.  Its name, trimmed, was not in use, and ids and
    names that were unique stay unique. *)
Theorem create_team_effect :
  forall users newId now creator body teams tm teams',
    createTeam users newId now creator body teams = (Sent tm, teams') ->
    teams' = teams ++ [tm]
    /\ team_id tm = newId
    /\ team_admin tm = Some (user_id creator)
    /\ members tm =
         match tb_members body with
         | Some ms => filter (fun m => existsb (Nat.eqb m) users) ms
         | None => []
         end
    /\ (forall m, In m (members tm) -> In m users)
    /\ (forall x, In x teams -> team_name x <> team_name tm)
    /\ (NoDup (map team_id teams) -> NoDup (map team_id teams'))
    /\ (NoDup (map team_name teams) -> NoDup (map team_name teams')).
Proof.
  intros users newId now creator body teams tm teams'. unfold createTeam.
  destruct (negb (isAdmin creator)); [discriminate|].
  destruct (tb_name body) as [n|]; [|discriminate].
  destruct (String.eqb (trim n) EmptyString); [discriminate|].
  destruct (existsb (fun t => (team_id t =? newId)
                              || String.eqb (team_name t) (trim n)) teams)
    eqn:Ex; [discriminate|].
  intros H. inversion H; subst tm teams'. clear H. simpl.
  assert (Hfree : forall x, In x teams ->
                            team_id x <> newId /\ team_name x <> trim n).
  { intros x Hx.
    destruct ((team_id x =? newId) || String.eqb (team_name x) (trim n))
      eqn:E.
    - assert (existsb (fun t => (team_id t =? newId)
                                || String.eqb (team_name t) (trim n)) teams
              = true) by (apply existsb_exists; eauto).
      congruence.
    - apply orb_false_iff in E. destruct E as [E1 E2].
      apply Nat.eqb_neq in E1. apply String.eqb_neq in E2. auto. }
  repeat split; auto.
  - intros m Hm. destruct (tb_members body) as [ms|]; [|contradiction].
    apply filter_In in Hm. destruct Hm as [_ Hm].
    apply existsb_exists in Hm. destruct Hm as [x [Hx Heq]].
    apply Nat.eqb_eq in Heq. now subst.
  - intros x Hx. exact (proj2 (Hfree x Hx)).
  - intros Hnd. rewrite map_app. simpl. apply NoDup_app; auto.
    + constructor; [intros [] | constructor].
    + intros i Hi [<-|[]]. apply in_map_iff in Hi.
      destruct Hi as [x [Hix Hx]]. exact (proj1 (Hfree x Hx) Hix).
  - intros Hnd. rewrite map_app. simpl. apply NoDup_app; auto.
    + constructor; [intros [] | constructor].
    + intros i Hi [<-|[]]. apply in_map_iff in Hi.
      destruct Hi as [x [Hix Hx]]. exact (proj2 (Hfree x Hx) Hix).
Qed.

Lemma create_team_effect_witness :
  team_admin (mkTeam 60 "Testing" None [1] (Some 9) 20 20) = Some 9
  /\ members (mkTeam 60 "Testing" None [1] (Some 9) 20 20) = [1].
Proof.
  destruct (create_team_effect [1; 2] 60 20 root_admin
              (mkTeamBody (Some " Testing "%string) None (Some [1; 7])
                          (Some 1))
              [release_team]
              (mkTeam 60 "Testing" None [1] (Some 9) 20 20)
              [release_team; mkTeam 60 "Testing" None [1] (Some 9) 20 20])
    as [_ [_ [Hadmin [Hm _]]]].
  - reflexivity.
  - split; [exact Hadmin | exact Hm].
Defined.

(** * Schedules *)

Lemma findScheduleById_some store i x :
  findScheduleById store i = Some x -> In x store /\ schedule_id x = i.
Proof.
  unfold findScheduleById. intros H. apply find_some in H.
  destruct H as [Hin Heq]. apply Nat.eqb_eq in Heq. auto.
Qed.

Lemma same_schedule_id store x y :
  NoDup (map schedule_id store) -> In x store -> In y store ->
  schedule_id x = schedule_id y -> x = y.
Proof.
  induction store as [|h r IH]; simpl; intros Hnd Hx Hy Heq; [contradiction|].
  inversion Hnd as [|? ? Hn Hnd']; subst.
  destruct Hx as [Hx|Hx], Hy as [Hy|Hy].
  - congruence.
  - subst h. exfalso. apply Hn. rewrite Heq. now apply in_map.
  - subst h. exfalso. apply Hn. rewrite <- Heq. now apply in_map.
  - auto.
Qed.

(** X23.  A schedule is its user's alone, administrators included: for a
    stored schedule of somebody else, reading, updating and deleting by id
    are all answered not authorized (not not found), and the store is
    left as it was. *)
Theorem schedule_of_other_user_refused :
  forall requester id body store x,
    findScheduleById store id = Some x ->
    user x <> user_id requester ->
    getScheduleById requester id store = Rejected NotAuthorized
    /\ updateSchedule requester id body store = (Rejected NotAuthorized, store)
    /\ deleteSchedule requester id store = (Rejected NotAuthorized, store).
Proof.
  intros requester id body store x Hfind Hne.
  apply Nat.eqb_neq in Hne.
  unfold getScheduleById, updateSchedule, deleteSchedule, ownSchedule.
  rewrite Hfind, Hne. auto.
Qed.

Lemma schedule_of_other_user_refused_witness :
  getScheduleById root_admin 70 [spring_term; bobs_week]
  = Rejected NotAuthorized.
Proof.
  destruct (schedule_of_other_user_refused root_admin 70
              (mkScheduleUpdate None None None) [spring_term; bobs_week]
              spring_term) as [Hget _].
  - reflexivity.
  - discriminate.
  - exact Hget.
Defined.

Lemma insertSchedule_perm x l : Permutation (x :: l) (insertSchedule x l).
Proof.
  induction l as [|h r IH]; simpl.
  - apply Permutation_refl.
  - destruct (uploadDate h <=? uploadDate x).
    + apply Permutation_refl.
    + eapply perm_trans; [apply perm_swap|]. now apply perm_skip.
Qed.

Lemma sortSchedules_perm l : Permutation l (sortSchedules l).
Proof.
  induction l as [|h r IH]; simpl.
  - apply perm_nil.
  - eapply perm_trans; [apply perm_skip, IH | apply insertSchedule_perm].
Qed.

Lemma insertSchedule_sorted x l :
  Sorted (fun a b => uploadDate b <= uploadDate a) l ->
  Sorted (fun a b => uploadDate b <= uploadDate a) (insertSchedule x l).
Proof.
  induction l as [|h r IH]; simpl; intros Hs.
  - constructor; constructor.
  - destruct (uploadDate h <=? uploadDate x) eqn:E.
    + constructor; [assumption|]. constructor. now apply Nat.leb_le.
    + apply Nat.leb_gt in E.
      inversion Hs as [|? ? Hr Hhd]; subst.
      constructor; [auto|].
      destruct r as [|h' r']; simpl.
      * constructor. lia.
      * destruct (uploadDate h' <=? uploadDate x).
        -- constructor. lia.
        -- constructor. now inversion Hhd.
Qed.

(** X24.  getSchedules answers exactly the stored schedules of the
    requester, the newest upload first. *)
Theorem own_schedules_newest_first :
  forall requester store,
    Permutation (filter (fun x => user x =? user_id requester) store)
                (getSchedules requester store)
    /\ StronglySorted (fun a b => uploadDate b <= uploadDate a)
                      (getSchedules requester store)
    /\ (forall x, In x (getSchedules requester store) <->
                  In x store /\ user x = user_id requester).
Proof.
  intros requester store. unfold getSchedules.
  split; [apply sortSchedules_perm|]. split.
  - apply Sorted_StronglySorted.
    + intros a b c Hab Hbc. lia.
    + induction (filter (fun x => user x =? user_id requester) store)
        as [|h r IH]; simpl.
      * constructor.
      * now apply insertSchedule_sorted.
  - intros x. split; intros H.
    + apply (Permutation_in x (Permutation_sym (sortSchedules_perm _))) in H.
      apply filter_In in H. destruct H as [Hin Hu].
      apply Nat.eqb_eq in Hu. auto.
    + apply (Permutation_in x (sortSchedules_perm _)).
      apply filter_In. destruct H as [Hin Hu]. split; [exact Hin|].
      now apply Nat.eqb_eq.
Qed.

Lemma removeSchedule_In id store :
  NoDup (map schedule_id store) ->
  forall y, In y (removeSchedule id store) <->
            In y store /\ schedule_id y <> id.
Proof.
  induction store as [|h r IH]; simpl; intros Hnd y; [tauto|].
  inversion Hnd as [|? ? Hn Hnd']; subst.
  destruct (schedule_id h =? id) eqn:E.
  - apply Nat.eqb_eq in E. split.
    + intros Hy. split; [now right|]. intros Heq. apply Hn.
      rewrite E, <- Heq. now apply in_map.
    + intros [[->|Hy] Hne]; [contradiction | exact Hy].
  - apply Nat.eqb_neq in E. simpl. rewrite (IH Hnd' y). split.
    + intros [->|[Hy Hne]]; auto.
    + intros [[->|Hy] Hne]; auto.
Qed.

Lemma removeSchedule_incl id store : incl (removeSchedule id store) store.
Proof.
  induction store as [|h r IH]; simpl; [apply incl_refl|].
  destruct (schedule_id h =? id).
  - apply incl_tl, incl_refl.
  - intros y [->|Hy]; [now left | right; auto].
Qed.

Lemma ownSchedule_answered requester store id x :
  ownSchedule requester store id = Answered x ->
  findScheduleById store id = Some x /\ user x = user_id requester.
Proof.
  unfold ownSchedule.
  destruct (findScheduleById store id) as [y|]; [|discriminate].
  destruct (user y =? user_id requester) eqn:E; [|discriminate].
  intros H. inversion H; subst. apply Nat.eqb_eq in E. auto.
Qed.

(** X25.  With unique ids, an answered deleteSchedule was asked by the
    schedule's user and takes out exactly that schedule; afterwards
    reading the id is answered not found for everybody. *)
Theorem delete_schedule_effect :
  forall requester id store store',
    NoDup (map schedule_id store) ->
    deleteSchedule requester id store = (Answered tt, store') ->
    exists x,
      findScheduleById store id = Some x
      /\ user x = user_id requester
      /\ (forall y, In y store' <-> In y store /\ y <> x)
      /\ (forall anyone,
            getScheduleById anyone id store' = Rejected ScheduleNotFound).
Proof.
  intros requester id store store' Hnd H. unfold deleteSchedule in H.
  destruct (ownSchedule requester store id) as [x|e] eqn:Eo; [|discriminate].
  inversion H; subst store'. clear H.
  destruct (ownSchedule_answered _ _ _ _ Eo) as [Hfind Hu].
  destruct (findScheduleById_some _ _ _ Hfind) as [Hin Hid].
  exists x. split; [exact Hfind|]. split; [exact Hu|]. split.
  - intros y. rewrite (removeSchedule_In id store Hnd y). split.
    + intros [Hy Hne]. split; [exact Hy|]. intros ->. contradiction.
    + intros [Hy Hne]. split; [exact Hy|]. intros Heq. apply Hne.
      apply (same_schedule_id store y x Hnd Hy Hin). congruence.
  - intros anyone. unfold getScheduleById, ownSchedule.
    destruct (findScheduleById (removeSchedule id store) id) as [y|] eqn:E;
      [|reflexivity].
    destruct (findScheduleById_some _ _ _ E) as [Hy Hidy].
    apply (removeSchedule_In id store Hnd y) in Hy. tauto.
Qed.

Lemma delete_schedule_effect_witness :
  exists x,
    findScheduleById [spring_term; bobs_week] 70 = Some x
    /\ user x = user_id alice
    /\ (forall y, In y [bobs_week] <->
                  In y [spring_term; bobs_week] /\ y <> x)
    /\ (forall anyone,
          getScheduleById anyone 70 [bobs_week] = Rejected ScheduleNotFound).
Proof.
  apply (delete_schedule_effect alice 70 [spring_term; bobs_week] [bobs_week]).
  - simpl. repeat (constructor; [simpl; intuition discriminate|]).
    constructor.
  - reflexivity.
Defined.

Lemma requiredText_some v x :
  requiredText v = Some x -> x <> EmptyString.
Proof.
  unfold requiredText. destruct v as [y|]; [|discriminate].
  destruct (String.eqb (trim y) EmptyString) eqn:E; [discriminate|].
  intros H. inversion H; subst. now apply String.eqb_neq.
Qed.

Lemma includes_In l x : includes l x = true <-> In x l.
Proof.
  unfold includes. rewrite existsb_exists. split.
  - intros [y [Hy Heq]]. apply String.eqb_eq in Heq. now subst.
  - intros H. exists x. split; [exact H | apply String.eqb_refl].
Qed.

Lemma castBlock_valid b b' : castBlock b = Some b' -> ValidBlock b'.
Proof.
  unfold castBlock.
  destruct (i_day b) as [d|]; [|discriminate].
  destruct (requiredText (i_startTime b)) as [st|] eqn:E1; [|discriminate].
  destruct (requiredText (i_endTime b)) as [en|] eqn:E2; [|discriminate].
  destruct (requiredText (i_activity b)) as [ac|] eqn:E3; [|discriminate].
  destruct (includes days d) eqn:Ed; [|discriminate].
  intros H. inversion H; subst. unfold ValidBlock.
  cbn [day startTime endTime activity].
  split; [now apply includes_In|].
  split; [|split]; eapply requiredText_some; eauto.
Qed.

Lemma castBlocks_valid l :
  forall bs, castBlocks l = Some bs ->
             List.length bs = List.length l
             /\ forall b, In b bs -> ValidBlock b.
Proof.
  induction l as [|h r IH]; simpl; intros bs H.
  - inversion H; subst. split; [reflexivity | intros b []].
  - destruct (castBlock h) as [h'|] eqn:Eh; [|discriminate].
    destruct (castBlocks r) as [r'|]; [|discriminate].
    inversion H; subst. destruct (IH r' eq_refl) as [Hlen Hall].
    split; [simpl; now rewrite Hlen|].
    intros b [<-|Hb]; [eapply castBlock_valid; eauto | auto].
Qed.

(** X26.  The schedule handlers keep the stored schedules valid: when
    every stored schedule has a non-empty name and only blocks with a day
    of the week and non-empty times and activity, the same holds after
    createSchedule, updateSchedule and deleteSchedule, whatever they
    answer; and a rejected request leaves the store as it was. *)
Theorem schedules_stay_valid :
  forall newId now requester id cbody ubody store,
    ValidSchedules store ->
    ValidSchedules (snd (createSchedule newId now requester cbody store))
    /\ ValidSchedules (snd (updateSchedule requester id ubody store))
    /\ ValidSchedules (snd (deleteSchedule requester id store))
    /\ (forall e store',
          createSchedule newId now requester cbody store = (Rejected e, store')
          \/ updateSchedule requester id ubody store = (Rejected e, store')
          \/ deleteSchedule requester id store = (Rejected e, store') ->
          store' = store).
Proof.
  intros newId now requester id cbody ubody store Hv.
  assert (Hrep : forall y s0,
    ValidSchedules s0 ->
    (name y <> EmptyString /\ forall b, In b (blocks y) -> ValidBlock b) ->
    ValidSchedules (replaceSchedule y s0)).
  { intros y s0. induction s0 as [|h r IH]; simpl; intros Hs Hy.
    - exact Hs.
    - destruct (schedule_id h =? schedule_id y).
      + intros x [<-|Hx]; [exact Hy | apply Hs; now right].
      + intros x [<-|Hx]; [apply Hs; now left|].
        apply IH; auto. intros z Hz. apply Hs. now right. }
  split; [|split; [|split]].
  - unfold createSchedule.
    destruct (sb_name cbody) as [n|]; [|exact Hv].
    destruct (String.eqb n EmptyString); [exact Hv|].
    destruct (castBlocks _) as [bs|] eqn:Eb; [|exact Hv].
    destruct (String.eqb (trim n) EmptyString) eqn:En; [exact Hv|].
    simpl. destruct (existsb _ store); [exact Hv|]. simpl.
    intros x Hx. apply in_app_or in Hx. destruct Hx as [Hx|[<-|[]]].
    + now apply Hv.
    + simpl. split; [now apply String.eqb_neq|].
      exact (proj2 (castBlocks_valid _ _ Eb)).
  - unfold updateSchedule.
    destruct (ownSchedule requester store id) as [x|e] eqn:Eo; [|exact Hv].
    destruct (ownSchedule_answered _ _ _ _ Eo) as [Hfind _].
    destruct (findScheduleById_some _ _ _ Hfind) as [Hin _].
    destruct (Hv x Hin) as [Hname Hblocks].
    destruct (match su_name ubody with
              | Some n => requiredText (Some n)
              | None => Some (name x)
              end) as [n|] eqn:En; [|exact Hv].
    destruct (match su_blocks ubody with
              | Some l => castBlocks l
              | None => Some (blocks x)
              end) as [bs|] eqn:Eb; [|exact Hv].
    simpl. apply Hrep; [exact Hv|]. simpl. split.
    + destruct (su_name ubody) as [m|].
      * eapply requiredText_some; eauto.
      * inversion En; subst. exact Hname.
    + destruct (su_blocks ubody) as [l|].
      * exact (proj2 (castBlocks_valid _ _ Eb)).
      * inversion Eb; subst. exact Hblocks.
  - unfold deleteSchedule.
    destruct (ownSchedule requester store id) as [x|e]; [|exact Hv].
    simpl. intros y Hy. apply Hv. exact (removeSchedule_incl id store y Hy).
  - intros e store' [H|[H|H]].
    + unfold createSchedule in H.
      destruct (sb_name cbody) as [n|]; [|now inversion H].
      destruct (String.eqb n EmptyString); [now inversion H|].
      destruct (castBlocks _); [|now inversion H].
      destruct (String.eqb (trim n) EmptyString || existsb _ store);
        [now inversion H | discriminate].
    + unfold updateSchedule in H.
      destruct (ownSchedule requester store id) as [x|e0];
        [|now inversion H].
      destruct (match su_name ubody with
                | Some n => requiredText (Some n)
                | None => Some (name x)
                end); [|now inversion H].
      destruct (match su_blocks ubody with
                | Some l => castBlocks l
                | None => Some (blocks x)
                end); [discriminate | now inversion H].
    + unfold deleteSchedule in H.
      destruct (ownSchedule requester store id); [discriminate|].
      now inversion H.
Qed.

Lemma spring_term_valid : ValidSchedules [spring_term].
Proof.
  intros x [<-|[]]. split; [discriminate|].
  intros b [<-|[]]. unfold ValidBlock. simpl.
  repeat split; try discriminate. auto.
Qed.

Lemma schedules_stay_valid_witness :
  ValidSchedules
    (snd (updateSchedule alice 70
            (mkScheduleUpdate None None
               (Some [mkBlockInput (Some "Friday"%string)
                                   (Some " 14:00 "%string)
                                   (Some "15:00"%string)
                                   (Some "Seminar"%string) None None]))
            [spring_term])).
Proof.
  destruct (schedules_stay_valid 0 0 alice 70
              (mkScheduleBody None None None)
              (mkScheduleUpdate None None
                 (Some [mkBlockInput (Some "Friday"%string)
                                     (Some " 14:00 "%string)
                                     (Some "15:00"%string)
                                     (Some "Seminar"%string) None None]))
              [spring_term] spring_term_valid) as [_ [Hupd _]].
  exact Hupd.
Defined.

Lemma findScheduleById_replace x store i :
  findScheduleById (replaceSchedule x store) i =
    if i =? schedule_id x
    then match findScheduleById store i with
         | Some _ => Some x
         | None => None
         end
    else findScheduleById store i.
Proof.
  unfold findScheduleById. induction store as [|h r IH]; simpl.
  - destruct (i =? schedule_id x); reflexivity.
  - destruct (schedule_id h =? schedule_id x) eqn:Eh; simpl.
    + apply Nat.eqb_eq in Eh. rewrite Eh.
      rewrite (Nat.eqb_sym i (schedule_id x)).
      destruct (schedule_id x =? i); reflexivity.
    + destruct (schedule_id h =? i) eqn:Ei.
      * apply Nat.eqb_eq in Ei. subst i. rewrite Eh. reflexivity.
      * exact IH.
Qed.

(** X27.  An answered updateSchedule was asked by the schedule's user and
    keeps the id, the user and the upload date.  Submitted blocks replace
    the stored ones as a whole, one stored block per submitted block, and
    blocks that are not submitted stay; the schedule is then read back as
    answered, and no other schedule is touched. *)
Theorem update_schedule_effect :
  forall requester id body store y store',
    updateSchedule requester id body store = (Answered y, store') ->
    exists x,
      findScheduleById store id = Some x
      /\ user x = user_id requester
      /\ schedule_id y = id /\ user y = user x
      /\ uploadDate y = uploadDate x
      /\ match su_blocks body with
         | Some l => castBlocks l = Some (blocks y)
                     /\ List.length (blocks y) = List.length l
         | None => blocks y = blocks x
         end
      /\ getScheduleById requester id store' = Answered y
      /\ (forall anyone j,
            j <> id ->
            getScheduleById anyone j store' = getScheduleById anyone j store).
Proof.
  intros requester id body store y store' H. unfold updateSchedule in H.
  destruct (ownSchedule requester store id) as [x|e] eqn:Eo; [|discriminate].
  destruct (ownSchedule_answered _ _ _ _ Eo) as [Hfind Hu].
  destruct (findScheduleById_some _ _ _ Hfind) as [Hin Hid].
  destruct (match su_name body with
            | Some n => requiredText (Some n)
            | None => Some (name x)
            end) as [n|]; [|discriminate].
  destruct (match su_blocks body with
            | Some l => castBlocks l
            | None => Some (blocks x)
            end) as [bs|] eqn:Eb; [|discriminate].
  inversion H; subst y store'. clear H. exists x. simpl.
  split; [exact Hfind|]. split; [exact Hu|]. split; [exact Hid|].
  split; [reflexivity|]. split; [reflexivity|]. split; [|split].
  - destruct (su_blocks body) as [l|].
    + split; [exact Eb|]. exact (proj1 (castBlocks_valid _ _ Eb)).
    + now inversion Eb.
  - unfold getScheduleById, ownSchedule.
    rewrite findScheduleById_replace. simpl.
    rewrite Hid, Nat.eqb_refl, Hfind. simpl.
    rewrite Hu, Nat.eqb_refl. reflexivity.
  - intros anyone j Hj. unfold getScheduleById, ownSchedule.
    rewrite findScheduleById_replace. simpl. rewrite Hid.
    destruct (j =? id) eqn:E; [|reflexivity].
    apply Nat.eqb_eq in E. contradiction.
Qed.

Lemma update_schedule_effect_witness :
  exists x,
    findScheduleById [spring_term] 70 = Some x
    /\ user x = user_id alice
    /\ blocks (mkSchedule 70 1 "Spring term" None 300 []) = [].
Proof.
  destruct (update_schedule_effect alice 70
              (mkScheduleUpdate None None (Some [])) [spring_term]
              (mkSchedule 70 1 "Spring term" None 300 [])
              [mkSchedule 70 1 "Spring term" None 300 []])
    as [x [Hf [Hu _]]].
  - reflexivity.
  - exists x. auto.
Defined.

(** * Repeating an update *)

(** A walk that fell through sees the same documents once the task it
    looks for has been rewritten. *)
Lemma cycleWalk_after_save s s' id :
  (exists t, findById s id = Some t) ->
  (forall j, j <> id -> findById s' j = findById s j) ->
  forall fuel current,
    cycleWalk fuel s id current = Some false ->
    cycleWalk fuel s' id current = Some false.
Proof.
  intros [t0 Ht0] Hsame.
  destruct (findById_some _ _ _ Ht0) as [_ Hid0].
  induction fuel as [|f IH]; intros current H;
    destruct current as [c|]; simpl in *; auto;
    destruct (_id c =? id); try discriminate.
  unfold parentDoc in *. destruct (parentTask c) as [p|]; [|exact (IH _ H)].
  destruct (Nat.eq_dec p id) as [->|Hne].
  - rewrite Ht0 in H. exfalso.
    destruct f; simpl in H; rewrite Hid0, Nat.eqb_refl in H; discriminate.
  - rewrite (Hsame p Hne). exact (IH _ H).
Qed.

Lemma updateTask_refetch fuel now requester id body s saved s' :
  UniqueIds s ->
  updateTask fuel now requester id body s = Some (Ok saved, s') ->
  fetch requester s' id = Some saved.
Proof.
  intros Hu H.
  destruct (updateTask_stored _ _ _ _ _ _ _ _ Hu H) as [Hu' [Hin Hid]].
  apply (fetch_iff requester s' id saved Hu'). split; [exact Hin|].
  split; [exact Hid|].
  destruct (isAdmin requester) eqn:Hrole; [now left | right].
  destruct (updateTask_ok _ _ _ _ _ _ _ _ H)
    as [task [task' [_ [Hfetch [_ [Happ Hsave]]]]]].
  apply save_fields in Hsave. destruct Hsave as [_ [Ho _]].
  rewrite Ho, (applyUpdates_owner _ _ _ Hrole _ _ Happ).
  exact (fetch_owned _ _ _ _ Hrole Hfetch).
Qed.

Lemma parentChecks_after_save fuel s s' task saved pt :
  _id saved = _id task ->
  (exists t, findById s (_id task) = Some t) ->
  (forall j, j <> _id task -> findById s' j = findById s j) ->
  parentChecks fuel s task pt = Some None ->
  parentChecks fuel s' saved pt = Some None.
Proof.
  intros Hid Hex Hsame. unfold parentChecks. rewrite Hid.
  destruct (truthy pt) eqn:Et; simpl; [|auto].
  destruct (sameIdString pt (_id task)) eqn:Es; [discriminate|].
  destruct (castId pt) as [p|] eqn:Ec; [|auto].
  destruct (Nat.eq_dec p (_id task)) as [->|Hne].
  { destruct Hex as [t Ht]. rewrite Ht.
    destruct (findById_some _ _ _ Ht) as [_ Hidt].
    destruct fuel; simpl; rewrite Hidt, Nat.eqb_refl; discriminate. }
  rewrite (Hsame p Hne).
  destruct (cycleWalk fuel s (_id task) (findById s p)) as [[|]|] eqn:Ew;
    try discriminate.
  intros _.
  now rewrite (cycleWalk_after_save s s' (_id task) Hex Hsame fuel _ Ew).
Qed.

(** X28.  With unique ids, sending an answered update once more, at any
    later time, is answered with the same record and writes nothing: the
    store and the record's [updatedAt] stay as the first update left
    them. *)
Theorem update_repeated :
  forall fuel now now' requester id body s saved s',
    UniqueIds s ->
    updateTask fuel now requester id body s = Some (Ok saved, s') ->
    updateTask fuel now' requester id body s' = Some (Ok saved, s').
Proof.
  intros fuel now now' requester id body s saved s' Hu H.
  pose proof (updateTask_refetch _ _ _ _ _ _ _ _ Hu H) as Hf'.
  destruct (updateTask_ok _ _ _ _ _ _ _ _ H)
    as [task [task' [Hv [Hfetch [Hp [Happ Hsave]]]]]].
  destruct (fetch_some _ _ _ _ Hfetch) as [Hin Hid].
  pose proof (applyUpdates_id _ _ _ _ _ Happ) as Hid'.
  assert (Hex : exists t, findById s (_id task) = Some t).
  { exists task. now apply findById_unique. }
  assert (Hshape : (saved = task' /\ s' = s /\ task = task')
                   \/ (saved = stamped now task'
                       /\ s' = replaceDoc (stamped now task') s)).
  { unfold save in Hsave.
    destruct (Todo_eq_dec task task') as [Heq|Hne];
      injection Hsave as Hsaved Hs'; subst saved s'.
    - left. subst task'. auto.
    - right. split; reflexivity. }
  assert (Hfix : applyUpdates requester body (keys body) saved = Some saved).
  { pose proof (applyUpdates_fixed_point _ _ _ _ _ Happ) as Hfp.
    destruct Hshape as [[-> _]|[-> _]]; [exact Hfp|].
    rewrite applyUpdates_stamped, Hfp. reflexivity. }
  assert (Hids : _id saved = _id task).
  { destruct Hshape as [[-> _]|[-> _]]; simpl; congruence. }
  assert (Hsame : forall j, j <> _id task -> findById s' j = findById s j).
  { intros j Hj. destruct Hshape as [[_ [-> _]]|[_ ->]]; [reflexivity|].
    rewrite findById_replaceDoc. simpl. rewrite Hid'.
    apply Nat.eqb_neq in Hj. now rewrite Hj. }
  unfold updateTask. rewrite Hv, Hf'. simpl.
  rewrite (parentChecks_after_save fuel s s' task saved _ Hids Hex Hsame Hp).
  unfold applyAndSave. rewrite Hfix. unfold save.
  destruct (Todo_eq_dec saved saved) as [_|Hne]; [reflexivity|].
  exfalso. now apply Hne.
Qed.

Lemma update_repeated_witness :
  updateTask 0 900 alice 11 [("text", VStr "Test more")]%string
    [plan_release;
     mkTodo 11 "Test more" false 1 None None None (Some 10) 110 200]
  = Some (Ok (mkTodo 11 "Test more" false 1 None None None (Some 10) 110 200),
          [plan_release;
           mkTodo 11 "Test more" false 1 None None None (Some 10) 110 200]).
Proof.
  apply (update_repeated 0 200 900 alice 11 [("text", VStr "Test more")]%string
           [plan_release; write_tests]).
  - unfold UniqueIds. simpl.
    repeat (constructor; [simpl; intuition discriminate|]). constructor.
  - reflexivity.
Defined.
